(** * pdfrw's PdfReader (rst2pdf/pdfrw/pdfreader.py): a shallow embedding

    The reader is Python 2 code: a file is a byte string ([str]), tokens
    are byte strings, and the token source ([PdfTokens], not part of this
    file's sources) is a seekable cursor over the immutable buffer
    [fdata].  The embedding keeps the method names of the class. *)

From Stdlib Require Import ZArith String Ascii List Bool Lia DecimalString.
From stdpp Require Import base option list gmap strings.

Set Warnings "-register-all".
Local Open Scope string_scope.
Local Open Scope Z_scope.

(** ** Python byte-string primitives *)

Module Py.

Definition len (s : string) : Z := Z.of_nat (String.length s).

Fixpoint drop (n : nat) (s : string) : string :=
  match n, s with
  | O, _ => s
  | S n', String _ r => drop n' r
  | S _, EmptyString => EmptyString
  end.

Fixpoint take (n : nat) (s : string) : string :=
  match n, s with
  | O, _ => EmptyString
  | S n', String c r => String c (take n' r)
  | S _, EmptyString => EmptyString
  end.

(** Slice-index normalisation: a negative index counts from the end,
    and the result is clipped to [0, n]. *)
Definition adjust (n i : Z) : Z :=
  if i <? 0 then Z.max 0 (i + n) else Z.min i n.

(** [s[i:j]] *)
Definition slice (s : string) (i j : Z) : string :=
  let a := adjust (len s) i in
  let b := adjust (len s) j in
  take (Z.to_nat (b - a)) (drop (Z.to_nat a) s).

(** [s[i]]: a one-byte string, or nothing when out of range (IndexError). *)
Definition index (s : string) (i : Z) : option string :=
  let i' := if i <? 0 then i + len s else i in
  if (0 <=? i') && (i' <? len s) then Some (take 1 (drop (Z.to_nat i') s))
  else None.

(** Candidates [i], [i+1], ..., [i+k-1], lowest first. *)
Fixpoint find_up (sub s : string) (i : Z) (k : nat) : Z :=
  match k with
  | O => -1
  | S k' =>
      if String.prefix sub (drop (Z.to_nat i) s) then i
      else find_up sub s (i + 1) k'
  end.

(** [s.find(sub, start, stop)] *)
Definition find (s sub : string) (start stop : Z) : Z :=
  let a := adjust (len s) start in
  let b := adjust (len s) stop in
  find_up sub s a (Z.to_nat (b - len sub - a + 1)).

(** Candidates [a+k-1] down to [a], highest first. *)
Fixpoint find_down (sub s : string) (a : Z) (k : nat) : Z :=
  match k with
  | O => -1
  | S k' =>
      if String.prefix sub (drop (Z.to_nat (a + Z.of_nat k')) s)
      then a + Z.of_nat k'
      else find_down sub s a k'
  end.

(** [s.rfind(sub, start, stop)] *)
Definition rfind (s sub : string) (start stop : Z) : Z :=
  let a := adjust (len s) start in
  let b := adjust (len s) stop in
  find_down sub s a (Z.to_nat (b - len sub - a + 1)).

Definition LF : ascii := ascii_of_nat 10.
Definition CR : ascii := ascii_of_nat 13.

(** The whitespace of [str.split()], [str.strip()] and [int()]. *)
Definition isspace (c : ascii) : bool :=
  let n := nat_of_ascii c in
  (Nat.eqb n 32) || (Nat.leb 9 n && Nat.leb n 13).

Definition snoc (s : string) (c : ascii) : string := String.append s (String c EmptyString).

Definition is_empty (s : string) : bool :=
  match s with EmptyString => true | _ => false end.

(** [s.splitlines()]: breaks at LF, CR and CR LF; no empty last line. *)
Fixpoint splitlines_from (cur s : string) : list string :=
  match s with
  | EmptyString => if is_empty cur then [] else [cur]
  | String c r =>
      if Ascii.eqb c LF then cur :: splitlines_from EmptyString r
      else if Ascii.eqb c CR then
        match r with
        | String c' r' =>
            if Ascii.eqb c' LF then cur :: splitlines_from EmptyString r'
            else cur :: splitlines_from EmptyString r
        | EmptyString => cur :: splitlines_from EmptyString r
        end
      else splitlines_from (snoc cur c) r
  end.

Definition splitlines (s : string) : list string :=
  splitlines_from EmptyString s.

(** [s.split()]: the maximal runs of non-whitespace bytes. *)
Fixpoint split_from (cur s : string) : list string :=
  match s with
  | EmptyString => if is_empty cur then [] else [cur]
  | String c r =>
      if isspace c then
        if is_empty cur then split_from EmptyString r
        else cur :: split_from EmptyString r
      else split_from (snoc cur c) r
  end.

Definition split (s : string) : list string := split_from EmptyString s.

Definition is_digit (c : ascii) : bool :=
  let n := nat_of_ascii c in Nat.leb 48 n && Nat.leb n 57.

Fixpoint all_digits (s : string) : bool :=
  match s with
  | EmptyString => true
  | String c r => is_digit c && all_digits r
  end.

(** [s.isdigit()] *)
Definition isdigit (s : string) : bool := negb (is_empty s) && all_digits s.

(** [s.startswith(p)] *)
Definition startswith (s p : string) : bool := String.prefix p s.

Fixpoint digits_value (acc : Z) (s : string) : Z :=
  match s with
  | EmptyString => acc
  | String c r => digits_value (10 * acc + (Z.of_nat (nat_of_ascii c) - 48)) r
  end.

Fixpoint lstrip (s : string) : string :=
  match s with
  | String c r => if isspace c then lstrip r else s
  | EmptyString => EmptyString
  end.

(** [s.rstrip()] *)
Fixpoint rstrip (s : string) : string :=
  match s with
  | EmptyString => EmptyString
  | String c r =>
      let r' := rstrip r in
      if is_empty r' && isspace c then EmptyString else String c r'
  end.

(** [int(s)] in base ten: surrounding whitespace, an optional sign and at
    least one digit; anything else is a ValueError ([None]). *)
Definition int (s : string) : option Z :=
  match rstrip (lstrip s) with
  | String "-" d => if isdigit d then Some (- digits_value 0 d) else None
  | String "+" d => if isdigit d then Some (digits_value 0 d) else None
  | d => if isdigit d then Some (digits_value 0 d) else None
  end.

(** ['%d' % n] *)
Definition str (n : Z) : string := NilZero.string_of_int (Z.to_int n).

End Py.


(** ** The object model

    The value classes live in [objects.py], which is not among this
    file's sources; the reader uses them through the operations below. *)

(** Modelled from the spec: the value types of [objects.py], "tagged
    union {Dictionary, Array, Name, Scalar/String, Indirect Reference}",
    with "a reserved indirect identity tag and a private non-serialized
    stream-payload slot".  A [PdfIndirect] is the placeholder
    [findindirect] creates for a key; names and scalars are tokens
    ([PdfObject]); [PyNone] is Python's [None]. *)

Abbreviation key := (Z * Z)%type.

Inductive value : Type :=
| PyNone
| PdfObject (tok : string) (indirect : option key)
| PdfIndirect (k : key)
| PdfArray (items : list value) (indirect : option key)
| PdfDict (items : list (string * value)) (indirect : option key)
          (stream : option string).

Abbreviation dict := (list (string * value)).

Definition is_PdfIndirect (v : value) : bool :=
  match v with PdfIndirect _ => true | _ => false end.

Definition is_PdfDict (v : value) : bool :=
  match v with PdfDict _ _ _ => true | _ => false end.

Definition is_None (v : value) : bool :=
  match v with PyNone => true | _ => false end.

Fixpoint dict_get (d : dict) (k : string) : option value :=
  match d with
  | [] => None
  | (k', v) :: r => if String.eqb k' k then Some v else dict_get r k
  end.

Fixpoint dict_del (d : dict) (k : string) : dict :=
  match d with
  | [] => []
  | (k', v) :: r => if String.eqb k' k then dict_del r k else (k', v) :: dict_del r k
  end.

Fixpoint dict_put (d : dict) (k : string) (v : value) : dict :=
  match d with
  | [] => [(k, v)]
  | (k', v') :: r =>
      if String.eqb k' k then (k, v) :: r else (k', v') :: dict_put r k v
  end.

(** Modelled from the spec: [d[k] = v] of [objects.PdfDict], "an ordered
    name->value mapping"; storing [None] removes the entry, which the
    reader relies on: [newdict.Prev = None] is how "its /Prev" is
    "cleared", and a missing entry reads as [None]. *)
Definition dict_set (d : dict) (k : string) (v : value) : dict :=
  if is_None v then dict_del d k else dict_put d k v.

(** [d.update(e)] *)
Definition dict_update (d e : dict) : dict :=
  fold_left (fun acc kv => dict_set acc (fst kv) (snd kv)) e d.

(** [obj.indirect = key]: every value of the object model takes the tag;
    Python's [None] has no attributes, and the assignment raises
    AttributeError ([None] here). *)
Definition set_indirect (obj : value) (k : key) : option value :=
  match obj with
  | PyNone => None
  | PdfObject t _ => Some (PdfObject t (Some k))
  | PdfIndirect k' => Some (PdfIndirect k')
  | PdfArray l _ => Some (PdfArray l (Some k))
  | PdfDict d _ s => Some (PdfDict d (Some k) s)
  end.

(** Modelled from the spec: the "private, non-serialized slot" of
    [objects.PdfDict] that holds the stream payload; [obj._stream = data]
    and [obj.stream = data] both fill it. *)
Definition set_stream (obj : value) (data : string) : value :=
  match obj with
  | PdfDict d i _ => PdfDict d i (Some data)
  | v => v
  end.

Definition get_stream (obj : value) : option string :=
  match obj with PdfDict _ _ s => s | _ => None end.

(** ** Outcomes, log and loader state *)

Inductive exn : Type :=
| PdfParseError (msg : string)
| StopIteration
| ValueError
| TypeError
| AttributeError
| IndexError
| KeyError
| NameError
| RuntimeError.

(** [Diverge] is not a Python outcome: the loops of the reader are run on
    fuel, and [Diverge] says the fuel ran out. *)
Inductive outcome (A : Type) : Type :=
| Ret (a : A)
| Raise (e : exn)
| Diverge.
Arguments Ret {A} a.
Arguments Raise {A} e.
Arguments Diverge {A}.

Inductive level : Type := Warning | Error.

Record reader : Type := mkReader {
  floc : Z;                                (* source.floc *)
  tokstart : Z;                            (* source.tokstart *)
  obj_offsets : gmap key Z;                (* source.obj_offsets *)
  all_offsets : list Z;                    (* source.all_offsets *)
  indirect_objects : gmap key value;       (* self.indirect_objects *)
  deferred_objects : gset key;             (* self.deferred_objects *)
  warned_bad_stream_start : bool;
  warned_bad_stream_end : bool;
  objnum : option Z;                       (* the local [objnum] of parsexref *)
  entries : dict;                          (* the reader's own entries *)
  pages : list value;                      (* self.pages *)
  log : list (level * string)              (* the log module, oldest first *)
}.

Definition set_floc (v : Z) (r : reader) : reader :=
  mkReader v (tokstart r) (obj_offsets r) (all_offsets r) (indirect_objects r)
    (deferred_objects r) (warned_bad_stream_start r) (warned_bad_stream_end r)
    (objnum r) (entries r) (pages r) (log r).
Definition set_tokstart (v : Z) (r : reader) : reader :=
  mkReader (floc r) v (obj_offsets r) (all_offsets r) (indirect_objects r)
    (deferred_objects r) (warned_bad_stream_start r) (warned_bad_stream_end r)
    (objnum r) (entries r) (pages r) (log r).
Definition set_obj_offsets (v : gmap key Z) (r : reader) : reader :=
  mkReader (floc r) (tokstart r) v (all_offsets r) (indirect_objects r)
    (deferred_objects r) (warned_bad_stream_start r) (warned_bad_stream_end r)
    (objnum r) (entries r) (pages r) (log r).
Definition set_all_offsets (v : list Z) (r : reader) : reader :=
  mkReader (floc r) (tokstart r) (obj_offsets r) v (indirect_objects r)
    (deferred_objects r) (warned_bad_stream_start r) (warned_bad_stream_end r)
    (objnum r) (entries r) (pages r) (log r).
Definition set_indirect_objects (v : gmap key value) (r : reader) : reader :=
  mkReader (floc r) (tokstart r) (obj_offsets r) (all_offsets r) v
    (deferred_objects r) (warned_bad_stream_start r) (warned_bad_stream_end r)
    (objnum r) (entries r) (pages r) (log r).
Definition set_deferred_objects (v : gset key) (r : reader) : reader :=
  mkReader (floc r) (tokstart r) (obj_offsets r) (all_offsets r)
    (indirect_objects r) v (warned_bad_stream_start r)
    (warned_bad_stream_end r) (objnum r) (entries r) (pages r) (log r).
Definition set_warned_bad_stream_start (v : bool) (r : reader) : reader :=
  mkReader (floc r) (tokstart r) (obj_offsets r) (all_offsets r)
    (indirect_objects r) (deferred_objects r) v (warned_bad_stream_end r)
    (objnum r) (entries r) (pages r) (log r).
Definition set_warned_bad_stream_end (v : bool) (r : reader) : reader :=
  mkReader (floc r) (tokstart r) (obj_offsets r) (all_offsets r)
    (indirect_objects r) (deferred_objects r) (warned_bad_stream_start r) v
    (objnum r) (entries r) (pages r) (log r).
Definition set_objnum (v : option Z) (r : reader) : reader :=
  mkReader (floc r) (tokstart r) (obj_offsets r) (all_offsets r)
    (indirect_objects r) (deferred_objects r) (warned_bad_stream_start r)
    (warned_bad_stream_end r) v (entries r) (pages r) (log r).
Definition set_entries (v : dict) (r : reader) : reader :=
  mkReader (floc r) (tokstart r) (obj_offsets r) (all_offsets r)
    (indirect_objects r) (deferred_objects r) (warned_bad_stream_start r)
    (warned_bad_stream_end r) (objnum r) v (pages r) (log r).
Definition set_log (v : list (level * string)) (r : reader) : reader :=
  mkReader (floc r) (tokstart r) (obj_offsets r) (all_offsets r)
    (indirect_objects r) (deferred_objects r) (warned_bad_stream_start r)
    (warned_bad_stream_end r) (objnum r) (entries r) (pages r) v.

(** A fresh loader: the state [__init__] sets up before it reads the
    first cross-reference section at [tableloc]. *)
Definition fresh (tableloc : Z) : reader :=
  mkReader tableloc tableloc ∅ [] ∅ ∅ false false None [] [] [].

(** The loader monad: state that survives an exception, because the
    reader catches exceptions and goes on with what was mutated. *)
Definition M (A : Type) : Type := reader -> outcome A * reader.

Definition ret {A} (a : A) : M A := fun st => (Ret a, st).
Definition raise {A} (e : exn) : M A := fun st => (Raise e, st).
Definition diverge {A} : M A := fun st => (Diverge, st).
Definition bind {A B} (m : M A) (k : A -> M B) : M B :=
  fun st =>
    match m st with
    | (Ret a, st') => k a st'
    | (Raise e, st') => (Raise e, st')
    | (Diverge, st') => (Diverge, st')
    end.
Definition gets {A} (f : reader -> A) : M A := fun st => (Ret (f st), st).
Definition modify (f : reader -> reader) : M unit := fun st => (Ret tt, f st).

(** [try: m  except: h] with a bare [except]; running out of fuel is not
    an exception and is not caught. *)
Definition try_except {A} (m : M A) (h : exn -> M A) : M A :=
  fun st =>
    match m st with
    | (Raise e, st') => h e st'
    | r => r
    end.

Definition lift_option {A} (e : exn) (o : option A) : M A :=
  match o with Some a => ret a | None => raise e end.

Definition when (b : bool) (m : M unit) : M unit := if b then m else ret tt.

Declare Scope loader_scope.
Delimit Scope loader_scope with loader.
Notation "x <- m ;; k" := (bind m (fun x => k))
  (at level 100, m at next level, k at level 200, right associativity) : loader_scope.
Notation "m ;;; k" := (bind m (fun _ => k))
  (at level 100, k at level 200, right associativity) : loader_scope.
Local Open Scope loader_scope.

(** [log.warning(msg)], [log.error(msg)]: neither raises. *)
Definition log_warning (msg : string) : M unit :=
  modify (fun st => set_log (log st ++ [(Warning, msg)]) st).
Definition log_error (msg : string) : M unit :=
  modify (fun st => set_log (log st ++ [(Error, msg)]) st).

(** ** The reader *)

Inductive special_fn : Type := Sreaddict | Sreadarray | Sempty_obj | Sbadtoken.

(** [self.special]: the table [__init__] builds. *)
Definition special (tok : string) : option special_fn :=
  if String.eqb tok "<<" then Some Sreaddict
  else if String.eqb tok "[" then Some Sreadarray
  else if String.eqb tok "endobj" then Some Sempty_obj
  else if existsb (String.eqb tok)
            ["\"; "("; ")"; "<"; ">"; "{"; "}"; "]"; ">>"; "%"]
  then Some Sbadtoken
  else None.

(** [int(v)] on a value: only a token converts. *)
Definition int_value (v : value) : M Z :=
  match v with
  | PdfObject t _ => lift_option ValueError (Py.int t)
  | _ => raise TypeError
  end.

(** [result.pop()] *)
Definition pop (l : list value) : M (value * list value) :=
  match rev l with
  | [] => raise IndexError
  | x :: r => ret (x, rev r)
  end.

Section PdfReader.

(** The immutable buffer [source.fdata], and the token source over it.
    [tokens.PdfTokens] is not among this file's sources and is taken as a
    parameter: [lexer p] is the token it yields when resumed at offset
    [p], with the offset the token starts at and the offset just after
    it, or [None] at the end of input. *)
Variable fdata : string.
Variable lexer : Z -> option (string * Z * Z).

(** Modelled from the spec: [next(source)], "next() -> token or
    end-of-input", with "position tracking": the token at the current
    offset, [source.tokstart] and [source.floc] moved to its two ends;
    StopIteration at the end of input. *)
Definition next : M string :=
  fun st =>
    match lexer (floc st) with
    | Some (tok, ts, fl) => (Ret tok, set_floc fl (set_tokstart ts st))
    | None => (Raise StopIteration, st)
    end.

(** Modelled from the spec: [source.multiple(n)], "read exactly N tokens
    as a batch"; the batch is shorter at the end of input, which is why
    [loadindirect] checks its length. *)
Fixpoint multiple (n : nat) : M (list string) :=
  match n with
  | O => ret []
  | S n' =>
      fun st =>
        match lexer (floc st) with
        | Some (tok, ts, fl) =>
            (l <- multiple n' ;; ret (tok :: l)) (set_floc fl (set_tokstart ts st))
        | None => (Ret [], st)
        end
  end.

(** Modelled from the spec: "exception/error/warning(msg) report
    fatal/recorded/advisory conditions"; [source.exception] raises
    PdfParseError, [source.error] and [source.warning] write to the log
    and return.  The position the source adds to a message is left out. *)
Definition exception {A} (msg : string) : M A := raise (PdfParseError msg).
Definition warning (msg : string) : M unit := log_warning msg.
Definition error (msg : string) : M unit := log_error msg.

Definition seek (p : Z) : M unit := modify (set_floc p).

(** [findindirect]: the value registered for a key, or a new placeholder,
    which also joins the deferred set. *)
Definition findindirect (objnum gennum : value) : M value :=
  n <- int_value objnum ;;
  g <- int_value gennum ;;
  result <- gets (fun st => indirect_objects st !! (n, g)) ;;
  match result with
  | Some v =>
      if is_None v then
        modify (fun st =>
          set_deferred_objects ({[ (n, g) ]} ∪ deferred_objects st)
            (set_indirect_objects (<[ (n, g) := PdfIndirect (n, g) ]> (indirect_objects st)) st)) ;;;
        ret (PdfIndirect (n, g))
      else ret v
  | None =>
      modify (fun st =>
        set_deferred_objects ({[ (n, g) ]} ∪ deferred_objects st)
          (set_indirect_objects (<[ (n, g) := PdfIndirect (n, g) ]> (indirect_objects st)) st)) ;;;
      ret (PdfIndirect (n, g))
  end.

(** [empty_obj]: back up so the caller sees the [endobj]; the method has
    no [return], so the call's value is [None]. *)
Definition empty_obj : M value :=
  ts <- gets tokstart ;; seek ts ;;; ret PyNone.

(** [badtoken] *)
Definition badtoken : M value := exception "Unexpected delimiter".

Definition call_special (rd ra : M value) (f : special_fn) : M value :=
  match f with
  | Sreaddict => rd
  | Sreadarray => ra
  | Sempty_obj => empty_obj
  | Sbadtoken => badtoken
  end.

(** [value in b']R']: a substring test. *)
Definition in_close_or_R (v : string) : bool :=
  existsb (String.eqb v) [""; "]"; "R"; "]R"].

(** [readarray] is the loop on [result = []]; [readdict] reads its first
    token and enters the [while] loop.  One unit of fuel per iteration and
    per nested container. *)
Fixpoint readarray_loop (fuel : nat) (result : list value) {struct fuel} : M value :=
  match fuel with
  | O => diverge
  | S fuel' =>
      fun st =>
        match lexer (floc st) with
        | None => (Ret (PdfArray result None), st)
        | Some (v, ts, fl) =>
            (if in_close_or_R v then
               if String.eqb v "]" then ret (PdfArray result None)
               else
                 p1 <- pop result ;;
                 p2 <- pop (snd p1) ;;
                 r <- findindirect (fst p2) (fst p1) ;;
                 readarray_loop fuel' (snd p2 ++ [r])
             else
               match special v with
               | Some f =>
                   r <- call_special
                          (tok <- next ;; readdict_loop fuel' [] tok)
                          (readarray_loop fuel' []) f ;;
                   readarray_loop fuel' (result ++ [r])
               | None => readarray_loop fuel' (result ++ [PdfObject v None])
               end) (set_floc fl (set_tokstart ts st))
        end
  end
with readdict_loop (fuel : nat) (result : dict) (tok : string) {struct fuel} : M value :=
  match fuel with
  | O => diverge
  | S fuel' =>
      if String.eqb tok ">>" then ret (PdfDict result None None)
      else
        when (negb (Py.startswith tok "/")) (exception "Expected PDF /name object") ;;;
        v <- next ;;
        match special v with
        | Some f =>
            r <- call_special
                   (tok0 <- next ;; readdict_loop fuel' [] tok0)
                   (readarray_loop fuel' []) f ;;
            tok' <- next ;;
            readdict_loop fuel' (dict_set result tok r) tok'
        | None =>
            tok' <- next ;;
            if Py.isdigit v && Py.isdigit tok' then
              r <- next ;;
              when (negb (String.eqb r "R"))
                   (exception "Expected R following two integers") ;;;
              ref <- findindirect (PdfObject v None) (PdfObject tok' None) ;;
              tok'' <- next ;;
              readdict_loop fuel' (dict_set result tok ref) tok''
            else readdict_loop fuel' (dict_set result tok (PdfObject v None)) tok'
        end
  end.

Definition readarray (fuel : nat) : M value := readarray_loop fuel [].
Definition readdict (fuel : nat) : M value :=
  tok <- next ;; readdict_loop fuel [] tok.

Definition run_special (fuel : nat) (f : special_fn) : M value :=
  call_special (readdict fuel) (readarray fuel) f.

(** *** Streams *)

(** [findstream]: the offset of the first payload byte. *)
Definition findstream (obj : value) (tok : string) : M Z :=
  let isdict := is_PdfDict obj in
  when (negb isdict || negb (String.eqb tok "stream"))
       (exception "Expected endobj or stream token") ;;;
  ts <- gets tokstart ;;
  let startstream := ts + Py.len tok in
  c1 <- lift_option IndexError (Py.index fdata startstream) ;;
  let gotcr := String.eqb c1 (String Py.CR EmptyString) in
  let startstream := startstream + (if gotcr then 1 else 0) in
  c2 <- lift_option IndexError (Py.index fdata startstream) ;;
  let gotlf := String.eqb c2 (String Py.LF EmptyString) in
  let startstream := startstream + (if gotlf then 1 else 0) in
  when (negb gotlf)
    (when (negb gotcr) (exception "stream keyword not followed by LF") ;;;
     warned <- gets warned_bad_stream_start ;;
     when (negb warned)
       (warning "stream keyword terminated by CR without LF" ;;;
        modify (set_warned_bad_stream_start true))) ;;;
  ret startstream.

(** Modelled from the spec: [node[name]] and [node.Name] of
    [objects.PdfDict], whose values are "linked by lazily-resolved
    indirect references": a dictionary entry, [None] when missing, and a
    placeholder is resolved on access through the hook [findindirect]
    installs on it ([result._loader = self.loadindirect]).  No other kind
    of value is subscriptable by a name (TypeError). *)
Definition getitem (resolve : key -> M value) (node : value) (name : string) : M value :=
  match node with
  | PdfDict d _ _ =>
      match dict_get d name with
      | Some (PdfIndirect k) => resolve k
      | Some v => ret v
      | None => ret PyNone
      end
  | _ => raise TypeError
  end.

Definition CRLF : string := String Py.CR (String Py.LF EmptyString).

Definition streamending : list string := ["endstream"; "endobj"].

Definition tokens_eqb (a b : list string) : bool :=
  bool_decide (a = b).

(** [readstream]: the value returned is [obj] after the assignments to
    its payload slot. *)
Definition readstream (resolve : key -> M value) (obj : value) (startstream : Z) : M value :=
  l <- getitem resolve obj "/Length" ;;
  length <- int_value l ;;
  let target_endstream := startstream + length in
  seek target_endstream ;;;
  endit <- multiple 2 ;;
  let obj := set_stream obj (Py.slice fdata startstream target_endstream) in
  if tokens_eqb endit streamending then ret obj
  else
    modify (set_warned_bad_stream_end false) ;;;
    let maxstream := Py.len fdata - 20 in
    let endstream := Py.find fdata "endstream" startstream maxstream in
    seek startstream ;;;
    let room := endstream - startstream in
    if endstream <? 0 then
      error "Could not find endstream" ;;; ret obj
    else if (length =? room + 1)
            && String.eqb (Py.slice fdata (startstream - 2) startstream) CRLF then
      warning "stream keyword terminated by CR without LF" ;;;
      ret (set_stream obj (Py.slice fdata (startstream - 1) (target_endstream - 1)))
    else
      seek endstream ;;;
      if length >? room then
        error "stream /Length attribute appears to be too big -- adjusting" ;;;
        ret (set_stream obj (Py.slice fdata startstream endstream))
      else if negb (Py.is_empty (Py.rstrip (Py.slice fdata target_endstream endstream))) then
        error "stream /Length attribute might be smaller than data size" ;;;
        ret obj
      else
        let endobj := Py.find fdata "endobj" endstream maxstream in
        if endobj <? 0 then
          error "Could not find endobj after endstream" ;;; ret obj
        else if negb (String.eqb (Py.rstrip (Py.slice fdata endstream endobj)) "endstream") then
          error "Unexpected data between endstream and endobj" ;;; ret obj
        else
          error "Illegal endstream/endobj combination" ;;; ret obj.

(** *** Indirect objects *)

Definition store (k : key) (obj : value) : M unit :=
  modify (fun st => set_indirect_objects (<[ k := obj ]> (indirect_objects st)) st).

(** [self.deferred_objects.remove(key)] *)
Definition deferred_remove (k : key) : M unit :=
  d <- gets deferred_objects ;;
  if bool_decide (k ∈ d) then modify (set_deferred_objects (d ∖ {[ k ]}))
  else raise KeyError.

Definition objheader (k : key) : string :=
  String.append (Py.str (fst k))
    (String.append " " (String.append (Py.str (snd k)) " obj")).

Definition header_ok (k : key) (objid : list string) : bool :=
  match objid with
  | [a; b; c] =>
      Py.isdigit a && bool_decide (Py.int a = Some (fst k))
      && Py.isdigit b && bool_decide (Py.int b = Some (snd k))
      && String.eqb c "obj"
  | _ => false
  end.

(** The header was not at the stated offset: look for it after a line
    break; [true] when the source now stands just after the header. *)
Definition resync (k : key) (offset : Z) : M bool :=
  seek offset ;;;
  _ <- next ;;
  let h := objheader k in
  let n := Py.len fdata in
  let o1 := Py.find fdata (String Py.LF h) 0 n + 1 in
  let offset2 := if o1 =? 0 then Py.find fdata (String Py.CR h) 0 n + 1 else o1 in
  if offset2 =? 0 then
    warning "Expected indirect object" ;;; ret false
  else
    c <- lift_option IndexError (Py.index fdata (offset2 - 1)) ;;
    if Py.find fdata (String.append c h) offset2 n >? 0 then
      warning "Expected indirect object" ;;; ret false
    else
      warning "Indirect object found at incorrect offset" ;;;
      seek (offset2 + Py.len h) ;;;
      ret true.

(** "Read the object header and validate it": [true] when the source
    stands just after the header of [k]. *)
Definition read_header (k : key) (offset : Z) : M bool :=
  seek offset ;;;
  objid <- multiple 3 ;;
  if header_ok k objid then ret true else resync k offset.

(** "Read the object, and call special code if it starts an array or
    dictionary". *)
Definition read_object (fuel : nat) : M value :=
  tok <- next ;;
  match special tok with
  | Some f => run_special fuel f
  | None => ret (PdfObject tok None)
  end.

(** The object is entered in the table and leaves the deferred set, is
    tagged with its key, and its stream is read when the next token is
    not [endobj].  The table holds the object itself, so it sees the tag
    and the payload. *)
Definition register_object (resolve : key -> M value) (k : key) (obj : value) : M value :=
  store k obj ;;;
  deferred_remove k ;;;
  obj <- lift_option AttributeError (set_indirect obj k) ;;
  store k obj ;;;
  tok <- next ;;
  if negb (String.eqb tok "endobj") then
    startstream <- findstream obj tok ;;
    obj <- readstream resolve obj startstream ;;
    store k obj ;;;
    ret obj
  else ret obj.

(** [loadindirect], given the loader the object model calls back
    ([resolve]) and the fuel of the container parser. *)
Definition loadindirect_with (resolve : key -> M value) (fuel : nat) (k : key) : M value :=
  result <- gets (fun st => indirect_objects st !! k) ;;
  match result with
  | None => ret PyNone
  | Some (PdfIndirect _) =>
      offset <- gets (fun st => default 0 (obj_offsets st !! k)) ;;
      if offset =? 0 then
        log_warning "Did not find PDF object" ;;; ret PyNone
      else
        found <- read_header k offset ;;
        if negb found then ret PyNone
        else
          obj <- read_object fuel ;;
          register_object resolve k obj
  | Some v => ret v
  end.

Fixpoint loadindirect (fuel : nat) (k : key) {struct fuel} : M value :=
  loadindirect_with
    (fun k' => match fuel with O => diverge | S f => loadindirect f k' end)
    fuel k.

(** *** Cross-reference sections *)

(** [setdefault((objnum, generation), offset); add_offset(offset)] *)
Definition add_entry (n g offset : Z) : M unit :=
  modify (fun st =>
    set_all_offsets (all_offsets st ++ [offset])
      (set_obj_offsets
         (match obj_offsets st !! (n, g) with
          | Some _ => obj_offsets st
          | None => <[ (n, g) := offset ]> (obj_offsets st)
          end) st)).

Definition int_tok (t : string) : M Z := lift_option ValueError (Py.int t).

(** The [for objnum in range(startobj, startobj + count)] loop. *)
Fixpoint xref_entries (n : nat) (cur : Z) : M unit :=
  match n with
  | O => ret tt
  | S n' =>
      modify (set_objnum (Some cur)) ;;;
      t1 <- next ;; offset <- int_tok t1 ;;
      t2 <- next ;; generation <- int_tok t2 ;;
      inuse <- next ;;
      (if String.eqb inuse "n" then
         when (negb (offset =? 0)) (add_entry cur generation offset)
       else when (negb (String.eqb inuse "f")) (raise ValueError)) ;;;
      xref_entries n' (cur + 1)
  end.

(** The strict [while 1] loop; it returns at [trailer]. *)
Fixpoint xref_strict (fuel : nat) : M unit :=
  match fuel with
  | O => diverge
  | S fuel' =>
      tok <- next ;;
      if String.eqb tok "trailer" then ret tt
      else
        startobj <- int_tok tok ;;
        t <- next ;;
        count <- int_tok t ;;
        xref_entries (Z.to_nat count) startobj ;;;
        xref_strict fuel'
  end.

Definition bound_objnum : M Z :=
  o <- gets objnum ;; lift_option NameError o.

(** One line of the line-oriented second pass. *)
Definition xref_recover_line (line : string) : M unit :=
  match Py.split line with
  | [] => ret tt
  | [a; _] => n <- int_tok a ;; modify (set_objnum (Some n))
  | [a; b; inuse] =>
      offset <- int_tok a ;;
      generation <- int_tok b ;;
      when (negb (offset =? 0) && String.eqb inuse "n")
           (n <- bound_objnum ;; add_entry n generation offset) ;;;
      n <- bound_objnum ;;
      modify (set_objnum (Some (n + 1)))
  | _ => log_error "Invalid line in xref table" ;;; raise ValueError
  end.

Fixpoint xref_recover_lines (table : list string) : M unit :=
  match table with
  | [] => ret tt
  | line :: r => xref_recover_line line ;;; xref_recover_lines r
  end.

(** [fdata.rindex('trailer', start)] *)
Definition trailer_rindex (start : Z) : Z :=
  Py.rfind fdata "trailer" start (Py.len fdata).

Definition xref_recover (start : Z) : M unit :=
  try_except
    (let end_ := trailer_rindex start in
     when (end_ <? 0) (raise ValueError) ;;;
     xref_recover_lines (Py.splitlines (Py.slice fdata start end_)) ;;;
     log_warning "Badly formatted xref table" ;;;
     seek end_ ;;;
     _ <- next ;;
     ret tt)
    (fun _ => seek start ;;; exception "Invalid table format").

(** [parsexref] *)
Definition parsexref (fuel : nat) : M unit :=
  tok <- next ;;
  when (negb (String.eqb tok "xref")) (exception "Expected xref keyword") ;;;
  start <- gets floc ;;
  modify (set_objnum None) ;;;
  strict <- try_except (xref_strict fuel ;;; ret true) (fun _ => ret false) ;;
  if strict then ret tt else xref_recover start.

(** *** The page tree *)

Definition name_is (v : value) (name : string) : bool :=
  match v with PdfObject t _ => String.eqb t name | _ => false end.

Fixpoint chars (s : string) : list value :=
  match s with
  | EmptyString => []
  | String c r => PdfObject (String c EmptyString) None :: chars r
  end.

(** Modelled from the spec: what a [for] loop over a value of the object
    model visits.  The items of an array (a placeholder among them is
    resolved when [each_kid] reaches it); the bytes of a token; the keys
    of a dictionary.  [None] is not iterable. *)
Definition iterate (v : value) : M (list value) :=
  match v with
  | PdfArray l _ => ret l
  | PdfObject t _ => ret (chars t)
  | PdfDict d _ _ => ret (map (fun kv => PdfObject (fst kv) None) d)
  | PdfIndirect _ => raise TypeError
  | PyNone => raise TypeError
  end.

Definition resolved (resolve : key -> M value) (v : value) : M value :=
  match v with PdfIndirect k => resolve k | _ => ret v end.

(** [readnode] is a generator, and the value of a run is the list of the
    nodes it yields.  In Python 2 a StopIteration that reaches the body
    of a generator ends the generator: the loop that consumes it takes
    it for the end of the nodes, and what was yielded before stays.
    [m] is a step of the body and [k] the rest of the body. *)
Definition in_generator {A} (m : M A) (k : A -> M (list value)) : M (list value) :=
  fun st =>
    match m st with
    | (Ret a, st') => k a st'
    | (Raise StopIteration, st') => (Ret [], st')
    | (Raise e, st') => (Raise e, st')
    | (Diverge, st') => (Diverge, st')
    end.

Section Pages.
Variable resolve : key -> M value.

(** The two nested [for] loops over the kids of a [/Pages] node. *)
Fixpoint each_kid (visit : value -> M (list value)) (l : list value) : M (list value) :=
  match l with
  | [] => ret []
  | kid :: r =>
      in_generator (resolved resolve kid) (fun kid' =>
        ps <- visit kid' ;;
        qs <- each_kid visit r ;;
        ret (ps ++ qs)%list)
  end.

(** [depth] is what is left of the interpreter's recursion limit: each
    nested generator runs in a frame of its own, and a walk that nests
    deeper, as on a [/Kids] that leads back to its node, raises
    RuntimeError (maximum recursion depth exceeded). *)
Fixpoint readnode (depth : nat) (node : value) {struct depth} : M (list value) :=
  match depth with
  | O => raise RuntimeError
  | S depth' =>
      in_generator (getitem resolve node "/Type") (fun nodetype =>
        if name_is nodetype "/Page" then ret [node]
        else if name_is nodetype "/Pages" then
          in_generator (getitem resolve node "/Kids") (fun kids =>
            l <- iterate kids ;;
            each_kid (readnode depth') l)
        else if name_is nodetype "/Catalog" then
          in_generator (getitem resolve node "/Pages") (fun n =>
            readnode depth' n)
        else
          log_error "Expected /Page or /Pages dictionary" ;;; ret [])
  end.

(** [readpages]: only AttributeError and TypeError are caught; [fuel] is
    the depth [readnode] may nest to. *)
Definition readpages (fuel : nat) (node : value) : M (list value) :=
  try_except (readnode fuel node)
    (fun e =>
       match e with
       | AttributeError | TypeError => log_error "Invalid page tree" ;;; ret []
       | _ => raise e
       end).

End Pages.

(** *** Loading: the chain of cross-reference sections *)

(** One pass of the loop body up to the trailer dictionary: a fresh
    offset map, the section, the trailer. *)
Definition read_section (fuel : nat) (first : bool) : M value :=
  modify (set_obj_offsets ∅) ;;;
  parsexref fuel ;;;
  tok <- next ;;
  when (negb (String.eqb tok "<<")) (exception "Expected << starting catalog") ;;;
  newdict <- readdict fuel ;;
  token <- next ;;
  when (negb (String.eqb token "startxref") && first)
       (warning "Expected startxref at end of xref table") ;;;
  ret newdict.

Definition is_nil {A} (l : list A) : bool :=
  match l with [] => true | _ => false end.

Definition del_Prev (d : value) : value :=
  match d with
  | PdfDict items i s => PdfDict (dict_set items "/Prev" PyNone) i s
  | v => v
  end.

(** What the loop hands over when it breaks: the last trailer, the
    offset maps set aside, and the snapshot taken before the first link
    was followed. *)
Definition chain_state : Type :=
  (value * list (gmap key Z) * option (gmap key value * value))%type.

Fixpoint xref_loop (resolve : key -> M value) (pfuel fuel : nat)
    (xref_table_list : list (gmap key Z))
    (original : option (gmap key value * value)) {struct fuel} : M chain_state :=
  match fuel with
  | O => diverge
  | S fuel' =>
      newdict <- read_section pfuel (is_nil xref_table_list) ;;
      prev <- getitem resolve newdict "/Prev" ;;
      if is_None prev then ret (newdict, xref_table_list, original)
      else
        snap <- (if is_nil xref_table_list then
                   let newdict := del_Prev newdict in
                   t <- gets indirect_objects ;;
                   ret (newdict, Some (t, newdict))
                 else ret (newdict, original)) ;;
        p <- int_value prev ;;
        seek p ;;;
        offs <- gets obj_offsets ;;
        modify (set_indirect_objects ∅) ;;;
        xref_loop resolve pfuel fuel' (xref_table_list ++ [offs]) (snd snap)
  end.

(** [for update in reversed(xref_table_list): obj_offsets.update(update)] *)
Definition merge_offsets (xref_table_list : list (gmap key Z)) (last : gmap key Z) : gmap key Z :=
  fold_left (fun acc update => update ∪ acc) (rev xref_table_list) last.

Definition items_of (v : value) : dict :=
  match v with PdfDict d _ _ => d | _ => [] end.

(** Lines 363-398 of [__init__]: from the source standing at the last
    cross-reference table to [self.update(newdict)]. *)
Definition load_xrefs (resolve : key -> M value) (pfuel fuel : nat) : M unit :=
  modify (set_all_offsets []) ;;;
  r <- xref_loop resolve pfuel fuel [] None ;;
  let '(newdict, xref_table_list, original) := r in
  newdict <- (if is_nil xref_table_list then ret newdict
              else
                modify (fun st =>
                  set_obj_offsets (merge_offsets xref_table_list (obj_offsets st)) st) ;;;
                o <- lift_option NameError original ;;
                modify (set_indirect_objects (fst o)) ;;;
                ret (snd o)) ;;
  modify (fun st => set_entries (dict_update (entries st) (items_of newdict)) st).


(** *** read_all *)

Fixpoint load_each (fuel : nat) (keys : list key) : M unit :=
  match keys with
  | [] => ret tt
  | k :: r => _ <- loadindirect fuel k ;; load_each fuel r
  end.

(** The [while 1] loop of [read_all]; a set is visited in the order of
    its [elements]. *)
Fixpoint read_all_loop (lfuel fuel : nat) (prev : gset key) {struct fuel} : M unit :=
  match fuel with
  | O => diverge
  | S fuel' =>
      deferred <- gets deferred_objects ;;
      let new := deferred ∖ prev in
      if bool_decide (new = ∅) then ret tt
      else
        load_each lfuel (elements new) ;;;
        read_all_loop lfuel fuel' (prev ∪ deferred)
  end.

Definition read_all (fuel : nat) : M unit := read_all_loop fuel fuel ∅.

End PdfReader.

(** ** A token source to run the reader on

    Tokens separated by whitespace: what [PdfTokens] yields on files
    whose delimiters stand apart, which is what the sample files are. *)

Fixpoint skip_ws (s : string) (p : Z) : string * Z :=
  match s with
  | String c r => if Py.isspace c then skip_ws r (p + 1) else (s, p)
  | EmptyString => (EmptyString, p)
  end.

Fixpoint take_tok (s : string) : string :=
  match s with
  | String c r => if Py.isspace c then EmptyString else String c (take_tok r)
  | EmptyString => EmptyString
  end.

Definition ws_lexer (fdata : string) (p : Z) : option (string * Z * Z) :=
  if p <? 0 then None
  else
    let '(s, ts) := skip_ws (Py.drop (Z.to_nat p) fdata) p in
    let t := take_tok s in
    if Py.is_empty t then None else Some (t, ts, ts + Py.len t).

(** ** Sample files *)

Definition no_resolve : key -> M value := fun _ => ret PyNone.

Definition pad : string := "                         ".

(** A stream of five bytes with the right [/Length]. *)
Definition stream_ok : string :=
  String.append " 1 0 obj << /Length 5 >> stream
hello
endstream endobj" pad.

(** [/Length] says fifty. *)
Definition stream_too_big : string :=
  String.append " 1 0 obj << /Length 50 >> stream
hello
endstream endobj" pad.

(** [stream CR LF hello endstream], with [/Length 6], read from just
    after the line break. *)
Definition stream_crlf : string :=
  String.append "stream"
    (String Py.CR (String Py.LF (String.append "helloendstream endobj" pad))).

(** The loader that knows object 1 at offset 1 and has met a reference
    to it. *)
Definition one_deferred : reader :=
  set_obj_offsets {[ (1, 0) := 1 ]}
    (set_deferred_objects {[ (1, 0) ]}
       (set_indirect_objects {[ (1, 0) := PdfIndirect (1, 0) ]} (fresh 0))).


(** Object 1 with no body. *)
Definition empty_object : string := " 1 0 obj endobj".

(** Object 1 is an array that meets [endobj] before its bracket closes. *)
Definition open_array : string := " 1 0 obj [ endobj".

(** The loader that has met a reference to object 1 and has no offset
    for it. *)
Definition one_missing : reader :=
  set_deferred_objects {[ (1, 0) ]}
    (set_indirect_objects {[ (1, 0) := PdfIndirect (1, 0) ]} (fresh 0)).

(** A section whose subsection line has a count that is no number. *)
Definition xref_bad_count : string :=
  "xref
0 x
0000000000 65535 f
0000000010 00000 n
0000000020 00000 n
trailer
<< /Size 3 >>
startxref
0
%%EOF".

(** The same fault in a buffer where a second [trailer] follows. *)
Definition xref_two_trailers : string :=
  "xref
0 x
0000000010 00000 n
trailer
<< /Size 1 >>
trailer".

(** Two sections: the older one at offset 0, the newer one, which the
    file's [startxref] names, at offset 79 with [/Prev 0].  Both list
    object 1. *)
Definition two_sections : string :=
  "xref
1 2
0000000100 00000 n
0000000200 00000 n
trailer
<< /Size 3 >>
startxref
xref
1 1
0000000300 00000 n
trailer
<< /Size 3 /Prev 0 /Root 1 0 R >>
startxref
79
%%EOF".



(** One well-formed section with no [/Prev]. *)
Definition one_section : string :=
  "xref
0 3
0000000000 65535 f
0000000010 00000 n
0000000020 00000 n
trailer
<< /Size 3 >>
startxref
0
%%EOF".

(** Object 1 is entered at offset 1, where object 2 stands, and stands
    itself at offset 13. *)
Definition moved_object : string :=
  " 2 0 obj 7 x
1 0 obj 7 endobj".

(** A page tree of two pages, the second by reference to the loaded
    object 2. *)
Definition page_a : value :=
  PdfDict [("/Type", PdfObject "/Page" None)] None None.

Definition page_b : value :=
  PdfDict [("/Type", PdfObject "/Page" None); ("/Rotate", PdfObject "90" None)]
    (Some (2, 0)) None.

Definition pages_root : value :=
  PdfDict [("/Type", PdfObject "/Pages" None);
           ("/Kids", PdfArray [page_a; PdfIndirect (2, 0)] None)] None None.

Definition two_pages_loader : reader :=
  set_indirect_objects {[ (2, 0) := page_b ]} (fresh 0).




(** [stream CR LF hello?endstream]: with [/Length 5] the next
    [endstream] is six bytes after the payload start. *)
Definition stream_gap_longer : string :=
  String.append "stream"
    (String Py.CR (String Py.LF (String.append "hello?endstream endobj" pad))).

(** Two sections, the older one with a reference in its trailer; the
    newer one is at offset 72. *)
Definition older_reference : string :=
  "xref
1 1
0000000100 00000 n
trailer
<< /Size 2 /Info 5 0 R >>
startxref
xref
1 1
0000000300 00000 n
trailer
<< /Size 2 /Prev 0 >>
startxref
72
%%EOF".

(** ** The table and the deferred set *)

(** The entry of [k] is a placeholder. *)
Definition unresolved (st : reader) (k : key) : Prop :=
  exists k', indirect_objects st !! k = Some (PdfIndirect k').

(** The deferred keys are the keys whose entry is a placeholder. *)
Definition consistent (st : reader) : Prop :=
  forall k, k ∈ deferred_objects st <-> unresolved st k.

(** What parsing may do to the table: entries other than [None] stay,
    the offsets stay. *)
Definition keeps (st st' : reader) : Prop :=
  (consistent st -> consistent st')
  /\ (forall k v, indirect_objects st !! k = Some v -> is_None v = false ->
        indirect_objects st' !! k = Some v)
  /\ obj_offsets st' = obj_offsets st.

(** What loading may do: loaded entries stay, the offsets stay. *)
Definition loads (st st' : reader) : Prop :=
  (consistent st -> consistent st')
  /\ (forall k v, indirect_objects st !! k = Some v -> is_None v = false ->
        is_PdfIndirect v = false -> indirect_objects st' !! k = Some v)
  /\ obj_offsets st' = obj_offsets st.

(** Every run of [m] relates the state before to the state after,
    whatever the outcome. *)
Definition respects {A} (R : reader -> reader -> Prop) (m : M A) : Prop :=
  forall st o st', m st = (o, st') -> R st st'.

(** Every run of [m] that returns relates the state before to the state
    after. *)
Definition returns {A} (R : reader -> reader -> Prop) (m : M A) : Prop :=
  forall st a st', m st = (Ret a, st') -> R st st'.

(** An entry other than [None] is still an entry other than [None]. *)
Definition grows (st st' : reader) : Prop :=
  forall k v, indirect_objects st !! k = Some v -> is_None v = false ->
    exists v', indirect_objects st' !! k = Some v' /\ is_None v' = false.

(** What [m] returns, and where it leaves the source, depend on the
    state only through the offset of the source. *)
Definition positional {A} (m : M A) : Prop :=
  forall st st2, floc st = floc st2 ->
    fst (m st) = fst (m st2) /\ floc (snd (m st)) = floc (snd (m st2)).

(** ** Keys that do not load *)

(** With the offsets [offs], the key [k] has no offset, or its header is
    neither at its offset nor found elsewhere: what [loadindirect] finds
    before it reads an object, and which no state of the loader
    changes. *)
Definition fails_to_load (fdata : string) (lexer : Z -> option (string * Z * Z))
    (offs : gmap key Z) (k : key) : Prop :=
  default 0 (offs !! k) = 0
  \/ fst (read_header fdata lexer k (default 0 (offs !! k)) (fresh 0)) = Ret false.

(** The keys of [P] have had an entry other than [None] since a load
    was tried on them, and those of them that are deferred do not
    load. *)
Definition attempted (fdata : string) (lexer : Z -> option (string * Z * Z))
    (P : key -> Prop) (s : reader) : Prop :=
  forall k, P k ->
    (exists v, indirect_objects s !! k = Some v /\ is_None v = false)
    /\ (k ∈ deferred_objects s -> fails_to_load fdata lexer (obj_offsets s) k).

(** ** Line-oriented recovery of a cross-reference section, as specified

    The scan the specification describes, to compare [xref_recover_lines]
    with: a line of two tokens resets the current object number; a line
    of three tokens is an entry for the current object number, which it
    advances, and it is kept when its flag is [n] and its offset is not
    zero; a line without tokens is skipped; any other line is invalid. *)

Inductive line_kind : Type :=
| Blank
| Subsection (first : Z)
| Entry (offset generation : Z) (inuse : string)
| Invalid.

Definition classify (line : string) : line_kind :=
  match Py.split line with
  | [] => Blank
  | [a; _] => match Py.int a with Some n => Subsection n | None => Invalid end
  | [a; b; c] =>
      match Py.int a, Py.int b with
      | Some o, Some g => Entry o g c
      | _, _ => Invalid
      end
  | _ => Invalid
  end.

Definition kept (offset : Z) (inuse : string) : bool :=
  negb (offset =? 0) && String.eqb inuse "n".

(** The entries kept, in order, or [None] when the scan meets an invalid
    line or an entry before any object number is known. *)
Fixpoint scan (lines : list string) (cur : option Z) : option (list (key * Z)) :=
  match lines with
  | [] => Some []
  | line :: r =>
      match classify line with
      | Blank => scan r cur
      | Subsection n => scan r (Some n)
      | Entry o g c =>
          match cur with
          | None => None
          | Some n =>
              match scan r (Some (n + 1)) with
              | Some es => Some (if kept o c then ((n, g), o) :: es else es)
              | None => None
              end
          end
      | Invalid => None
      end
  end.

(** Insert-if-absent, entry by entry. *)
Definition add_all (es : list (key * Z)) (m : gmap key Z) : gmap key Z :=
  fold_left
    (fun m e => match m !! fst e with Some _ => m | None => <[ fst e := snd e ]> m end)
    es m.

(** ** Dictionaries the parser builds *)

(** No name twice, and no [None] for a value: what assignments through
    [dict_set] keep. *)
Definition dict_ok (d : dict) : Prop :=
  NoDup (map fst d) /\ Forall (fun kv => is_None (snd kv) = false) d.

(** ** The chain of cross-reference sections *)

(** The first of the maps, in order, that binds [k]. *)
Fixpoint first_binding (k : key) (ms : list (gmap key Z)) : option Z :=
  match ms with
  | [] => None
  | m :: r => match m !! k with Some v => Some v | None => first_binding k r end
  end.

(** A section as the loop of [__init__] meets it: the offset map
    [parsexref] filled, the trailer, and the state once the [/Prev] of
    the trailer has been read. *)
Abbreviation section_read := (gmap key Z * value * reader)%type.

Section Chain.
Variable fdata : string.
Variable lexer : Z -> option (string * Z * Z).
Variable resolve : key -> M value.
Variable pfuel : nat.

(** [visits first st secs]: from [st], the loop reads the sections [secs]
    one after the other, each but the last linking to the next by its
    [/Prev]; [first] says that no section has been set aside yet. *)
Inductive visits : bool -> reader -> list section_read -> Prop :=
| visits_last first st d st1 st2 :
    read_section fdata lexer pfuel first st = (Ret d, st1) ->
    getitem resolve d "/Prev" st1 = (Ret PyNone, st2) ->
    visits first st [(obj_offsets st2, d, st2)]
| visits_link first st d st1 prev st2 p rest :
    read_section fdata lexer pfuel first st = (Ret d, st1) ->
    getitem resolve d "/Prev" st1 = (Ret prev, st2) ->
    is_None prev = false ->
    int_value prev st2 = (Ret p, st2) ->
    visits false (set_indirect_objects ∅ (set_floc p st2)) rest ->
    visits first st ((obj_offsets st2, d, st2) :: rest).

(** What the loop hands over after the sections [secs]. *)
Fixpoint loop_result (xref_table_list : list (gmap key Z))
    (original : option (gmap key value * value)) (secs : list section_read)
    : option (chain_state * reader) :=
  match secs with
  | [] => None
  | [(m, d, s)] => Some ((d, xref_table_list, original), s)
  | (m, d, s) :: rest =>
      loop_result (xref_table_list ++ [m])
        (if is_nil xref_table_list then Some (indirect_objects s, del_Prev d)
         else original)
        rest
  end.

End Chain.

(** ** Page trees *)

(** [m] never raises. *)
Definition no_raise {A} (m : M A) : Prop :=
  forall st e st', m st <> (Raise e, st').



(** ** File framing: the checks of [__init__] before the tables are read *)

(** [s.rstrip(chars)] for one byte *)
Fixpoint rstrip_byte (c : ascii) (s : string) : string :=
  match s with
  | EmptyString => EmptyString
  | String a r =>
      let r' := rstrip_byte c r in
      if Py.is_empty r' && Ascii.eqb a c then EmptyString else String a r'
  end.

(** [s.lstrip(chars)] for one byte *)
Fixpoint lstrip_byte (c : ascii) (s : string) : string :=
  match s with
  | String a r => if Ascii.eqb a c then lstrip_byte c r else s
  | EmptyString => EmptyString
  end.

(** [s.strip()] *)
Definition strip (s : string) : string := Py.rstrip (Py.lstrip s).

Definition NUL : ascii := ascii_of_nat 0.

(** Lines 332-349 of [__init__]: the header and the end-of-file mark;
    the value is the buffer the token source is built on,
    [fdata[:endloc]].  The bytes of the buffer that a message quotes
    after its text are left out. *)
Definition check_framing (fdata : string) : M string :=
  (if negb (Py.startswith fdata "%PDF-") then
     let startloc := Py.find fdata "%PDF-" 0 (Py.len fdata) in
     if startloc >=? 0 then log_warning "PDF header not at beginning of file"
     else
       match Py.splitlines (Py.lstrip fdata) with
       | [] => raise (PdfParseError "Empty PDF file!")
       | _ :: _ => raise (PdfParseError "Invalid PDF header")
       end
   else ret tt) ;;;
  let endloc := Py.rfind fdata "%EOF" 0 (Py.len fdata) in
  if endloc <? 0 then raise (PdfParseError "EOF mark not found")
  else
    let endloc := endloc + 6 in
    let junk := Py.slice fdata endloc (Py.len fdata) in
    let fdata := Py.slice fdata 0 endloc in
    when (negb (Py.is_empty (strip (rstrip_byte NUL junk))))
         (log_warning "Extra data at end of file") ;;;
    ret fdata.

(** ** findxref *)

Section FindXref.
Variable fdata : string.

(** The token source [findxref] builds at [startxref] does not strip
    comments; it is a parameter of its own.  [nope] is what
    [next_default()] hands back at the end of input. *)
Variable lexer_raw : Z -> option (string * Z * Z).
Variable nope : string.

(** Modelled from the spec: [source.next_default()], "next() -> token or
    end-of-input" with a default in place of the end of input; the value
    is the token and the offset after it. *)
Definition next_default (p : Z) : string * Z :=
  match lexer_raw p with
  | Some (tok, _, fl) => (tok, fl)
  | None => (nope, p)
  end.

(** [findxref]: the offset of the last [startxref] and the offset of the
    table, at which [__init__] builds the source it reads the tables
    from.  The messages are the source's, without the quotation marks
    around the keyword. *)
Definition findxref : outcome (Z * Z) :=
  let startloc := Py.rfind fdata "startxref" 0 (Py.len fdata) in
  if startloc <? 0 then Raise (PdfParseError "Did not find startxref at end of file")
  else
    let '(tableloc, p) := next_default startloc in
    if negb (Py.isdigit tableloc) then Raise (PdfParseError "Expected table location")
    else
      let '(t, _) := next_default p in
      if negb (String.eqb (lstrip_byte "%" (Py.rstrip t)) "EOF")
      then Raise (PdfParseError "Expected %%EOF")
      else
        match Py.int tableloc with
        | Some n => Ret (startloc, n)
        | None => Raise ValueError
        end.

End FindXref.

(** ** Token runs *)

Section Lexes.
Variable lexer : Z -> option (string * Z * Z).

(** From offset [p] the source yields the tokens [toks] and then stands
    at [q]. *)
Inductive lexes : Z -> list string -> Z -> Prop :=
| lexes_nil p : lexes p [] p
| lexes_cons p tok ts fl toks q :
    lexer p = Some (tok, ts, fl) -> lexes fl toks q -> lexes p (tok :: toks) q.

End Lexes.

(** A token that is an item by itself: no delimiter, no [R]. *)
Definition plain (t : string) : bool :=
  negb (in_close_or_R t) && negb (bool_decide (is_Some (special t))).

Definition tok_value (t : string) : value := PdfObject t None.

(** A dictionary written as name-value pairs of plain tokens. *)
Definition pair_tokens (kv : string * string) : list string := [fst kv; snd kv].

Definition is_name (t : string) : bool := Py.startswith t "/".

(** A pair the dictionary loop stores as it stands: a name, and a value
    that starts no container and is no delimiter. *)
Definition pair_ok (kv : string * string) : Prop :=
  is_name (fst kv) = true /\ special (snd kv) = None.

Definition pairs_dict (pairs : list (string * string)) : dict :=
  fold_left (fun d kv => dict_set d (fst kv) (tok_value (snd kv))) pairs [].

(** ** A cross-reference section in the strict format *)

(** An entry line: the offset, generation and flag tokens. *)
Abbreviation xref_line := (string * string * string)%type.

(** A subsection: the tokens of its first object number and of its
    count, and its lines. *)
Abbreviation xref_subsection := (string * string * list xref_line)%type.

Definition line_tokens (l : xref_line) : list string :=
  [fst (fst l); snd (fst l); snd l].

Definition subsection_tokens (s : xref_subsection) : list string :=
  (fst (fst s) :: snd (fst s) :: flat_map line_tokens (snd s))%list.

Definition section_tokens (subs : list xref_subsection) : list string :=
  (flat_map subsection_tokens subs ++ ["trailer"])%list.

(** The entries of the lines, numbered from [n], that are in use and
    have an offset; [None] when a line is not well formed. *)
Fixpoint line_entries (n : Z) (ls : list xref_line) : option (list (key * Z)) :=
  match ls with
  | [] => Some []
  | (o, g, f) :: r =>
      match Py.int o, Py.int g, line_entries (n + 1) r with
      | Some off, Some gen, Some es =>
          if String.eqb f "n" then
            Some (if off =? 0 then es else ((n, gen), off) :: es)
          else if String.eqb f "f" then Some es
          else None
      | _, _, _ => None
      end
  end.

(** The entries of a section whose subsections have the count they
    declare. *)
Fixpoint section_entries (subs : list xref_subsection) : option (list (key * Z)) :=
  match subs with
  | [] => Some []
  | (first, count, ls) :: r =>
      if String.eqb first "trailer" then None
      else
        match Py.int first, Py.int count with
        | Some n, Some c =>
            if c =? Z.of_nat (length ls) then
              match line_entries n ls, section_entries r with
              | Some es, Some es' => Some (es ++ es')%list
              | _, _ => None
              end
            else None
        | _, _ => None
        end
  end.

(** The loader after a section with the entries [es] that ends at [q]:
    the entries are added where the key had no offset, every offset is
    recorded, and the section changed nothing else but the source. *)
Definition section_added (es : list (key * Z)) (q : Z) (st st' : reader) : Prop :=
  obj_offsets st' = add_all es (obj_offsets st)
  /\ all_offsets st' = (all_offsets st ++ map snd es)%list
  /\ floc st' = q
  /\ log st' = log st
  /\ indirect_objects st' = indirect_objects st
  /\ deferred_objects st' = deferred_objects st
  /\ entries st' = entries st.

(** ** Page trees of loaded objects *)

(** [v] stands for [v'] in a loader with the table [t]: itself, or a
    placeholder whose key the table binds to [v']. *)
Definition stands_for (t : gmap key value) (v v' : value) : Prop :=
  match v with
  | PdfIndirect k => t !! k = Some v' /\ is_PdfIndirect v' = false
  | _ => v' = v
  end.

(** [page_tree t h node ps]: [node] is a page, or a [/Pages] node whose
    kids are page trees, of height at most [h]; [ps] are its pages from
    left to right. *)
Inductive page_tree (t : gmap key value) : nat -> value -> list value -> Prop :=
| page_leaf h d i s ty ti :
    dict_get d "/Type" = Some ty -> stands_for t ty (PdfObject "/Page" ti) ->
    page_tree t (S h) (PdfDict d i s) [PdfDict d i s]
| page_node h d i s ty ti kv kids ki ps :
    dict_get d "/Type" = Some ty -> stands_for t ty (PdfObject "/Pages" ti) ->
    dict_get d "/Kids" = Some kv -> stands_for t kv (PdfArray kids ki) ->
    page_forest t h kids ps ->
    page_tree t (S h) (PdfDict d i s) ps
with page_forest (t : gmap key value) : nat -> list value -> list value -> Prop :=
| forest_nil h : page_forest t h [] []
| forest_cons h kid node ps kids qs :
    stands_for t kid node -> page_tree t h node ps ->
    page_forest t h kids qs ->
    page_forest t h (kid :: kids) (ps ++ qs)%list.

(** ** What parsing may do *)

(** Parsing registers placeholders and nothing else: it logs nothing,
    no key leaves the deferred set, no entry other than [None] changes,
    and the offsets stay. *)
Definition parses (st st' : reader) : Prop :=
  log st' = log st
  /\ deferred_objects st ⊆ deferred_objects st'
  /\ (forall k v, indirect_objects st !! k = Some v -> is_None v = false ->
        indirect_objects st' !! k = Some v)
  /\ obj_offsets st' = obj_offsets st.

(** What reading a cross-reference section may do: offsets are added,
    never replaced; the table and the deferred set stay. *)
Definition adds_offsets (st st' : reader) : Prop :=
  (forall k v, obj_offsets st !! k = Some v -> obj_offsets st' !! k = Some v)
  /\ (exists l, all_offsets st' = (all_offsets st ++ l)%list)
  /\ indirect_objects st' = indirect_objects st
  /\ deferred_objects st' = deferred_objects st.

(** The [indirect] tag of a value. *)
Definition tag_of (v : value) : option key :=
  match v with
  | PdfObject _ i | PdfArray _ i | PdfDict _ i _ => i
  | _ => None
  end.
(** * Facts *)

(** ** Byte strings *)

Lemma len_nonneg s : 0 <= Py.len s.
Proof. unfold Py.len. lia. Qed.

Lemma length_drop n s : String.length (Py.drop n s) = (String.length s - n)%nat.
Proof.
  revert s. induction n as [|n IH]; intros [|c r]; simpl; try lia.
  apply IH.
Qed.

Lemma length_take n s : String.length (Py.take n s) = Nat.min n (String.length s).
Proof.
  revert s. induction n as [|n IH]; intros [|c r]; simpl; try lia.
  rewrite IH. reflexivity.
Qed.

Lemma adjust_inside n i : 0 <= i <= n -> Py.adjust n i = i.
Proof.
  intros H. unfold Py.adjust.
  destruct (Z.ltb_spec i 0); lia.
Qed.

Lemma adjust_range n i : 0 <= n -> 0 <= Py.adjust n i <= n.
Proof.
  intros H. unfold Py.adjust.
  destruct (Z.ltb_spec i 0); lia.
Qed.

(** A slice inside the buffer is the bytes [i], ..., [j-1]. *)
Lemma slice_inside s i j :
  0 <= i -> i <= j -> j <= Py.len s ->
  Py.slice s i j = Py.take (Z.to_nat (j - i)) (Py.drop (Z.to_nat i) s)
  /\ Py.len (Py.slice s i j) = j - i.
Proof.
  intros Hi Hij Hj. unfold Py.slice.
  rewrite !adjust_inside by lia. split; [reflexivity|].
  unfold Py.len in *. rewrite length_take, length_drop. lia.
Qed.

Lemma len_slice_le s i j :
  Py.len (Py.slice s i j) <= Z.max 0 (Py.adjust (Py.len s) j - Py.adjust (Py.len s) i).
Proof.
  unfold Py.slice, Py.len. rewrite length_take. lia.
Qed.

Lemma find_up_range sub s i k r :
  Py.find_up sub s i k = r -> r = -1 \/ (i <= r < i + Z.of_nat k).
Proof.
  revert i. induction k as [|k IH]; intros i; simpl.
  - intros <-. now left.
  - destruct (String.prefix sub (Py.drop (Z.to_nat i) s)).
    + intros <-. right. lia.
    + intros H. apply IH in H. destruct H as [H|H]; [now left|right; lia].
Qed.

(** Where [find] finds [sub], the occurrence lies inside the window. *)
Lemma find_range s sub start stop r :
  Py.find s sub start stop = r -> 0 <= r ->
  Py.adjust (Py.len s) start <= r
  /\ r + Py.len sub <= Py.adjust (Py.len s) stop.
Proof.
  unfold Py.find. intros H Hr.
  apply find_up_range in H. destruct H as [H|H]; [lia|].
  destruct (Z.le_gt_cases 0 (Py.adjust (Py.len s) stop - Py.len sub
                              - Py.adjust (Py.len s) start + 1)) as [Hk|Hk].
  - rewrite Z2Nat.id in H by lia. lia.
  - replace (Z.to_nat _) with O in H by lia. simpl in H. lia.
Qed.

Example slice_mid : Py.slice "0123456789" 2 5 = "234".
Proof. reflexivity. Qed.
Example slice_neg : Py.slice "0123456789" (-3) 20 = "789".
Proof. reflexivity. Qed.
Example find_bounds : Py.find "xxendstreamxx" "endstream" 0 11 = 2
  /\ Py.find "xxendstreamxx" "endstream" 0 10 = -1
  /\ Py.find "xxendstreamxx" "endstream" 3 13 = -1.
Proof. repeat split; reflexivity. Qed.
Example rfind_last : Py.rfind "trailer trailer" "trailer" 0 15 = 8.
Proof. reflexivity. Qed.
Example split_ws : Py.split "  10 0   n " = ["10"; "0"; "n"].
Proof. reflexivity. Qed.
Example int_ok : Py.int "0000000010" = Some 10 /\ Py.int "-5" = Some (-5)
  /\ Py.int "x" = None /\ Py.int "" = None.
Proof. repeat split; reflexivity. Qed.
Example str_ok : Py.str 12 = "12" /\ Py.str 0 = "0".
Proof. split; reflexivity. Qed.

(** ** Stepping through loader code *)

Ltac mred :=
  cbv beta iota zeta delta
    [bind ret raise diverge gets modify seek when lift_option int_value
     int_tok log_warning log_error warning error exception try_except
     store getitem resolved].

(** The same, with the accesses to the object model left folded. *)
Ltac mred0 :=
  cbv beta iota zeta delta
    [bind ret raise diverge gets modify seek when lift_option
     int_tok log_warning log_error warning error exception try_except store].

(** ** Streams *)

Section StreamFacts.
Variable fdata : string.
Variable lexer : Z -> option (string * Z * Z).

Lemma multiple_log n st l st' :
  multiple lexer n st = (Ret l, st') -> log st' = log st.
Proof.
  revert st l st'. induction n as [|n IH]; intros st l st'; simpl.
  - intros [= _ <-]. reflexivity.
  - destruct (lexer (floc st)) as [[[tok ts] fl]|]; [| intros [= _ <-]; reflexivity].
    unfold bind.
    destruct (multiple lexer n _) as [[l0| |] st0] eqn:E; try discriminate.
    intros [= _ <-]. apply IH in E. exact E.
Qed.

Lemma multiple_returns n st : exists l st', multiple lexer n st = (Ret l, st').
Proof.
  revert st. induction n as [|n IH]; intros st; simpl.
  - eauto.
  - destruct (lexer (floc st)) as [[[tok ts] fl]|]; [|eauto].
    unfold bind. destruct (IH (set_floc fl (set_tokstart ts st))) as (l & st' & ->).
    eauto.
Qed.

(** C4. A stream whose [/Length] is a correct integer: the two tokens at
    the declared end of the payload are [endstream] and [endobj].  Then
    [readstream] stores exactly the [Length] bytes that start at the
    payload start, and logs nothing and raises nothing. *)
Theorem readstream_correct_length
    (resolve : key -> M value) (items : dict) (ind : option key)
    (old : option string) (ltok : string) (li : option key)
    (length startstream : Z) (st st' : reader) :
  dict_get items "/Length" = Some (PdfObject ltok li) ->
  Py.int ltok = Some length ->
  0 <= startstream -> 0 <= length ->
  startstream + length <= Py.len fdata ->
  multiple lexer 2 (set_floc (startstream + length) st) = (Ret streamending, st') ->
  let payload := Py.take (Z.to_nat length) (Py.drop (Z.to_nat startstream) fdata) in
  readstream fdata lexer resolve (PdfDict items ind old) startstream st
    = (Ret (PdfDict items ind (Some payload)), st')
  /\ Py.len payload = length
  /\ log st' = log st.
Proof.
  intros HL Hint Hs Hl Hle Hend payload.
  destruct (slice_inside fdata startstream (startstream + length)) as [Hsl Hlen];
    try lia.
  replace (startstream + length - startstream) with length in * by lia.
  fold payload in Hsl. rewrite Hsl in Hlen.
  split; [|split; [exact Hlen|]].
  - unfold readstream. mred. rewrite HL. mred. rewrite Hint. mred.
    rewrite Hend. unfold tokens_eqb.
    rewrite bool_decide_eq_true_2 by reflexivity.
    rewrite Hsl. reflexivity.
  - apply multiple_log in Hend. exact Hend.
Qed.


Lemma crlf_before s p :
  0 <= p -> Py.slice s (p - 2) p = CRLF -> 2 <= p <= Py.len s.
Proof.
  intros Hp H.
  pose proof (len_slice_le s (p - 2) p) as Hle.
  rewrite H in Hle. change (Py.len CRLF) with 2 in Hle.
  pose proof (len_nonneg s) as Hn.
  unfold Py.adjust in Hle.
  destruct (Z.ltb_spec (p - 2) 0), (Z.ltb_spec p 0); lia.
Qed.

(** C5, as the code has it.  [/Length] is one more than the distance to
    the next literal [endstream] and the two bytes before the payload
    start are CR LF:
    [readstream] takes the window one byte earlier, of exactly [Length]
    bytes, logs exactly one warning and raises nothing. *)
Theorem readstream_shift_recovery
    (resolve : key -> M value) (items : dict) (ind : option key)
    (old : option string) (ltok : string) (li : option key)
    (length startstream : Z) (endit : list string) (st st1 : reader) :
  dict_get items "/Length" = Some (PdfObject ltok li) ->
  Py.int ltok = Some length ->
  0 <= startstream ->
  multiple lexer 2 (set_floc (startstream + length) st) = (Ret endit, st1) ->
  endit <> streamending ->
  let endstream := Py.find fdata "endstream" startstream (Py.len fdata - 20) in
  0 <= endstream ->
  length = endstream - startstream + 1 ->
  Py.slice fdata (startstream - 2) startstream = CRLF ->
  let payload :=
    Py.take (Z.to_nat length) (Py.drop (Z.to_nat (startstream - 1)) fdata) in
  let st2 :=
    set_log (log st ++ [(Warning, "stream keyword terminated by CR without LF")])
      (set_floc startstream (set_warned_bad_stream_end false st1)) in
  readstream fdata lexer resolve (PdfDict items ind old) startstream st
    = (Ret (PdfDict items ind (Some payload)), st2)
  /\ Py.len payload = length.
Proof.
  intros HL Hint Hs Hend Hne endstream He Hlen Hcr payload st2.
  pose proof (crlf_before _ _ Hs Hcr) as [Hs2 Hsn].
  destruct (find_range fdata "endstream" startstream (Py.len fdata - 20)
              endstream eq_refl He) as [Hlo Hhi].
  pose proof (len_nonneg fdata) as Hn.
  pose proof (adjust_range (Py.len fdata) (Py.len fdata - 20) Hn) as Hadj.
  rewrite adjust_inside in Hlo by lia.
  change (Py.len "endstream") with 9 in Hhi.
  destruct (slice_inside fdata (startstream - 1) (startstream + length - 1))
    as [Hsl Hpl]; try lia.
  replace (startstream + length - 1 - (startstream - 1)) with length in * by lia.
  fold payload in Hsl. rewrite Hsl in Hpl.
  split; [|exact Hpl].
  unfold readstream. mred. rewrite HL. mred. rewrite Hint. mred.
  rewrite Hend. unfold tokens_eqb.
  rewrite bool_decide_eq_false_2 by exact Hne.
  fold endstream.
  destruct (Z.ltb_spec endstream 0) as [?|_]; [lia|].
  rewrite (proj2 (Z.eqb_eq _ _) Hlen), Hcr.
  change (String.eqb CRLF CRLF) with true. cbn [andb].
  rewrite Hsl.
  apply (multiple_log _ _ _ _) in Hend. cbn in Hend.
  unfold st2. rewrite <- Hend. reflexivity.
Qed.

(** C6, as the code has it.  [/Length] exceeds the distance to the next
    literal [endstream] (and the one-byte shift does not apply): the
    error is recorded in the log and nothing is raised; the payload
    becomes the shorter run of bytes up to the [endstream] found. *)
Theorem readstream_length_too_big
    (resolve : key -> M value) (items : dict) (ind : option key)
    (old : option string) (ltok : string) (li : option key)
    (length startstream : Z) (endit : list string) (st st1 : reader) :
  dict_get items "/Length" = Some (PdfObject ltok li) ->
  Py.int ltok = Some length ->
  0 <= startstream ->
  multiple lexer 2 (set_floc (startstream + length) st) = (Ret endit, st1) ->
  endit <> streamending ->
  let endstream := Py.find fdata "endstream" startstream (Py.len fdata - 20) in
  0 <= endstream ->
  ((length =? endstream - startstream + 1)
   && String.eqb (Py.slice fdata (startstream - 2) startstream) CRLF) = false ->
  length > endstream - startstream ->
  let payload :=
    Py.take (Z.to_nat (endstream - startstream))
      (Py.drop (Z.to_nat startstream) fdata) in
  let st2 :=
    set_log (log st ++ [(Error, "stream /Length attribute appears to be too big -- adjusting")])
      (set_floc endstream (set_floc startstream
         (set_warned_bad_stream_end false st1))) in
  readstream fdata lexer resolve (PdfDict items ind old) startstream st
    = (Ret (PdfDict items ind (Some payload)), st2)
  /\ Py.len payload = endstream - startstream
  /\ Py.len payload < length.
Proof.
  intros HL Hint Hs Hend Hne endstream He Hshift Hbig payload st2.
  destruct (find_range fdata "endstream" startstream (Py.len fdata - 20)
              endstream eq_refl He) as [Hlo Hhi].
  pose proof (len_nonneg fdata) as Hn.
  pose proof (adjust_range (Py.len fdata) (Py.len fdata - 20) Hn) as Hadj.
  change (Py.len "endstream") with 9 in Hhi.
  assert (Hsn : startstream <= Py.len fdata).
  { unfold Py.adjust in Hlo. destruct (Z.ltb_spec startstream 0); lia. }
  rewrite adjust_inside in Hlo by lia.
  destruct (slice_inside fdata startstream endstream) as [Hsl Hpl]; try lia.
  fold payload in Hsl. rewrite Hsl in Hpl.
  split; [|split; [exact Hpl|lia]].
  unfold readstream. mred. rewrite HL. mred. rewrite Hint. mred.
  rewrite Hend. unfold tokens_eqb.
  rewrite bool_decide_eq_false_2 by exact Hne.
  fold endstream.
  destruct (Z.ltb_spec endstream 0) as [?|_]; [lia|].
  rewrite Hshift.
  destruct (Z.gtb_spec length (endstream - startstream)) as [_|?]; [|lia].
  rewrite Hsl.
  apply (multiple_log _ _ _ _) in Hend. cbn in Hend.
  unfold st2. rewrite <- Hend. reflexivity.
Qed.

End StreamFacts.

(** *** The stream theorems at sample files *)

Lemma readstream_correct_length_witness :
  exists st',
    readstream stream_ok (ws_lexer stream_ok) no_resolve
      (PdfDict [("/Length", PdfObject "5" None)] (Some (1, 0)) None) 32 (fresh 0)
    = (Ret (PdfDict [("/Length", PdfObject "5" None)] (Some (1, 0)) (Some "hello")), st')
    /\ log st' = [].
Proof.
  eexists.
  pose proof (readstream_correct_length stream_ok (ws_lexer stream_ok) no_resolve
           [("/Length", PdfObject "5" None)] (Some (1, 0)) None "5" None 5 32
           (fresh 0) _ eq_refl eq_refl ltac:(lia) ltac:(lia)
           ltac:(vm_compute; discriminate) eq_refl) as H.
  cbv zeta in H. destruct H as (H1 & _ & H3).
  split; [exact H1 | exact H3].
Defined.

Lemma readstream_shift_recovery_witness :
  exists st2,
    readstream stream_crlf (ws_lexer stream_crlf) no_resolve
      (PdfDict [("/Length", PdfObject "6" None)] None None) 8 (fresh 0)
    = (Ret (PdfDict [("/Length", PdfObject "6" None)] None
              (Some (String Py.LF "hello"))), st2)
    /\ log st2 = [(Warning, "stream keyword terminated by CR without LF")].
Proof.
  eexists.
  pose proof (readstream_shift_recovery stream_crlf (ws_lexer stream_crlf) no_resolve
           [("/Length", PdfObject "6" None)] None None "6" None 6 8
           _ (fresh 0) _ eq_refl eq_refl ltac:(lia) eq_refl
           ltac:(vm_compute; discriminate) ltac:(vm_compute; discriminate)
           eq_refl eq_refl) as H.
  cbv zeta in H. destruct H as (H1 & _).
  split; [exact H1 | reflexivity].
Defined.

Lemma readstream_length_too_big_witness :
  exists st2,
    readstream stream_too_big (ws_lexer stream_too_big) no_resolve
      (PdfDict [("/Length", PdfObject "50" None)] (Some (1, 0)) None) 33 (fresh 0)
    = (Ret (PdfDict [("/Length", PdfObject "50" None)] (Some (1, 0))
              (Some (String.append "hello" (String Py.LF EmptyString)))), st2)
    /\ log st2 = [(Error, "stream /Length attribute appears to be too big -- adjusting")].
Proof.
  eexists.
  pose proof (readstream_length_too_big stream_too_big (ws_lexer stream_too_big) no_resolve
           [("/Length", PdfObject "50" None)] (Some (1, 0)) None "50" None 50 33
           _ (fresh 0) _ eq_refl eq_refl ltac:(lia) eq_refl
           ltac:(vm_compute; discriminate) ltac:(vm_compute; discriminate)
           eq_refl eq_refl) as H.
  cbv zeta in H. destruct H as (H1 & _).
  split; [exact H1 | reflexivity].
Defined.

(** C6 as stated fails: object 1 of [stream_too_big] declares fifty
    bytes where six precede [endstream]; loading it returns the object
    with the six bytes, and the only trace is an error in the log. *)
Lemma length_too_big_is_not_fatal :
  let r := loadindirect stream_too_big (ws_lexer stream_too_big) 20 (1, 0) one_deferred in
  Py.find stream_too_big "endstream" 33 (Py.len stream_too_big - 20) - 33 = 6
  /\ fst r = Ret (PdfDict [("/Length", PdfObject "50" None)] (Some (1, 0))
                    (Some (String.append "hello" (String Py.LF EmptyString))))
  /\ log (snd r) = [(Error, "stream /Length attribute appears to be too big -- adjusting")].
Proof. vm_compute. repeat split. Qed.

(** C5 as stated fails: in [stream_gap_longer] the two bytes before the
    payload are CR LF and the distance to the next [endstream] is
    [/Length] plus one, the condition as the specification has it; the
    window is not moved, the payload is the five bytes from the payload
    start, and what is logged is an error, not the warning. *)
Lemma shift_needs_length_one_more_than_gap :
  let obj := PdfDict [("/Length", PdfObject "5" None)] None None in
  let r := readstream stream_gap_longer (ws_lexer stream_gap_longer) no_resolve
             obj 8 (fresh 0) in
  Py.find stream_gap_longer "endstream" 8 (Py.len stream_gap_longer - 20) - 8 = 5 + 1
  /\ Py.slice stream_gap_longer 6 8 = CRLF
  /\ fst r = Ret (PdfDict [("/Length", PdfObject "5" None)] None (Some "hello"))
  /\ Py.slice stream_gap_longer 8 13 = "hello"
  /\ log (snd r)
     = [(Error, "stream /Length attribute might be smaller than data size")].
Proof. vm_compute. repeat split. Qed.

(** ** Empty objects *)

Section EmptyObject.
Variable fdata : string.
Variable lexer : Z -> option (string * Z * Z).

Lemma loadindirect_unfold fuel k :
  loadindirect fdata lexer fuel k
  = loadindirect_with fdata lexer
      (fun k' => match fuel with O => diverge | S f => loadindirect fdata lexer f k' end)
      fuel k.
Proof. destruct fuel; reflexivity. Qed.

(** An array that meets [endobj]: [empty_obj] moves the source back to
    the start of the token, the loop reads it again, and so on. *)
Lemma readarray_endobj_diverges (p q : Z) :
  lexer p = Some ("endobj", p, q) ->
  forall fuel result st,
    lexer (floc st) = Some ("endobj", p, q) ->
    fst (readarray_loop lexer fuel result st) = Diverge.
Proof.
  intros Hp fuel. induction fuel as [|fuel IH]; intros result st Hst.
  - reflexivity.
  - cbn [readarray_loop]. rewrite Hst.
    change (in_close_or_R "endobj") with false.
    change (special "endobj") with (Some Sempty_obj).
    cbn [call_special]. unfold empty_obj. mred.
    apply IH. exact Hp.
Qed.

Lemma loadindirect_open_array_diverges
    (resolve : key -> M value) (fuel : nat) (k k' : key) (offset p p' q ts : Z)
    (objid : list string) (st st1 : reader) :
  indirect_objects st !! k = Some (PdfIndirect k') ->
  obj_offsets st !! k = Some offset ->
  offset <> 0 ->
  multiple lexer 3 (set_floc offset st) = (Ret objid, st1) ->
  header_ok k objid = true ->
  lexer (floc st1) = Some ("[", ts, p) ->
  lexer p = Some ("endobj", p', q) ->
  lexer p' = Some ("endobj", p', q) ->
  fst (loadindirect_with fdata lexer resolve fuel k st) = Diverge.
Proof.
  intros Ht Ho Hne Hm Hok Hb He He'.
  unfold loadindirect_with. mred. rewrite Ht, Ho. unfold default, id.
  destruct (Z.eqb_spec offset 0) as [?|_]; [contradiction|].
  unfold read_header. mred.
  rewrite Hm, Hok. cbn [negb]. unfold read_object, next. mred. rewrite Hb.
  change (special "[") with (Some Sreadarray).
  unfold run_special, readarray. cbn [call_special].
  pose proof (readarray_endobj_diverges p' q He' fuel []
                (set_floc p (set_tokstart ts st1)) He) as H.
  destruct (readarray_loop lexer fuel [] _) as [[?| |] ?]; try discriminate H.
  reflexivity.
Qed.

End EmptyObject.

(** C7, at the file [empty_object].  The source is moved back to the
    [endobj] (offset 9) and the table entry of the key is replaced, but
    the value stored is [None], and tagging it raises AttributeError:
    [loadindirect] does not return. *)
Theorem empty_object_raises (fuel : nat) :
  loadindirect empty_object (ws_lexer empty_object) fuel (1, 0) one_deferred
  = (Raise AttributeError,
     set_deferred_objects ∅
       (set_indirect_objects {[ (1, 0) := PyNone ]}
          (set_floc 9 (set_tokstart 9 one_deferred)))).
Proof.
  rewrite loadindirect_unfold.
  vm_compute. reflexivity.
Qed.

(** C10, at the file [open_array]: whatever the fuel, [read_all] does not
    come back from loading object 1. *)
Theorem read_all_open_array_diverges (fuel : nat) :
  fst (read_all open_array (ws_lexer open_array) fuel one_deferred) = Diverge.
Proof.
  destruct fuel as [|fuel]; [reflexivity|].
  unfold read_all. cbn [read_all_loop]. mred.
  change (deferred_objects one_deferred) with ({[ (1, 0) ]} : gset key).
  rewrite difference_empty_L.
  rewrite bool_decide_eq_false_2 by apply non_empty_singleton_L.
  rewrite elements_singleton. cbn [load_each]. mred.
  rewrite loadindirect_unfold.
  pose proof (loadindirect_open_array_diverges open_array (ws_lexer open_array)
    (fun k' => loadindirect open_array (ws_lexer open_array) fuel k') (S fuel)
    (1, 0) (1, 0) 1 10 11 17 9 ["1"; "0"; "obj"] one_deferred
    (set_floc 8 (set_tokstart 5 one_deferred))
    eq_refl eq_refl ltac:(lia) eq_refl eq_refl eq_refl eq_refl eq_refl) as H.
  destruct (loadindirect_with _ _ _ _ _ _) as [[?| |] ?]; try discriminate H.
  reflexivity.
Qed.

(** ** Runs and relations on states *)

Section Respects.
Variable R : reader -> reader -> Prop.
Hypothesis R_refl : forall st, R st st.
Hypothesis R_trans : forall a b c, R a b -> R b c -> R a c.

Lemma respects_ret {A} (a : A) : respects R (ret a).
Proof. intros st o st' [= _ <-]. apply R_refl. Qed.

Lemma respects_raise {A} e : respects R (@raise A e).
Proof. intros st o st' [= _ <-]. apply R_refl. Qed.

Lemma respects_diverge {A} : respects R (@diverge A).
Proof. intros st o st' [= _ <-]. apply R_refl. Qed.

Lemma respects_gets {A} (f : reader -> A) : respects R (gets f).
Proof. intros st o st' [= _ <-]. apply R_refl. Qed.

Lemma respects_modify f : (forall st, R st (f st)) -> respects R (modify f).
Proof. intros H st o st' [= _ <-]. apply H. Qed.

Lemma respects_bind {A B} (m : M A) (k : A -> M B) :
  respects R m -> (forall a, respects R (k a)) -> respects R (bind m k).
Proof.
  intros Hm Hk st o st'. unfold bind.
  destruct (m st) as [[a|e|] st1] eqn:E.
  - intros H. eapply R_trans; [eapply Hm, E | eapply Hk, H].
  - intros [= _ <-]. eapply Hm, E.
  - intros [= _ <-]. eapply Hm, E.
Qed.

Lemma respects_try_except {A} (m : M A) h :
  respects R m -> (forall e, respects R (h e)) -> respects R (try_except m h).
Proof.
  intros Hm Hh st o st'. unfold try_except.
  destruct (m st) as [[a|e|] st1] eqn:E.
  - intros [= _ <-]. eapply Hm, E.
  - intros H. eapply R_trans; [eapply Hm, E | eapply Hh, H].
  - intros [= _ <-]. eapply Hm, E.
Qed.

Lemma respects_when b m : respects R m -> respects R (when b m).
Proof. intros H. destruct b; [exact H | apply respects_ret]. Qed.

Lemma respects_lift_option {A} e (o : option A) : respects R (lift_option e o).
Proof. destruct o; [apply respects_ret | apply respects_raise]. Qed.

End Respects.

(** ** The table and the deferred set under parsing *)

Lemma keeps_refl st : keeps st st.
Proof. split; [|split]; auto. Qed.

Lemma keeps_trans a b c : keeps a b -> keeps b c -> keeps a c.
Proof.
  intros (H1 & H2 & H3) (H1' & H2' & H3'). split; [|split]; auto.
  congruence.
Qed.

Lemma loads_refl st : loads st st.
Proof. split; [|split]; auto. Qed.

Lemma loads_trans a b c : loads a b -> loads b c -> loads a c.
Proof.
  intros (H1 & H2 & H3) (H1' & H2' & H3'). split; [|split]; auto.
  congruence.
Qed.

Lemma keeps_loads a b : keeps a b -> loads a b.
Proof. intros (H1 & H2 & H3). split; [|split]; auto. Qed.

(** A step that leaves the table, the deferred set and the offsets alone. *)
Lemma keeps_frame st st' :
  indirect_objects st' = indirect_objects st ->
  deferred_objects st' = deferred_objects st ->
  obj_offsets st' = obj_offsets st ->
  keeps st st'.
Proof.
  intros Ht Hd Ho. split; [|split]; auto.
  - unfold consistent, unresolved. rewrite Ht, Hd. auto.
  - rewrite Ht. auto.
Qed.

(** One step through loader code, for a relation and the proofs that it
    is a preorder. *)
Ltac respects_with Hrefl Htrans :=
  first
    [ apply (respects_ret _ Hrefl) | apply (respects_raise _ Hrefl)
    | apply (respects_diverge _ Hrefl) | apply (respects_gets _ Hrefl)
    | apply (respects_lift_option _ Hrefl)
    | apply (respects_when _ Hrefl)
    | apply (respects_bind _ Htrans); [|intro]
    | apply (respects_try_except _ Htrans); [|intro] ].

Ltac kstep := respects_with keeps_refl keeps_trans.
Ltac lstep := respects_with loads_refl loads_trans.

Section Parsing.
Variable fdata : string.
Variable lexer : Z -> option (string * Z * Z).

Lemma keeps_next : respects keeps (next lexer).
Proof.
  intros st o st'. unfold next.
  destruct (lexer (floc st)) as [[[tok ts] fl]|]; intros [= _ <-].
  - apply keeps_frame; reflexivity.
  - apply keeps_refl.
Qed.

Lemma keeps_multiple n : respects keeps (multiple lexer n).
Proof.
  induction n as [|n IH]; intros st o st'; simpl.
  - intros [= _ <-]. apply keeps_refl.
  - destruct (lexer (floc st)) as [[[tok ts] fl]|].
    + intros H. eapply keeps_trans; [apply keeps_frame; reflexivity|].
      revert H. apply (respects_bind _ keeps_trans); [exact IH|].
      intros a. kstep.
    + intros [= _ <-]. apply keeps_refl.
Qed.

Lemma keeps_seek p : respects keeps (seek p).
Proof. apply respects_modify. intros st. apply keeps_frame; reflexivity. Qed.

Lemma keeps_log_warning msg : respects keeps (log_warning msg).
Proof. apply respects_modify. intros st. apply keeps_frame; reflexivity. Qed.

Lemma keeps_log_error msg : respects keeps (log_error msg).
Proof. apply respects_modify. intros st. apply keeps_frame; reflexivity. Qed.

Lemma keeps_int_value v : respects keeps (int_value v).
Proof. destruct v; kstep. Qed.

Lemma keeps_pop l : respects keeps (pop l).
Proof.
  unfold pop. destruct (rev l); kstep.
Qed.

(** A new placeholder, and its key deferred. *)
Lemma keeps_placeholder st k :
  (indirect_objects st !! k = None \/ indirect_objects st !! k = Some PyNone) ->
  keeps st
    (set_deferred_objects ({[ k ]} ∪ deferred_objects st)
       (set_indirect_objects (<[ k := PdfIndirect k ]> (indirect_objects st)) st)).
Proof.
  intros Hk. split; [|split]; cbn; [| |reflexivity].
  - intros Hc k0. unfold unresolved. cbn.
    destruct (decide (k0 = k)) as [->|Hne].
    + rewrite lookup_insert_eq. split; [eauto|].
      intros _. apply elem_of_union_l, elem_of_singleton. reflexivity.
    + rewrite lookup_insert_ne by congruence.
      rewrite elem_of_union, elem_of_singleton. split.
      * intros [?|H]; [contradiction|]. apply Hc, H.
      * intros H. right. apply Hc, H.
  - intros k0 v Hv Hn. rewrite lookup_insert_ne; [exact Hv|].
    intros <-. destruct Hk as [Hk|Hk]; rewrite Hk in Hv; [discriminate|].
    injection Hv as Hv. subst v. discriminate.
Qed.

Lemma keeps_findindirect a b : respects keeps (findindirect a b).
Proof.
  unfold findindirect.
  kstep; [apply keeps_int_value|rename a0 into n].
  kstep; [apply keeps_int_value|rename a0 into g].
  intros st o st'. mred.
  destruct (indirect_objects st !! (n, g)) as [v|] eqn:E.
  - destruct v; cbn [is_None]; intros [= _ <-]; try apply keeps_refl.
    apply keeps_placeholder. now right.
  - intros [= _ <-]. apply keeps_placeholder. now left.
Qed.

Lemma keeps_empty_obj : respects keeps empty_obj.
Proof.
  unfold empty_obj. kstep; [kstep|]. kstep; [apply keeps_seek|kstep].
Qed.

Lemma keeps_badtoken : respects keeps badtoken.
Proof. unfold badtoken, exception. kstep. Qed.

Lemma keeps_call_special rd ra f :
  respects keeps rd -> respects keeps ra ->
  respects keeps (call_special rd ra f).
Proof.
  intros Hd Ha. destruct f; cbn [call_special]; auto.
  - apply keeps_empty_obj.
  - apply keeps_badtoken.
Qed.

Lemma keeps_containers fuel :
  (forall result, respects keeps (readarray_loop lexer fuel result))
  /\ (forall result tok, respects keeps (readdict_loop lexer fuel result tok)).
Proof.
  induction fuel as [|fuel [IHa IHd]]; split; intros; cbn [readarray_loop readdict_loop];
    try kstep.
  - (* readarray *)
    intros st o st'.
    destruct (lexer (floc st)) as [[[v ts] fl]|]; [|intros [= _ <-]; apply keeps_refl].
    intros H. eapply keeps_trans; [apply keeps_frame; reflexivity|].
    cut (respects keeps
      (if in_close_or_R v
       then if String.eqb v "]" then ret (PdfArray result None)
            else p1 <- pop result;; p2 <- pop (snd p1);;
                 r <- findindirect (fst p2) (fst p1);;
                 readarray_loop lexer fuel (snd p2 ++ [r])
       else match special v with
            | Some f =>
                r <- call_special
                       (tok <- next lexer;; readdict_loop lexer fuel [] tok)
                       (readarray_loop lexer fuel []) f;;
                readarray_loop lexer fuel (result ++ [r])
            | None => readarray_loop lexer fuel (result ++ [PdfObject v None])
            end)); [intros Hbody; exact (Hbody _ _ _ H)|].
    clear H.
    destruct (in_close_or_R v).
    + destruct (String.eqb v "]"); [kstep|].
      kstep; [apply keeps_pop|]. kstep; [apply keeps_pop|].
      kstep; [apply keeps_findindirect|]. apply IHa.
    + destruct (special v); [|apply IHa].
      kstep; [|apply IHa].
      apply keeps_call_special; [|apply IHa].
      kstep; [apply keeps_next|apply IHd].
  - (* readdict *)
    destruct (String.eqb tok ">>"); [kstep|].
    kstep; [kstep; unfold exception; kstep|].
    kstep; [apply keeps_next|].
    destruct (special a0).
    + kstep.
      * apply keeps_call_special; [|apply IHa].
        kstep; [apply keeps_next|apply IHd].
      * kstep; [apply keeps_next|apply IHd].
    + kstep; [apply keeps_next|].
      destruct (Py.isdigit a0 && Py.isdigit a1); [|apply IHd].
      kstep; [apply keeps_next|].
      kstep; [kstep; unfold exception; kstep|].
      kstep; [apply keeps_findindirect|].
      kstep; [apply keeps_next|apply IHd].
Qed.

Lemma keeps_run_special fuel f : respects keeps (run_special lexer fuel f).
Proof.
  unfold run_special. apply keeps_call_special.
  - unfold readdict. kstep; [apply keeps_next|]. apply keeps_containers.
  - apply keeps_containers.
Qed.

Lemma keeps_read_object fuel : respects keeps (read_object lexer fuel).
Proof.
  unfold read_object. kstep; [apply keeps_next|].
  destruct (special a); [apply keeps_run_special|kstep].
Qed.

Lemma keeps_resync k offset : respects keeps (resync fdata lexer k offset).
Proof.
  unfold resync. kstep; [apply keeps_seek|]. kstep; [apply keeps_next|].
  cbv zeta.
  destruct (_ =? 0).
  - kstep; [apply keeps_log_warning|kstep].
  - kstep; [kstep|]. destruct (_ >? 0).
    + kstep; [apply keeps_log_warning|kstep].
    + kstep; [apply keeps_log_warning|]. kstep; [apply keeps_seek|kstep].
Qed.

Lemma keeps_read_header k offset : respects keeps (read_header fdata lexer k offset).
Proof.
  unfold read_header. kstep; [apply keeps_seek|].
  kstep; [apply keeps_multiple|].
  destruct (header_ok k a0); [kstep|apply keeps_resync].
Qed.

Lemma keeps_findstream obj tok : respects keeps (findstream fdata obj tok).
Proof.
  unfold findstream. cbv zeta.
  kstep; [kstep; unfold exception; kstep|].
  kstep; [kstep|]. kstep; [kstep|]. kstep; [kstep|].
  kstep; [|kstep].
  kstep. kstep; [kstep; unfold exception; kstep|].
  kstep; [kstep|]. kstep.
  kstep; [apply keeps_log_warning|].
  apply respects_modify. intros st. apply keeps_frame; reflexivity.
Qed.

(** The values the container parser hands over are no placeholders. *)
Lemma containers_shape fuel :
  (forall result st v st',
      readarray_loop lexer fuel result st = (Ret v, st') ->
      exists l, v = PdfArray l None)
  /\ (forall result tok st v st',
      readdict_loop lexer fuel result tok st = (Ret v, st') ->
      exists d, v = PdfDict d None None).
Proof.
  induction fuel as [|fuel [IHa IHd]]; split; intros *;
    cbn [readarray_loop readdict_loop]; try discriminate.
  - destruct (lexer (floc st)) as [[[t ts] fl]|]; [|intros [= <- _]; eauto].
    destruct (in_close_or_R t).
    + destruct (String.eqb t "]"); [intros [= <- _]; eauto|].
      mred.
      repeat (match goal with
              | |- context [match ?m ?s with _ => _ end] =>
                  destruct (m s) as [[?| |] ?]; try discriminate
              end).
      apply IHa.
    + destruct (special t).
      * mred. destruct (call_special _ _ _ _) as [[?| |] ?]; try discriminate.
        apply IHa.
      * apply IHa.
  - destruct (String.eqb tok ">>"); [intros [= <- _]; eauto|].
    mred.
    repeat (match goal with
            | |- context [match ?m ?s with _ => _ end] =>
                destruct (m s) as [[?| |] ?]; try discriminate
            | |- context [if ?b then _ else _] => destruct b
            | |- context [match special ?t with _ => _ end] => destruct (special t)
            end); try discriminate; try apply IHd.
Qed.

End Parsing.

(** ** The table and the deferred set under loading *)

Lemma respects_keeps_loads {A} (m : M A) : respects keeps m -> respects loads m.
Proof. intros H st o st' E. apply keeps_loads. eapply H, E. Qed.

Lemma set_stream_shape obj d :
  is_PdfIndirect (set_stream obj d) = is_PdfIndirect obj
  /\ is_None (set_stream obj d) = is_None obj.
Proof. destruct obj; split; reflexivity. Qed.

Lemma set_stream_twice obj d e : set_stream (set_stream obj d) e = set_stream obj e.
Proof. destruct obj; reflexivity. Qed.

Lemma set_indirect_shape obj k obj' :
  set_indirect obj k = Some obj' ->
  is_None obj' = false /\ is_PdfIndirect obj' = is_PdfIndirect obj.
Proof. destruct obj; intros [= <-]; split; reflexivity. Qed.

(** The key of a placeholder is registered with its object. *)
Lemma loads_register st k v :
  unresolved st k -> is_PdfIndirect v = false ->
  loads st
    (set_deferred_objects (deferred_objects st ∖ {[ k ]})
       (set_indirect_objects (<[ k := v ]> (indirect_objects st)) st)).
Proof.
  intros [k' Hk] Hv. split; [|split]; cbn; [| |reflexivity].
  - intros Hc k0. unfold unresolved. cbn.
    destruct (decide (k0 = k)) as [->|Hne].
    + rewrite lookup_insert_eq. split.
      { intros H. apply elem_of_difference in H as [_ H].
        destruct H. apply elem_of_singleton. reflexivity. }
      intros [k1 [= ->]]. discriminate.
    + rewrite lookup_insert_ne by congruence.
      rewrite elem_of_difference, elem_of_singleton. split.
      * intros [H _]. apply Hc, H.
      * intros H. split; [apply Hc, H|exact Hne].
  - intros k0 v0 Hv0 _ Hp. rewrite lookup_insert_ne; [exact Hv0|].
    intros <-. rewrite Hk in Hv0. injection Hv0 as Hv0. subst v0. discriminate.
Qed.

(** The object of a registered key is replaced by another object. *)
Lemma loads_store st s k v :
  loads st s -> unresolved st k ->
  (consistent s -> k ∉ deferred_objects s) ->
  is_PdfIndirect v = false ->
  loads st (set_indirect_objects (<[ k := v ]> (indirect_objects s)) s).
Proof.
  intros (Hc & Hr & Ho) [k' Hk] Hd Hv. split; [|split]; cbn; [| |exact Ho].
  - intros Hst k0. specialize (Hc Hst). unfold unresolved. cbn.
    destruct (decide (k0 = k)) as [->|Hne].
    + rewrite lookup_insert_eq. split; [intros H; destruct (Hd Hc H)|].
      intros [k1 [= ->]]. discriminate.
    + rewrite lookup_insert_ne by congruence. apply Hc.
  - intros k0 v0 Hv0 Hn Hp. rewrite lookup_insert_ne; [apply Hr; assumption|].
    intros <-. rewrite Hk in Hv0. injection Hv0 as Hv0. subst v0. discriminate.
Qed.

Lemma indirect_objects_set_log l st :
  indirect_objects (set_log l st) = indirect_objects st.
Proof. reflexivity. Qed.

Lemma obj_offsets_set_log l st : obj_offsets (set_log l st) = obj_offsets st.
Proof. reflexivity. Qed.

Section Loading.
Variable fdata : string.
Variable lexer : Z -> option (string * Z * Z).

Section WithResolve.
Variable resolve : key -> M value.
Hypothesis resolve_loads : forall k, respects loads (resolve k).

Lemma loads_getitem node name : respects loads (getitem resolve node name).
Proof.
  unfold getitem. destruct node; try lstep.
  destruct (dict_get items name) as [[]|]; try lstep. apply resolve_loads.
Qed.

Lemma loads_seek p : respects loads (seek p).
Proof. apply respects_keeps_loads, keeps_seek. Qed.

Lemma loads_error msg : respects loads (error msg).
Proof. apply respects_keeps_loads, keeps_log_error. Qed.

Lemma loads_warning msg : respects loads (warning msg).
Proof. apply respects_keeps_loads, keeps_log_warning. Qed.

Ltac lleaf :=
  first [ apply loads_seek | apply loads_error | apply loads_warning
        | apply loads_getitem
        | apply respects_keeps_loads, keeps_multiple
        | apply respects_keeps_loads, keeps_int_value
        | apply respects_keeps_loads, keeps_next
        | apply respects_modify; intros ?; apply keeps_loads, keeps_frame; reflexivity
        | lstep ].

Lemma loads_readstream obj startstream :
  respects loads (readstream fdata lexer resolve obj startstream).
Proof.
  unfold readstream. cbv zeta.
  lstep; [lleaf|]. lstep; [lleaf|]. lstep; [lleaf|]. lstep; [lleaf|].
  repeat (match goal with
          | |- respects loads (if ?b then _ else _) => destruct b
          | |- respects loads (bind _ _) => lstep
          | |- _ => lleaf
          end).
Qed.

(** [readstream] hands back the object it was given, with a payload. *)
Lemma readstream_shape obj startstream st v st' :
  readstream fdata lexer resolve obj startstream st = (Ret v, st') ->
  exists d, v = set_stream obj d.
Proof.
  unfold readstream. cbv zeta. mred.
  repeat (match goal with
          | |- context [match ?m ?s with _ => _ end] =>
              destruct (m s) as [[?| |] ?]; try discriminate
          | |- context [match ?o with Some _ => _ | None => _ end] => destruct o
          | |- context [match ?v with PyNone => _ | _ => _ end] => destruct v
          | |- context [if ?b then _ else _] => destruct b
          end; try discriminate);
    intros [= <- _]; rewrite ?set_stream_twice; eauto.
Qed.

Lemma register_object_loads k obj st o st' :
  is_PdfIndirect obj = false ->
  unresolved st k ->
  register_object fdata lexer resolve k obj st = (o, st') ->
  loads st st'
  /\ forall v, o = Ret v ->
       indirect_objects st' !! k = Some v /\ is_PdfIndirect v = false.
Proof.
  intros Hobj Hk. unfold register_object, store, deferred_remove. mred.
  destruct (bool_decide_reflect (k ∈ deferred_objects
              (set_indirect_objects (<[k:=obj]> (indirect_objects st)) st)))
    as [Hin|Hout].
  2:{ intros [= <- <-]. split; [|discriminate].
      apply loads_store; auto using loads_refl. }
  pose proof (loads_register st k obj Hk Hobj) as L2.
  cbn [deferred_objects set_indirect_objects] in *.
  set (s2 := set_deferred_objects _ _) in *.
  destruct (set_indirect obj k) as [obj'|] eqn:Etag.
  2:{ intros [= <- <-]. split; [exact L2|discriminate]. }
  destruct (set_indirect_shape _ _ _ Etag) as [Hn' Hp']. rewrite Hobj in Hp'.
  assert (L3 : loads st (set_indirect_objects (<[k:=obj']> (indirect_objects s2)) s2)).
  { apply loads_store; auto. intros _. subst s2. cbn.
    intros H. apply elem_of_difference in H as [_ H].
    apply H, elem_of_singleton. reflexivity. }
  set (s3 := set_indirect_objects _ s2) in *.
  assert (T3 : indirect_objects s3 !! k = Some obj')
    by (subst s3; cbn; apply lookup_insert_eq).
  destruct (next lexer s3) as [[tok| |] s4] eqn:En;
    pose proof (keeps_next lexer _ _ _ En) as K4;
    try (intros [= <- <-]; split;
         [eapply loads_trans; [exact L3|apply keeps_loads, K4]|discriminate]).
  assert (L4 : loads st s4)
    by (eapply loads_trans; [exact L3|apply keeps_loads, K4]).
  assert (T4 : indirect_objects s4 !! k = Some obj')
    by (apply K4; assumption).
  destruct (negb (String.eqb tok "endobj")).
  2:{ intros [= <- <-]. split; [exact L4|]. intros v [= <-]. auto. }
  destruct (findstream fdata obj' tok s4) as [[ss| |] s5] eqn:Ef;
    pose proof (keeps_findstream fdata _ _ _ _ _ Ef) as K5;
    try (intros [= <- <-]; split;
         [eapply loads_trans; [exact L4|apply keeps_loads, K5]|discriminate]).
  assert (T5 : indirect_objects s5 !! k = Some obj')
    by (apply K5; assumption).
  destruct (readstream fdata lexer resolve obj' ss s5) as [[obj2| |] s6] eqn:Er;
    pose proof (loads_readstream _ _ _ _ _ Er) as L6;
    try (intros [= <- <-]; split;
         [eapply loads_trans; [exact L4|];
          eapply loads_trans; [apply keeps_loads, K5|exact L6]|discriminate]).
  destruct (readstream_shape _ _ _ _ _ Er) as [d ->].
  destruct (set_stream_shape obj' d) as [Hp2 Hn2]. rewrite Hp' in Hp2.
  assert (T6 : indirect_objects s6 !! k = Some obj')
    by (apply L6; assumption).
  intros [= <- <-]. split.
  - apply loads_store; auto.
    + eapply loads_trans; [exact L4|].
      eapply loads_trans; [apply keeps_loads, K5|exact L6].
    + intros Hc Hin6. apply Hc in Hin6. destruct Hin6 as [k1 Hk1].
      rewrite T6 in Hk1. injection Hk1 as Hk1. subst obj'. discriminate.
  - intros v [= <-]. cbn. rewrite lookup_insert_eq. auto.
Qed.

Lemma call_special_shape rd ra f st v st' :
  (forall st v st', rd st = (Ret v, st') -> is_PdfIndirect v = false) ->
  (forall st v st', ra st = (Ret v, st') -> is_PdfIndirect v = false) ->
  call_special rd ra f st = (Ret v, st') -> is_PdfIndirect v = false.
Proof.
  intros Hd Ha. destruct f; cbn [call_special]; eauto.
  - unfold empty_obj. mred. intros [= <- _]. reflexivity.
  - discriminate.
Qed.

Lemma read_object_shape fuel st v st' :
  read_object lexer fuel st = (Ret v, st') -> is_PdfIndirect v = false.
Proof.
  unfold read_object. mred.
  destruct (next lexer st) as [[tok| |] s1]; try discriminate.
  destruct (special tok); [|intros [= <- _]; reflexivity].
  unfold run_special. apply call_special_shape.
  - unfold readdict. mred. intros sa v0 sb.
    destruct (next lexer sa) as [[t| |] s3]; try discriminate.
    intros H. apply (containers_shape lexer fuel) in H. destruct H as [d ->].
    reflexivity.
  - unfold readarray. intros sa v0 sb H.
    apply (containers_shape lexer fuel) in H. destruct H as [l ->].
    reflexivity.
Qed.

Lemma keeps_unresolved st st' k : keeps st st' -> unresolved st k -> unresolved st' k.
Proof. intros (_ & H & _) [k' Hk]. exists k'. apply H; auto. Qed.

Lemma loadindirect_with_absent fuel k st :
  unresolved st k -> default 0 (obj_offsets st !! k) = 0 ->
  loadindirect_with fdata lexer resolve fuel k st
  = (Ret PyNone, set_log (log st ++ [(Warning, "Did not find PDF object")]) st).
Proof.
  intros [k' Hk] Ho. unfold loadindirect_with. mred. rewrite Hk, Ho. reflexivity.
Qed.

Lemma loadindirect_with_present fuel k st :
  unresolved st k -> default 0 (obj_offsets st !! k) <> 0 ->
  loadindirect_with fdata lexer resolve fuel k st
  = (found <- read_header fdata lexer k (default 0 (obj_offsets st !! k)) ;;
     if negb found then ret PyNone
     else obj <- read_object lexer fuel ;;
          register_object fdata lexer resolve k obj) st.
Proof.
  intros [k' Hk] Ho. unfold loadindirect_with. mred. rewrite Hk.
  destruct (Z.eqb_spec (default 0 (obj_offsets st !! k)) 0); [contradiction|].
  reflexivity.
Qed.

Lemma loadindirect_with_loads fuel k :
  respects loads (loadindirect_with fdata lexer resolve fuel k).
Proof.
  intros st o st'. unfold loadindirect_with. mred.
  destruct (indirect_objects st !! k) as [v|] eqn:Ek;
    [|intros [= _ <-]; apply loads_refl].
  destruct v; try (intros [= _ <-]; apply loads_refl).
  destruct (_ =? 0).
  { intros [= _ <-]. apply keeps_loads, keeps_frame; reflexivity. }
  destruct (read_header fdata lexer k _ st) as [[found| |] s1] eqn:Eh;
    pose proof (keeps_read_header fdata lexer _ _ _ _ _ Eh) as K1;
    try (intros [= _ <-]; apply keeps_loads, K1).
  destruct found; cbn [negb]; [|intros [= _ <-]; apply keeps_loads, K1].
  destruct (read_object lexer fuel s1) as [[obj| |] s2] eqn:Eo;
    pose proof (keeps_read_object lexer _ _ _ _ Eo) as K2;
    try (intros [= _ <-]; apply keeps_loads; eapply keeps_trans; eassumption).
  intros Hreg.
  eapply loads_trans; [apply keeps_loads; eapply keeps_trans; eassumption|].
  eapply register_object_loads; [| |exact Hreg].
  - eapply read_object_shape, Eo.
  - eapply keeps_unresolved; [exact K2|].
    eapply keeps_unresolved; [exact K1|]. eexists. exact Ek.
Qed.

End WithResolve.

Lemma loadindirect_loads fuel k : respects loads (loadindirect fdata lexer fuel k).
Proof.
  revert k. induction fuel as [|fuel IH]; intros k;
    rewrite loadindirect_unfold; apply loadindirect_with_loads.
  - intros k'. lstep.
  - exact IH.
Qed.

(** *** The offset of the source decides what the header check sees *)

Lemma positional_ret {A} (a : A) : positional (ret a).
Proof. intros st st2 H. split; [reflexivity|exact H]. Qed.

Lemma positional_bind {A B} (m : M A) (k : A -> M B) :
  positional m -> (forall a, positional (k a)) -> positional (bind m k).
Proof.
  intros Hm Hk st st2 H. unfold bind.
  destruct (Hm st st2 H) as [H1 H2].
  destruct (m st) as [[a|e|] s], (m st2) as [[a2|e2|] s2];
    cbn in H1, H2; try discriminate; try (injection H1 as <-); cbn; auto.
  apply Hk, H2.
Qed.

Lemma positional_next : positional (next lexer).
Proof.
  intros st st2 H. unfold next. rewrite H.
  destruct (lexer (floc st2)) as [[[t ts] fl]|]; cbn; auto.
Qed.

Lemma positional_multiple n : positional (multiple lexer n).
Proof.
  induction n as [|n IH]; intros st st2 H; simpl.
  - auto.
  - rewrite H. destruct (lexer (floc st2)) as [[[t ts] fl]|]; cbn; auto.
    apply (positional_bind _ _ IH); [intros a; apply positional_ret|reflexivity].
Qed.

Lemma positional_seek p : positional (seek p).
Proof. intros st st2 _. split; reflexivity. Qed.

Lemma positional_log_warning msg : positional (log_warning msg).
Proof. intros st st2 H. split; [reflexivity|exact H]. Qed.

Lemma positional_lift_option {A} e (o : option A) : positional (lift_option e o).
Proof. destruct o; intros st st2 H; split; auto. Qed.

Lemma positional_resync k offset : positional (resync fdata lexer k offset).
Proof.
  unfold resync. cbv zeta.
  apply positional_bind; [apply positional_seek|intros _].
  apply positional_bind; [apply positional_next|intros _].
  repeat (match goal with
          | |- positional (if ?b then _ else _) => destruct b
          | |- positional (bind _ _) => apply positional_bind; [|intros ?]
          | |- _ => first [ apply positional_ret | apply positional_seek
                          | apply positional_log_warning
                          | apply positional_lift_option ]
          end).
Qed.

Lemma read_header_anywhere k offset st st2 :
  fst (read_header fdata lexer k offset st)
  = fst (read_header fdata lexer k offset st2).
Proof.
  unfold read_header.
  assert (P : positional
            (objid <- multiple lexer 3;;
             if header_ok k objid then ret true
             else resync fdata lexer k offset)).
  { apply positional_bind; [apply positional_multiple|intros objid].
    destruct (header_ok k objid); [apply positional_ret|apply positional_resync]. }
  unfold bind at 1 3. cbn [seek modify].
  apply P. reflexivity.
Qed.

(** C2, as the code has it.  A key whose entry is loaded is never loaded
    again: the stored value comes back and the state is untouched, and no
    load of any key changes a loaded entry.  Loading the same key twice
    gives the same value both times.  A key with a placeholder and no
    offset gives [None] on every call, each call logging one warning and
    changing nothing else: the entry stays a placeholder and the key
    stays deferred.  A load keeps the deferred keys the keys whose entry
    is a placeholder: when they are so before the load they are so after
    it, whatever the load does. *)
Theorem loadindirect_resolves (fuel : nat) (k : key) (st : reader) :
  (forall v, indirect_objects st !! k = Some v -> is_PdfIndirect v = false ->
     loadindirect fdata lexer fuel k st = (Ret v, st))
  /\ (forall o st1 k0 v0, loadindirect fdata lexer fuel k st = (o, st1) ->
        indirect_objects st !! k0 = Some v0 ->
        is_None v0 = false -> is_PdfIndirect v0 = false ->
        indirect_objects st1 !! k0 = Some v0)
  /\ (forall v st1, loadindirect fdata lexer fuel k st = (Ret v, st1) ->
        exists st2, loadindirect fdata lexer fuel k st1 = (Ret v, st2))
  /\ (unresolved st k -> obj_offsets st !! k = None ->
        loadindirect fdata lexer fuel k st
        = (Ret PyNone,
           set_log (log st ++ [(Warning, "Did not find PDF object")]) st))
  /\ (forall o st1, loadindirect fdata lexer fuel k st = (o, st1) ->
        consistent st -> consistent st1).
Proof.
  split; [|split; [|split; [|split]]].
  - intros v Hv Hp. rewrite loadindirect_unfold. unfold loadindirect_with.
    mred. rewrite Hv. destruct v; try reflexivity. discriminate.
  - intros o st1 k0 v0 H. apply (loadindirect_loads _ _ _ _ _ H).
  - intros v st1. rewrite !loadindirect_unfold.
    set (resolve := fun k' => match fuel with
                              | O => diverge
                              | S f => loadindirect fdata lexer f k'
                              end).
    assert (Hres : forall k', respects loads (resolve k')).
    { intros k'. subst resolve. destruct fuel; [lstep|apply loadindirect_loads]. }
    destruct (indirect_objects st !! k) as [e|] eqn:Ek.
    2:{ unfold loadindirect_with. mred. rewrite Ek.
        intros [= <- <-]. rewrite Ek. eauto. }
    destruct (is_PdfIndirect e) eqn:Ep.
    2:{ unfold loadindirect_with. mred. rewrite Ek.
        destruct e; try discriminate; intros [= <- <-]; rewrite Ek; eauto. }
    assert (Hu : unresolved st k) by (destruct e; try discriminate; eexists; exact Ek).
    destruct (Z.eq_dec (default 0 (obj_offsets st !! k)) 0) as [Hoff|Hoff].
    { rewrite loadindirect_with_absent by assumption.
      intros [= <- <-]. eexists. apply loadindirect_with_absent; assumption. }
    rewrite loadindirect_with_present by assumption. mred.
    destruct (read_header fdata lexer k _ st) as [[found| |] s1] eqn:Eh;
      try discriminate.
    pose proof (keeps_read_header fdata lexer _ _ _ _ _ Eh) as K1.
    destruct found; cbn [negb].
    + destruct (read_object lexer fuel s1) as [[obj| |] s2] eqn:Eo;
        try discriminate.
      pose proof (keeps_read_object lexer _ _ _ _ Eo) as K2.
      intros Hreg.
      eapply register_object_loads in Hreg as [_ Hv];
        [|exact Hres|eapply read_object_shape, Eo
         |eapply keeps_unresolved; [exact K2|];
          eapply keeps_unresolved; [exact K1|]; exact Hu].
      destruct (Hv v eq_refl) as [Hv1 Hv2].
      unfold loadindirect_with. mred. rewrite Hv1.
      destruct v; try discriminate; eauto.
    + intros [= <- <-].
      assert (Hu1 : unresolved s1 k) by (eapply keeps_unresolved; eassumption).
      destruct K1 as (_ & _ & Ko).
      rewrite loadindirect_with_present by (rewrite ?Ko; assumption).
      rewrite Ko. mred.
      pose proof (read_header_anywhere k (default 0 (obj_offsets st !! k)) s1 st) as Hh.
      rewrite Eh in Hh.
      destruct (read_header fdata lexer k _ s1) as [[found| |] s3] eqn:E2;
        cbn [fst] in Hh; try discriminate.
      injection Hh as ->. cbn [negb]. eauto.
  - intros Hk Ho. rewrite loadindirect_unfold.
    apply loadindirect_with_absent; [exact Hk|]. rewrite Ho. reflexivity.
  - intros o st1 H. apply (loadindirect_loads _ _ _ _ _ H).
Qed.

End Loading.

(** ** Empty objects, in general *)

Section EmptyObjectLoad.
Variable fdata : string.
Variable lexer : Z -> option (string * Z * Z).
Variable resolve : key -> M value.

(** Whatever the token source: when the header of [k] is found and the
    next token is [endobj], [None] is stored for [k], the key leaves the
    deferred set, the source stands at the [endobj], and tagging [None]
    raises. *)
Lemma loadindirect_empty_object fuel k st s1 ts fl :
  unresolved st k ->
  default 0 (obj_offsets st !! k) <> 0 ->
  read_header fdata lexer k (default 0 (obj_offsets st !! k)) st = (Ret true, s1) ->
  k ∈ deferred_objects s1 ->
  lexer (floc s1) = Some ("endobj", ts, fl) ->
  loadindirect_with fdata lexer resolve fuel k st
  = (Raise AttributeError,
     set_deferred_objects (deferred_objects s1 ∖ {[ k ]})
       (set_indirect_objects (<[ k := PyNone ]> (indirect_objects s1))
          (set_floc ts (set_tokstart ts s1)))).
Proof.
  intros Hu Ho Hh Hd Hl.
  rewrite loadindirect_with_present by assumption.
  unfold bind at 1. rewrite Hh. cbn [negb].
  unfold read_object, next. mred. rewrite Hl.
  change (special "endobj") with (Some Sempty_obj).
  unfold run_special. cbn [call_special]. unfold empty_obj. mred.
  unfold register_object, store, deferred_remove. mred.
  cbn [deferred_objects set_indirect_objects set_floc set_tokstart].
  rewrite bool_decide_eq_true_2 by exact Hd.
  reflexivity.
Qed.

End EmptyObjectLoad.

(** C2 as stated fails: the key (1, 0) has a placeholder and no offset.
    Two loads give [None] twice and two warnings, and the entry is still
    the placeholder and the key still deferred. *)
Lemma absent_key_warns_on_every_call :
  let r1 := loadindirect "" (ws_lexer "") 5 (1, 0) one_missing in
  let r2 := loadindirect "" (ws_lexer "") 5 (1, 0) (snd r1) in
  fst r1 = Ret PyNone /\ fst r2 = Ret PyNone
  /\ log (snd r1) = [(Warning, "Did not find PDF object")]
  /\ log (snd r2) = [(Warning, "Did not find PDF object");
                     (Warning, "Did not find PDF object")]
  /\ indirect_objects (snd r2) = {[ (1, 0) := PdfIndirect (1, 0) ]}
  /\ deferred_objects (snd r2) = {[ (1, 0) ]}.
Proof. vm_compute. repeat split. Qed.

(** C2 at the file [stream_ok]: object 1 loads, a second load hands the
    same object back and leaves the state alone, and the deferred set,
    which held the key, is empty. *)
Lemma loadindirect_resolves_witness :
  let load := loadindirect stream_ok (ws_lexer stream_ok) 20 (1, 0) in
  exists v st1,
    load one_deferred = (Ret v, st1)
    /\ load st1 = (Ret v, st1)
    /\ get_stream v = Some "hello"
    /\ consistent st1.
Proof.
  intros load.
  destruct (load one_deferred) as [o st1] eqn:E.
  assert (Ho : o = Ret (PdfDict [("/Length", PdfObject "5" None)] (Some (1, 0))
                          (Some "hello"))).
  { pose proof (f_equal fst E) as E1. vm_compute in E1. symmetry. exact E1. }
  subst o.
  assert (Ht : indirect_objects st1 !! (1, 0)
               = Some (PdfDict [("/Length", PdfObject "5" None)] (Some (1, 0))
                         (Some "hello"))).
  { pose proof (f_equal snd E) as E2. cbn [snd] in E2.
    rewrite <- E2. vm_compute. reflexivity. }
  destruct (loadindirect_resolves stream_ok (ws_lexer stream_ok) 20 (1, 0) one_deferred)
    as (_ & _ & _ & _ & Hc).
  destruct (loadindirect_resolves stream_ok (ws_lexer stream_ok) 20 (1, 0) st1)
    as (Hsame & _).
  eexists _, st1. split; [reflexivity|]. split; [|split; [reflexivity|]].
  - apply Hsame; [exact Ht|reflexivity].
  - eapply Hc; [exact E|].
    intros k. unfold unresolved. cbn.
    rewrite elem_of_singleton. split.
    + intros ->. eexists. apply lookup_singleton_eq.
    + intros [k' Hk]. apply lookup_singleton_Some in Hk as [Hk _]. congruence.
Defined.

(** ** read_all *)

(** C9 as stated fails: with the key (1, 0) deferred and no offset for
    it, a second [read_all] right after the first loads the key again
    and logs a second warning. *)
Lemma read_all_repeat_warns_again :
  let r1 := read_all "" (ws_lexer "") 5 one_missing in
  let r2 := read_all "" (ws_lexer "") 5 (snd r1) in
  fst r1 = Ret tt /\ fst r2 = Ret tt
  /\ log (snd r1) = [(Warning, "Did not find PDF object")]
  /\ log (snd r2) = [(Warning, "Did not find PDF object");
                     (Warning, "Did not find PDF object")].
Proof. vm_compute. repeat split. Qed.

Section ReadAll.
Variable fdata : string.
Variable lexer : Z -> option (string * Z * Z).

(** A key whose entry is no placeholder is not loaded. *)
Lemma loadindirect_settled fuel k st :
  ~ unresolved st k -> exists v, loadindirect fdata lexer fuel k st = (Ret v, st).
Proof.
  intros Hk. rewrite loadindirect_unfold. unfold loadindirect_with. mred.
  destruct (indirect_objects st !! k) as [v|] eqn:E; [|eauto].
  destruct v; eauto. destruct Hk. eexists. exact E.
Qed.

Lemma load_each_settled fuel keys st :
  (forall k, k ∈ keys -> ~ unresolved st k) ->
  load_each fdata lexer fuel keys st = (Ret tt, st).
Proof.
  induction keys as [|k keys IH]; intros H; cbn [load_each]; [reflexivity|].
  destruct (loadindirect_settled fuel k st) as [v Hv].
  { apply H. left. }
  unfold bind. rewrite Hv. apply IH. intros k0 Hk0. apply H. now right.
Qed.

(** [read_all] keeps the deferred keys the keys with a placeholder. *)
Lemma read_all_loads fuel : respects loads (read_all fdata lexer fuel).
Proof.
  unfold read_all. generalize (∅ : gset key). generalize fuel at 1.
  induction fuel as [|fuel IH]; intros lfuel prev; cbn [read_all_loop]; [lstep|].
  lstep; [lstep|]. destruct (bool_decide _); [lstep|].
  lstep; [|apply IH].
  generalize (elements (a ∖ prev)). intros keys.
  induction keys as [|k keys IHk]; cbn [load_each]; [lstep|].
  lstep; [apply loadindirect_loads|exact IHk].
Qed.

End ReadAll.


(** ** The sweeps of read_all *)

Section Sweeps.
Variable fdata : string.
Variable lexer : Z -> option (string * Z * Z).
Variable lfuel : nat.

(** The keys the buffer can name, and loads that come back. *)
Variable universe : gset key.
Hypothesis load_in_universe :
  forall k st o st',
    loadindirect fdata lexer lfuel k st = (o, st') ->
    deferred_objects st ⊆ universe -> deferred_objects st' ⊆ universe.
Hypothesis load_comes_back :
  forall k st, fst (loadindirect fdata lexer lfuel k st) <> Diverge.

Lemma load_each_comes_back keys :
  forall st, deferred_objects st ⊆ universe ->
    fst (load_each fdata lexer lfuel keys st) <> Diverge
    /\ deferred_objects (snd (load_each fdata lexer lfuel keys st)) ⊆ universe.
Proof.
  induction keys as [|k keys IH]; intros st Hu; cbn [load_each].
  - split; [discriminate|exact Hu].
  - unfold bind.
    pose proof (load_comes_back k st) as Hb.
    pose proof (load_in_universe k st) as Hin.
    destruct (loadindirect fdata lexer lfuel k st) as [[v|e|] s1].
    + apply IH. eapply Hin; [reflexivity|exact Hu].
    + split; [discriminate|]. eapply Hin; [reflexivity|exact Hu].
    + destruct Hb. reflexivity.
Qed.

(** Each sweep that loads anything adds a key of the universe to [prev]:
    with more fuel than keys left, the loop of [read_all] comes back,
    also when keys fail to load and stay deferred. *)
Lemma read_all_loop_comes_back fuel :
  forall prev st,
    deferred_objects st ⊆ universe ->
    (size (universe ∖ prev) < fuel)%nat ->
    fst (read_all_loop fdata lexer lfuel fuel prev st) <> Diverge.
Proof.
  induction fuel as [|fuel IH]; intros prev st Hu Hf; [lia|].
  cbn [read_all_loop]. mred.
  destruct (bool_decide_reflect (deferred_objects st ∖ prev = ∅)) as [He|Hne];
    [discriminate|].
  destruct (load_each_comes_back (elements (deferred_objects st ∖ prev)) st Hu)
    as [Hb Hin].
  destruct (load_each fdata lexer lfuel _ st) as [[[]|e|] s1];
    [|discriminate|destruct Hb; reflexivity].
  apply IH; [exact Hin|].
  apply set_choose_L in Hne as [k Hk].
  apply elem_of_difference in Hk as [Hk1 Hk2].
  assert (Hsub : universe ∖ (prev ∪ deferred_objects st) ⊂ universe ∖ prev).
  { apply strict_spec_alt. split.
    - intros x Hx. apply elem_of_difference in Hx as [Hx1 Hx2].
      apply elem_of_difference. split; [exact Hx1|].
      intros Hp. apply Hx2, elem_of_union_l, Hp.
    - intros Heq.
      assert (Hin' : k ∈ universe ∖ prev)
        by (apply elem_of_difference; split; [apply Hu, Hk1|exact Hk2]).
      rewrite <- Heq in Hin'. apply elem_of_difference in Hin' as [_ Hn].
      apply Hn, elem_of_union_r, Hk1. }
  apply subset_size in Hsub. lia.
Qed.

End Sweeps.

(** ** A second read_all *)

Lemma grows_refl st : grows st st.
Proof. intros k v Hk Hn. eauto. Qed.

Lemma grows_trans a b c : grows a b -> grows b c -> grows a c.
Proof.
  intros H1 H2 k v Hk Hn. destruct (H1 k v Hk Hn) as (v' & Hk' & Hn').
  apply (H2 k v' Hk' Hn').
Qed.

Lemma keeps_grows a b : keeps a b -> grows a b.
Proof. intros (_ & H & _) k v Hk Hn. exists v. split; [apply H; assumption|exact Hn]. Qed.

Lemma respects_returns {A} R (m : M A) : respects R m -> returns R m.
Proof. intros H st a st' E. eapply H, E. Qed.

Lemma returns_of_keeps {A} (m : M A) : respects keeps m -> returns grows m.
Proof. intros H st a st' E. apply keeps_grows. eapply H, E. Qed.

Lemma returns_bind {A B} (m : M A) (k : A -> M B) :
  returns grows m -> (forall a, returns grows (k a)) -> returns grows (bind m k).
Proof.
  intros Hm Hk st b st'. unfold bind.
  destruct (m st) as [[a|e|] st1] eqn:E; try discriminate.
  intros H. eapply grows_trans; [eapply Hm, E|eapply Hk, H].
Qed.

Lemma set_floc_tokstart_id st : set_floc (floc st) (set_tokstart (tokstart st) st) = st.
Proof. destruct st; reflexivity. Qed.

Section Repeat.
Variable fdata : string.
Variable lexer : Z -> option (string * Z * Z).

Lemma multiple_moves n : forall st l st',
  multiple lexer n st = (Ret l, st') ->
  exists fl ts, st' = set_floc fl (set_tokstart ts st).
Proof.
  induction n as [|n IH]; intros st l st'; simpl.
  - intros [= _ <-]. exists (floc st), (tokstart st). destruct st; reflexivity.
  - destruct (lexer (floc st)) as [[[tok ts] fl]|].
    + unfold bind.
      destruct (multiple lexer n _) as [[l0| |] st0] eqn:E; try discriminate.
      intros [= _ <-]. destruct (IH _ _ _ E) as (fl' & ts' & ->).
      exists fl', ts'. reflexivity.
    + intros [= _ <-]. exists (floc st), (tokstart st). destruct st; reflexivity.
Qed.

Section GrowsWith.
Variable resolve : key -> M value.
Hypothesis resolve_grows : forall k, returns grows (resolve k).

Lemma grows_getitem node name : returns grows (getitem resolve node name).
Proof.
  unfold getitem. destruct node; try (apply returns_of_keeps; kstep).
  destruct (dict_get items name) as [[]|]; try (apply returns_of_keeps; kstep).
  apply resolve_grows.
Qed.

Ltac gleaf :=
  first [ apply grows_getitem
        | apply returns_of_keeps, keeps_seek
        | apply returns_of_keeps, keeps_log_error
        | apply returns_of_keeps, keeps_log_warning
        | apply returns_of_keeps, keeps_multiple
        | apply returns_of_keeps, keeps_int_value
        | apply returns_of_keeps, keeps_next
        | apply returns_of_keeps, respects_modify; intros ?; apply keeps_frame; reflexivity
        | apply returns_of_keeps; kstep ].

Lemma grows_readstream obj startstream :
  returns grows (readstream fdata lexer resolve obj startstream).
Proof.
  unfold readstream. cbv zeta.
  apply returns_bind; [gleaf|intro]. apply returns_bind; [gleaf|intro].
  apply returns_bind; [gleaf|intro]. apply returns_bind; [gleaf|intro].
  repeat (match goal with
          | |- returns grows (if ?b then _ else _) => destruct b
          | |- returns grows (bind _ _) => apply returns_bind; [|intro]
          | |- _ => gleaf
          end).
Qed.

(** When [register_object] returns, the object is entered and no entry
    has become [None]. *)
Lemma grows_register_object k obj : returns grows (register_object fdata lexer resolve k obj).
Proof.
  intros st v st'. unfold register_object, store, deferred_remove. mred.
  destruct (bool_decide _); [|discriminate].
  destruct (set_indirect obj k) as [obj'|] eqn:Etag; [|discriminate].
  destruct (set_indirect_shape _ _ _ Etag) as [Hn' _].
  match goal with |- context [next lexer ?s] => set (s3 := s) end.
  assert (G3 : grows st s3).
  { intros k0 v0 Hk0 Hn0. subst s3. cbn.
    destruct (decide (k0 = k)) as [->|Hne].
    - rewrite lookup_insert_eq. eauto.
    - rewrite lookup_insert_ne by congruence. rewrite lookup_insert_ne by congruence.
      eauto. }
  destruct (next lexer s3) as [[tok| |] s4] eqn:En; try discriminate.
  pose proof (keeps_grows _ _ (keeps_next lexer _ _ _ En)) as G4.
  destruct (negb _).
  2:{ intros [= _ <-]. eapply grows_trans; eassumption. }
  destruct (findstream fdata obj' tok s4) as [[ss| |] s5] eqn:Ef; try discriminate.
  pose proof (keeps_grows _ _ (keeps_findstream fdata _ _ _ _ _ Ef)) as G5.
  destruct (readstream fdata lexer resolve obj' ss s5) as [[obj2| |] s6] eqn:Er;
    try discriminate.
  pose proof (grows_readstream _ _ _ _ _ Er) as G6.
  destruct (readstream_shape _ _ _ _ _ _ _ _ Er) as [d ->].
  destruct (set_stream_shape obj' d) as [_ Hn2]. rewrite Hn' in Hn2.
  intros [= _ <-].
  assert (G : grows st s6).
  { eapply grows_trans; [exact G3|]. eapply grows_trans; [exact G4|].
    eapply grows_trans; [exact G5|exact G6]. }
  intros k0 v0 Hk0 Hn0. cbn.
  destruct (decide (k0 = k)) as [->|Hne].
  - rewrite lookup_insert_eq. eauto.
  - rewrite lookup_insert_ne by congruence. apply (G k0 v0 Hk0 Hn0).
Qed.

Lemma grows_loadindirect_with fuel k :
  returns grows (loadindirect_with fdata lexer resolve fuel k).
Proof.
  intros st v st'. unfold loadindirect_with. mred.
  destruct (indirect_objects st !! k) as [e|] eqn:Ek;
    [|intros [= _ <-]; apply grows_refl].
  destruct e; try (intros [= _ <-]; apply grows_refl).
  destruct (_ =? 0).
  { intros [= _ <-]. apply keeps_grows, keeps_frame; reflexivity. }
  destruct (read_header fdata lexer k _ st) as [[found| |] s1] eqn:Eh;
    try discriminate.
  pose proof (keeps_grows _ _ (keeps_read_header fdata lexer _ _ _ _ _ Eh)) as G1.
  destruct found; cbn [negb]; [|intros [= _ <-]; exact G1].
  destruct (read_object lexer fuel s1) as [[obj| |] s2] eqn:Eo; try discriminate.
  pose proof (keeps_grows _ _ (keeps_read_object lexer _ _ _ _ Eo)) as G2.
  intros Hreg. eapply grows_trans; [exact G1|]. eapply grows_trans; [exact G2|].
  eapply grows_register_object, Hreg.
Qed.

End GrowsWith.

Lemma grows_loadindirect fuel k : returns grows (loadindirect fdata lexer fuel k).
Proof.
  revert k. induction fuel as [|fuel IH]; intros k;
    rewrite loadindirect_unfold; apply grows_loadindirect_with.
  - intros k' st a st'. discriminate.
  - exact IH.
Qed.


(** A header check that fails has moved the source and logged one
    warning. *)
Lemma read_header_false k o st st' :
  read_header fdata lexer k o st = (Ret false, st') ->
  exists fl ts,
    st' = set_log (log st ++ [(Warning, "Expected indirect object")])
            (set_floc fl (set_tokstart ts st)).
Proof.
  unfold read_header, resync. mred.
  destruct (multiple lexer 3 (set_floc o st)) as [[objid| |] s1] eqn:Em;
    try discriminate.
  destruct (multiple_moves _ _ _ _ Em) as (fl1 & ts1 & ->).
  destruct (header_ok k objid); [discriminate|].
  unfold next. cbn [floc set_floc].
  destruct (lexer o) as [[[t ts] fl]|]; [|discriminate].
  repeat match goal with
         | |- context [if ?b then _ else _] => destruct b
         | |- context [match ?x with Some _ => _ | None => _ end] => destruct x
         end; try discriminate; intros [= <-]; eexists _, _; reflexivity.
Qed.

(** A key that does not load: [None], one warning, and nothing else but
    the source moved. *)
Lemma loadindirect_fails fuel k st :
  unresolved st k -> fails_to_load fdata lexer (obj_offsets st) k ->
  exists w fl ts,
    fst w = Warning
    /\ loadindirect fdata lexer fuel k st
       = (Ret PyNone, set_log (log st ++ [w]) (set_floc fl (set_tokstart ts st))).
Proof.
  intros Hu Hf. rewrite loadindirect_unfold.
  destruct (Z.eq_dec (default 0 (obj_offsets st !! k)) 0) as [Hoff|Hoff].
  { rewrite loadindirect_with_absent by assumption.
    exists (Warning, "Did not find PDF object"), (floc st), (tokstart st).
    split; [|rewrite set_floc_tokstart_id]; reflexivity. }
  destruct Hf as [Hf|Hf]; [contradiction|].
  rewrite loadindirect_with_present by assumption. mred.
  pose proof (read_header_anywhere fdata lexer k (default 0 (obj_offsets st !! k))
                st (fresh 0)) as Hh.
  rewrite Hf in Hh.
  destruct (read_header fdata lexer k _ st) as [r s1] eqn:Eh. cbn [fst] in Hh.
  subst r. destruct (read_header_false _ _ _ _ Eh) as (fl & ts & ->).
  exists (Warning, "Expected indirect object"), fl, ts. split; reflexivity.
Qed.

(** A load that returns and leaves its key deferred is one of a key
    that does not load. *)
Lemma deferred_after_load fuel k st v st' :
  consistent st ->
  loadindirect fdata lexer fuel k st = (Ret v, st') ->
  k ∈ deferred_objects st' ->
  fails_to_load fdata lexer (obj_offsets st) k.
Proof.
  intros Hc Hrun Hin.
  pose proof (loadindirect_loads fdata lexer _ _ _ _ _ Hrun) as (Hc1 & _ & _).
  specialize (Hc1 Hc).
  revert Hrun. rewrite loadindirect_unfold.
  set (resolve := fun k' => match fuel with
                            | O => diverge
                            | S f => loadindirect fdata lexer f k'
                            end).
  assert (Hres : forall k', respects loads (resolve k')).
  { intros k'. subst resolve. destruct fuel; [lstep|apply loadindirect_loads]. }
  destruct (indirect_objects st !! k) as [e|] eqn:Ek.
  2:{ unfold loadindirect_with. mred. rewrite Ek. intros [= _ <-].
      apply Hc in Hin. destruct Hin as [k' Hk']. congruence. }
  destruct (is_PdfIndirect e) eqn:Ep.
  2:{ unfold loadindirect_with. mred. rewrite Ek.
      destruct e; try discriminate; intros [= _ <-];
        apply Hc in Hin; destruct Hin as [k' Hk']; congruence. }
  assert (Hu : unresolved st k) by (destruct e; try discriminate; eexists; exact Ek).
  destruct (Z.eq_dec (default 0 (obj_offsets st !! k)) 0) as [Hoff|Hoff];
    [intros _; left; exact Hoff|].
  rewrite loadindirect_with_present by assumption. mred.
  destruct (read_header fdata lexer k _ st) as [[found| |] s1] eqn:Eh;
    try discriminate.
  pose proof (keeps_read_header fdata lexer _ _ _ _ _ Eh) as K1.
  destruct found; cbn [negb].
  - destruct (read_object lexer fuel s1) as [[obj| |] s2] eqn:Eo; try discriminate.
    pose proof (keeps_read_object lexer _ _ _ _ Eo) as K2.
    intros Hreg.
    eapply register_object_loads in Hreg as [_ Hv];
      [|exact Hres|eapply read_object_shape, Eo
       |eapply keeps_unresolved; [exact K2|];
        eapply keeps_unresolved; [exact K1|]; exact Hu].
    destruct (Hv v eq_refl) as [Hv1 Hv2].
    apply Hc1 in Hin. destruct Hin as [k' Hk'].
    rewrite Hv1 in Hk'. injection Hk' as ->. discriminate.
  - intros _. right.
    rewrite <- (read_header_anywhere fdata lexer k _ st (fresh 0)), Eh. reflexivity.
Qed.

Lemma attempted_impl (P Q : key -> Prop) s :
  (forall k, Q k -> P k) -> attempted fdata lexer P s -> attempted fdata lexer Q s.
Proof. intros H Ha k Hk. apply Ha, H, Hk. Qed.

(** One load keeps what is known of the keys tried so far, and adds its
    key to them. *)
Lemma load_attempted fuel k (P : key -> Prop) s v s' :
  consistent s -> attempted fdata lexer P s ->
  (exists v0, indirect_objects s !! k = Some v0 /\ is_None v0 = false) ->
  loadindirect fdata lexer fuel k s = (Ret v, s') ->
  consistent s' /\ obj_offsets s' = obj_offsets s /\ grows s s'
  /\ attempted fdata lexer (fun k0 => P k0 \/ k0 = k) s'.
Proof.
  intros Hc Ha Hk Hrun.
  pose proof (loadindirect_loads fdata lexer _ _ _ _ _ Hrun) as (Hc1 & Hl & Ho).
  specialize (Hc1 Hc).
  pose proof (grows_loadindirect _ _ _ _ _ Hrun) as Hg.
  split; [exact Hc1|]. split; [exact Ho|]. split; [exact Hg|].
  intros k0 [Hp| ->].
  - destruct (Ha k0 Hp) as [(v0 & Hv0 & Hn0) Hf]. split; [apply (Hg _ _ Hv0 Hn0)|].
    intros Hin. rewrite Ho.
    destruct (decide (k0 ∈ deferred_objects s)) as [Hd|Hd]; [apply Hf, Hd|].
    exfalso.
    destruct (is_PdfIndirect v0) eqn:Ep.
    + apply Hd, Hc. destruct v0; try discriminate. eexists. exact Hv0.
    + apply Hc1 in Hin. destruct Hin as [k' Hk'].
      rewrite (Hl _ _ Hv0 Hn0 Ep) in Hk'. injection Hk' as ->. discriminate.
  - destruct Hk as (v0 & Hv0 & Hn0). split; [apply (Hg _ _ Hv0 Hn0)|].
    intros Hin. rewrite Ho. eapply deferred_after_load; eassumption.
Qed.

Lemma load_each_attempted fuel keys : forall (P : key -> Prop) s s',
  consistent s -> attempted fdata lexer P s ->
  (forall k, k ∈ keys ->
     exists v0, indirect_objects s !! k = Some v0 /\ is_None v0 = false) ->
  load_each fdata lexer fuel keys s = (Ret tt, s') ->
  consistent s' /\ obj_offsets s' = obj_offsets s
  /\ attempted fdata lexer (fun k0 => P k0 \/ k0 ∈ keys) s'.
Proof.
  induction keys as [|k keys IH]; intros P s s' Hc Ha Hk; cbn [load_each].
  - intros [= <-]. split; [exact Hc|]. split; [reflexivity|].
    eapply attempted_impl; [|exact Ha]. intros k [H|H]; [exact H|inversion H].
  - unfold bind at 1.
    destruct (loadindirect fdata lexer fuel k s) as [[v| |] s1] eqn:E; try discriminate.
    intros Hrest.
    destruct (load_attempted _ _ P _ _ _ Hc Ha (Hk k ltac:(left)) E)
      as (Hc1 & Ho1 & Hg1 & Ha1).
    destruct (IH _ s1 s' Hc1 Ha1) as (Hc' & Ho' & Ha'); [|exact Hrest|].
    { intros k0 Hk0. destruct (Hk k0 ltac:(right; exact Hk0)) as (v0 & Hv0 & Hn0).
      apply (Hg1 _ _ Hv0 Hn0). }
    split; [exact Hc'|]. split; [congruence|].
    eapply attempted_impl; [|exact Ha'].
    intros k0 [H|H]; [left; left; exact H|].
    apply elem_of_cons in H as [->|H]; [left; right; reflexivity|right; exact H].
Qed.

(** When [read_all] returns, the keys still deferred do not load. *)
Lemma read_all_loop_attempted lfuel fuel : forall prev s s',
  consistent s -> attempted fdata lexer (fun k => k ∈ prev) s ->
  read_all_loop fdata lexer lfuel fuel prev s = (Ret tt, s') ->
  consistent s'
  /\ forall k, k ∈ deferred_objects s' ->
       fails_to_load fdata lexer (obj_offsets s') k.
Proof.
  induction fuel as [|fuel IH]; intros prev s s' Hc Ha; cbn [read_all_loop];
    [discriminate|].
  mred.
  destruct (bool_decide_reflect (deferred_objects s ∖ prev = ∅)) as [He|Hne].
  - intros [= <-]. split; [exact Hc|]. intros k Hk.
    apply Ha; [|exact Hk].
    destruct (decide (k ∈ prev)) as [Hp|Hp]; [exact Hp|].
    assert (Hin : k ∈ deferred_objects s ∖ prev)
      by (apply elem_of_difference; split; assumption).
    rewrite He in Hin. apply not_elem_of_empty in Hin. destruct Hin.
  - destruct (load_each fdata lexer lfuel (elements (deferred_objects s ∖ prev)) s)
      as [[[]| |] s1] eqn:E; try discriminate.
    intros Hrest.
    assert (Hkeys : forall k, k ∈ elements (deferred_objects s ∖ prev) ->
              exists v0, indirect_objects s !! k = Some v0 /\ is_None v0 = false).
    { intros k Hk. apply elem_of_elements, elem_of_difference in Hk as [Hk _].
      apply Hc in Hk. destruct Hk as [k' Hk']. eauto. }
    destruct (load_each_attempted _ _ _ _ _ Hc Ha Hkeys E) as (Hc1 & Ho1 & Ha1).
    apply (IH _ _ _ Hc1) in Hrest; [exact Hrest|].
    eapply attempted_impl; [|exact Ha1].
    intros k Hk. apply elem_of_union in Hk as [Hk|Hk]; [left; exact Hk|].
    destruct (decide (k ∈ prev)) as [Hp|Hp]; [left; exact Hp|].
    right. apply elem_of_elements, elem_of_difference. split; assumption.
Qed.

(** Loads of keys that do not load log a warning each. *)
Lemma load_each_fails fuel keys : forall s,
  (forall k, k ∈ keys ->
     unresolved s k /\ fails_to_load fdata lexer (obj_offsets s) k) ->
  exists ws fl ts,
    load_each fdata lexer fuel keys s
    = (Ret tt, set_log (log s ++ ws) (set_floc fl (set_tokstart ts s)))
    /\ length ws = length keys
    /\ Forall (fun w : level * string => fst w = Warning) ws.
Proof.
  induction keys as [|k keys IH]; intros s Hk; cbn [load_each].
  - exists [], (floc s), (tokstart s). rewrite app_nil_r.
    split; [|split; [reflexivity|constructor]].
    destruct s; reflexivity.
  - destruct (Hk k ltac:(left)) as [Hu Hf].
    destruct (loadindirect_fails fuel k s Hu Hf) as (w & fl & ts & Hw & Hrun).
    unfold bind at 1. rewrite Hrun.
    destruct (IH (set_log (log s ++ [w]) (set_floc fl (set_tokstart ts s))))
      as (ws & fl' & ts' & Hrest & Hlen & Hall).
    { intros k0 Hk0. destruct (Hk k0 ltac:(right; exact Hk0)) as [Hu0 Hf0].
      split; [exact Hu0|exact Hf0]. }
    exists (w :: ws), fl', ts'. rewrite Hrest. split; [|split].
    + cbn. rewrite <- app_assoc. reflexivity.
    + cbn. rewrite Hlen. reflexivity.
    + constructor; assumption.
Qed.

(** C9, as the code has it.  A second [read_all] right after a first one
    that returned loads nothing, changes nothing and logs nothing when
    the first call left no deferred key with a placeholder for entry, in
    particular when it left no key deferred.  When the deferred keys
    were the keys with a placeholder as the first call began, the second
    call returns and loads no object whatever the first call left: the
    table, the deferred set, the offsets and the rest of the loader are
    as before, but for the source, which has moved, and the log, which
    has one more warning for each key still deferred. *)
Theorem read_all_repeat_noop (fuel fuel' : nat) (st st1 : reader) :
  read_all fdata lexer fuel st = (Ret tt, st1) ->
  ((forall k, k ∈ deferred_objects st1 -> ~ unresolved st1 k) ->
     read_all fdata lexer (S (S fuel')) st1 = (Ret tt, st1))
  /\ (consistent st ->
      exists ws fl ts,
        read_all fdata lexer (S (S fuel')) st1
        = (Ret tt, set_log (log st1 ++ ws) (set_floc fl (set_tokstart ts st1)))
        /\ length ws = size (deferred_objects st1)
        /\ Forall (fun w : level * string => fst w = Warning) ws).
Proof.
  intros Hfirst. split.
  - intros Hd. unfold read_all. cbn [read_all_loop]. mred.
    destruct (bool_decide (deferred_objects st1 ∖ ∅ = ∅)); [reflexivity|].
    rewrite load_each_settled.
    + rewrite (left_id_L (∅ : gset key) (∪)), difference_diag_L.
      rewrite bool_decide_eq_true_2 by reflexivity. reflexivity.
    + intros k Hk. apply Hd. apply elem_of_elements in Hk.
      apply elem_of_difference in Hk as [Hk _]. exact Hk.
  - intros Hc.
    destruct (read_all_loop_attempted fuel fuel ∅ st st1 Hc) as [Hc1 Hfail];
      [intros k Hk; apply not_elem_of_empty in Hk; destruct Hk|exact Hfirst|].
    unfold read_all. cbn [read_all_loop]. mred.
    rewrite difference_empty_L.
    destruct (bool_decide_reflect (deferred_objects st1 = ∅)) as [He|Hne].
    + exists [], (floc st1), (tokstart st1). rewrite app_nil_r, He, size_empty.
      split; [|split; [reflexivity|constructor]].
      destruct st1; reflexivity.
    + destruct (load_each_fails (S (S fuel')) (elements (deferred_objects st1)) st1)
        as (ws & fl & ts & Hrun & Hlen & Hall).
      { intros k Hk. apply elem_of_elements in Hk. split; [apply Hc1, Hk|apply Hfail, Hk]. }
      exists ws, fl, ts. rewrite Hrun. cbn [deferred_objects set_log set_floc set_tokstart].
      rewrite (left_id_L (∅ : gset key) (∪)), difference_diag_L.
      rewrite bool_decide_eq_true_2 by reflexivity.
      split; [reflexivity|]. split; [exact Hlen|exact Hall].
Qed.

End Repeat.

Lemma one_missing_consistent : consistent one_missing.
Proof.
  intros k. unfold unresolved. cbn.
  rewrite elem_of_singleton. split.
  - intros ->. eexists. apply lookup_singleton_eq.
  - intros [k' Hk]. apply lookup_singleton_Some in Hk as [Hk _]. congruence.
Qed.

(** C9 at two loaders: on [stream_ok] the first call loads object 1 and
    the second changes nothing; on the empty buffer the key (1, 0) does
    not load, and the second call logs its warning again and changes
    nothing else. *)
Lemma read_all_repeat_noop_witness :
  (exists st1,
     read_all stream_ok (ws_lexer stream_ok) 20 one_deferred = (Ret tt, st1)
     /\ deferred_objects st1 = ∅
     /\ read_all stream_ok (ws_lexer stream_ok) 20 st1 = (Ret tt, st1))
  /\ (exists st1 ws fl ts,
        read_all "" (ws_lexer "") 5 one_missing = (Ret tt, st1)
        /\ read_all "" (ws_lexer "") 5 st1
           = (Ret tt, set_log (log st1 ++ ws) (set_floc fl (set_tokstart ts st1)))
        /\ length ws = 1%nat).
Proof.
  split.
  - eexists. split; [vm_compute; reflexivity|]. split; [reflexivity|].
    apply (read_all_repeat_noop stream_ok (ws_lexer stream_ok) 20 18 one_deferred);
      [reflexivity|].
    intros k Hk. apply not_elem_of_empty in Hk. destruct Hk.
  - destruct (read_all "" (ws_lexer "") 5 one_missing) as [o st1] eqn:E.
    assert (Ho : o = Ret tt).
    { pose proof (f_equal fst E) as E1. vm_compute in E1. symmetry. exact E1. }
    subst o.
    destruct (proj2 (read_all_repeat_noop "" (ws_lexer "") 5 3 one_missing st1 E)
                one_missing_consistent) as (ws & fl & ts & H1 & H2 & _).
    exists st1, ws, fl, ts. split; [reflexivity|]. split; [exact H1|].
    rewrite H2. pose proof (f_equal snd E) as E2. cbn [snd] in E2.
    rewrite <- E2.
    replace (deferred_objects (read_all "" (ws_lexer "") 5 one_missing).2)
      with ({[ (1, 0) ]} : gset key) by (vm_compute; reflexivity).
    apply size_singleton.
Defined.

(** ** Cross-reference sections *)

Section Xref.
Variable fdata : string.
Variable lexer : Z -> option (string * Z * Z).

Lemma add_all_cons e es m :
  add_all (e :: es) m
  = add_all es (match m !! fst e with Some _ => m | None => <[ fst e := snd e ]> m end).
Proof. reflexivity. Qed.

(** Every entry handed to [add_all] ends up bound. *)
Lemma add_all_keeps es : forall m k v, m !! k = Some v -> add_all es m !! k = Some v.
Proof.
  induction es as [|e es IH]; intros m k v H; [exact H|].
  rewrite add_all_cons. apply IH.
  destruct (m !! fst e) eqn:E; [exact H|].
  rewrite lookup_insert_ne; [exact H|]. intros <-. congruence.
Qed.

Lemma add_all_binds es : forall m k o, (k, o) ∈ es -> is_Some (add_all es m !! k).
Proof.
  induction es as [|e es IH]; intros m k o H.
  - inversion H.
  - rewrite add_all_cons. apply elem_of_cons in H as [<-|H]; [|eapply IH, H].
    cbn [fst snd]. destruct (m !! k) as [v|] eqn:E.
    + exists v. apply add_all_keeps, E.
    + exists o. apply add_all_keeps, lookup_insert_eq.
Qed.

Lemma objnum_added a b st :
  objnum (set_all_offsets a (set_obj_offsets b st)) = objnum st.
Proof. reflexivity. Qed.

(** The second pass agrees with the scan of the specification. *)
Lemma xref_recover_lines_scan lines :
  forall st,
    match scan lines (objnum st) with
    | Some es =>
        exists st',
          xref_recover_lines lines st = (Ret tt, st')
          /\ obj_offsets st' = add_all es (obj_offsets st)
          /\ all_offsets st' = (all_offsets st ++ map snd es)%list
          /\ log st' = log st /\ floc st' = floc st
    | None =>
        exists e st', xref_recover_lines lines st = (Raise e, st')
    end.
Proof.
  induction lines as [|line r IH]; intros st; cbn [scan xref_recover_lines].
  - exists st. rewrite app_nil_r. auto.
  - unfold classify, xref_recover_line. mred.
    destruct (Py.split line) as [|a [|b [|c [|d l]]]]; mred.
    + apply IH.
    + unfold log_error. mred. eauto.
    + destruct (Py.int a) as [n|]; mred; [|eauto].
      specialize (IH (set_objnum (Some n) st)). cbn [objnum set_objnum] in IH.
      exact IH.
    + destruct (Py.int a) as [o|]; mred; [|eauto].
      destruct (Py.int b) as [g|]; mred; [|eauto].
      unfold bound_objnum, kept. mred.
      destruct (objnum st) as [n|] eqn:En; mred.
      2:{ destruct (negb (o =? 0) && String.eqb c "n"); mred;
          rewrite ?En; mred; eauto. }
      destruct (negb (o =? 0) && String.eqb c "n") eqn:Ek; mred.
      * unfold add_entry. mred. rewrite En. mred.
        rewrite !objnum_added, En. mred.
        specialize (IH (set_objnum (Some (n + 1))
                         (set_all_offsets (all_offsets st ++ [o])
                            (set_obj_offsets
                               match obj_offsets st !! (n, g) with
                               | Some _ => obj_offsets st
                               | None => <[(n, g):=o]> (obj_offsets st)
                               end st)))).
        cbn [objnum set_objnum] in IH.
        destruct (scan r (Some (n + 1))) as [es|]; [|exact IH].
        destruct IH as (st' & H1 & H2 & H3 & H4 & H5).
        exists st'. split; [exact H1|]. rewrite H2, H3, H4, H5.
        cbn. rewrite <- app_assoc. auto.
      * rewrite En. mred.
        specialize (IH (set_objnum (Some (n + 1)) st)).
        cbn [objnum set_objnum] in IH.
        destruct (scan r (Some (n + 1))) as [es|]; exact IH.
    + unfold log_error. mred. eauto.
Qed.

(** What the scan keeps are the [n]-lines with an offset, and only those. *)
Lemma scan_entries lines :
  forall cur es, scan lines cur = Some es ->
    (forall line o g, line ∈ lines -> classify line = Entry o g "n" -> o <> 0 ->
       exists n, ((n, g), o) ∈ es)
    /\ (forall k o, (k, o) ∈ es ->
          exists line, line ∈ lines /\ classify line = Entry o (snd k) "n" /\ o <> 0).
Proof.
  induction lines as [|l r IH]; intros cur es; cbn [scan].
  - intros [= <-]. split; [intros * H; inversion H|intros * H; inversion H].
  - destruct (classify l) as [|n|o g c|] eqn:El; try discriminate.
    + intros H. destruct (IH _ _ H) as [A B]. split.
      * intros line o g Hin Hc Ho. apply elem_of_cons in Hin as [->|Hin];
          [congruence|eauto].
      * intros k o Hin. destruct (B _ _ Hin) as (line & ? & ?).
        exists line. split; [now apply elem_of_cons; right|assumption].
    + intros H. destruct (IH _ _ H) as [A B]. split.
      * intros line o g Hin Hc Ho. apply elem_of_cons in Hin as [->|Hin];
          [congruence|eauto].
      * intros k o Hin. destruct (B _ _ Hin) as (line & ? & ?).
        exists line. split; [now apply elem_of_cons; right|assumption].
    + destruct cur as [n|]; try discriminate.
      destruct (scan r (Some (n + 1))) as [es'|] eqn:Es; try discriminate.
      destruct (IH _ _ Es) as [A B]. intros [= <-]. split.
      * intros line o' g' Hin Hc Ho. apply elem_of_cons in Hin as [->|Hin].
        -- rewrite El in Hc. injection Hc as -> -> ->.
           exists n. unfold kept.
           destruct (Z.eqb_spec o' 0); [contradiction|]. cbn. left.
        -- destruct (A _ _ _ Hin Hc Ho) as [m Hm]. exists m.
           destruct (kept o c); [right|]; exact Hm.
      * intros k o' Hin.
        assert (Hcase : (k, o') = ((n, g), o) /\ kept o c = true \/ (k, o') ∈ es').
        { destruct (kept o c); [|now right].
          apply elem_of_cons in Hin as [Hin|Hin]; [left|right]; auto. }
        destruct Hcase as [[[= -> ->] Hk]|Hin'].
        -- exists l. split; [left|]. unfold kept in Hk.
           apply andb_true_iff in Hk as [Ho Hc].
           apply String.eqb_eq in Hc as ->. split; [exact El|].
           intros ->. discriminate.
        -- destruct (B _ _ Hin') as (line & ? & ?).
           exists line. split; [now apply elem_of_cons; right|assumption].
Qed.

Lemma parsexref_falls_back fuel st st0 e st_s :
  next lexer st = (Ret "xref", st0) ->
  xref_strict lexer fuel (set_objnum None st0) = (Raise e, st_s) ->
  parsexref fdata lexer fuel st = xref_recover fdata lexer (floc st0) st_s.
Proof.
  intros Hn Hs. unfold parsexref. mred. rewrite Hn. mred.
  change (String.eqb "xref" "xref") with true. cbn [negb]. mred.
  rewrite Hs. reflexivity.
Qed.

(** C3, as the code has it.  When the strict pass over a section fails,
    the section is scanned again by lines, from just after [xref] up to
    the last [trailer] of the buffer.  If the scan of the specification
    accepts these lines, [parsexref] returns with the warning logged, the
    entries kept are entered insert-if-absent, every [n]-line with an
    offset is among them, and only such lines are; if the scan rejects
    them, [parsexref] raises the table-format error. *)
Theorem parsexref_recovery
    (fuel : nat) (st st0 st_s : reader) (e : exn) (tok : string) (ts fl : Z) :
  next lexer st = (Ret "xref", st0) ->
  xref_strict lexer fuel (set_objnum None st0) = (Raise e, st_s) ->
  let start := floc st0 in
  let end_ := trailer_rindex fdata start in
  let table := Py.splitlines (Py.slice fdata start end_) in
  0 <= end_ ->
  lexer end_ = Some (tok, ts, fl) ->
  match scan table (objnum st_s) with
  | Some es =>
      exists st',
        parsexref fdata lexer fuel st = (Ret tt, st')
        /\ log st' = (log st_s ++ [(Warning, "Badly formatted xref table")])%list
        /\ obj_offsets st' = add_all es (obj_offsets st_s)
        /\ floc st' = fl
        /\ (forall line o g, line ∈ table -> classify line = Entry o g "n" ->
              o <> 0 ->
              exists n, ((n, g), o) ∈ es /\ is_Some (obj_offsets st' !! (n, g)))
        /\ (forall k o, (k, o) ∈ es ->
              exists line, line ∈ table /\ classify line = Entry o (snd k) "n")
  | None =>
      exists st',
        parsexref fdata lexer fuel st
        = (Raise (PdfParseError "Invalid table format"), st')
        /\ floc st' = start
  end.
Proof.
  intros Hn Hs start end_ table Hend Hlex.
  rewrite (parsexref_falls_back _ _ _ _ _ Hn Hs).
  unfold xref_recover. fold start. fold end_. fold table. mred.
  destruct (Z.ltb_spec end_ 0) as [?|_]; [lia|]. mred.
  pose proof (xref_recover_lines_scan table st_s) as Hscan.
  destruct (scan table (objnum st_s)) as [es|] eqn:Es.
  - destruct Hscan as (st_l & H1 & H2 & H3 & H4 & H5).
    rewrite H1. mred. unfold next. cbn [floc set_floc]. rewrite Hlex.
    eexists. split; [reflexivity|]. cbn. rewrite H4, H2.
    destruct (scan_entries _ _ _ Es) as [A B].
    repeat split; auto.
    + intros line o g Hin Hc Ho. destruct (A _ _ _ Hin Hc Ho) as [n Hn'].
      exists n. split; [exact Hn'|]. eapply add_all_binds, Hn'.
    + intros k o Hin. destruct (B _ _ Hin) as (line & ? & ? & _). eauto.
  - destruct Hscan as (e' & st_l & H1). rewrite H1. mred.
    eexists. split; reflexivity.
Qed.

End Xref.

Lemma parsexref_recovery_witness :
  exists st',
    parsexref xref_bad_count (ws_lexer xref_bad_count) 20 (fresh 0) = (Ret tt, st')
    /\ log st' = [(Warning, "Badly formatted xref table")]
    /\ obj_offsets st' = {[ (1, 0) := 10; (2, 0) := 20 ]}.
Proof.
  pose proof (parsexref_recovery xref_bad_count (ws_lexer xref_bad_count) 20
                (fresh 0) (set_floc 4 (fresh 0))
                (set_floc 8 (set_tokstart 7 (fresh 0))) ValueError
                "trailer" 66 73 eq_refl eq_refl
                ltac:(vm_compute; discriminate) eq_refl) as H.
  cbv zeta in H.
  change (scan _ _) with (Some [((1, 0), 10); ((2, 0), 20)]) in H.
  destruct H as (st' & H1 & H2 & H3 & _).
  exists st'. split; [exact H1|]. split; [exact H2|].
  rewrite H3. vm_compute. reflexivity.
Defined.

(** C3 as stated fails.  In [xref_two_trailers] the lines from [xref] up
    to the next [trailer] are a subsection line and one [n]-entry, which
    the scan accepts; the code scans up to the last [trailer], meets the
    first [trailer] as a line of one token, and raises. *)
Lemma recovery_scans_to_last_trailer :
  let f := xref_two_trailers in
  let next_trailer := Py.find f "trailer" 4 (Py.len f) in
  next_trailer = 28 /\ trailer_rindex f 4 = 50
  /\ scan (Py.splitlines (Py.slice f 4 next_trailer)) None = Some [((0, 0), 10)]
  /\ scan (Py.splitlines (Py.slice f 4 (trailer_rindex f 4))) None = None
  /\ fst (parsexref f (ws_lexer f) 20 (fresh 0))
     = Raise (PdfParseError "Invalid table format").
Proof. vm_compute. repeat split. Qed.

(** ** Dictionaries *)

Lemma dict_get_put d k v k' :
  dict_get (dict_put d k v) k' = if String.eqb k k' then Some v else dict_get d k'.
Proof.
  induction d as [|[k0 v0] d IH]; cbn.
  - reflexivity.
  - destruct (String.eqb_spec k0 k) as [->|Hne]; cbn.
    + destruct (String.eqb k k'); reflexivity.
    + rewrite IH. destruct (String.eqb_spec k0 k') as [->|]; [|reflexivity].
      destruct (String.eqb_spec k k'); [congruence|reflexivity].
Qed.

Lemma dict_get_del_ne d k k' : k <> k' -> dict_get (dict_del d k) k' = dict_get d k'.
Proof.
  intros Hne. induction d as [|[k0 v0] d IH]; [reflexivity|]. cbn.
  destruct (String.eqb_spec k0 k) as [->|].
  - rewrite IH. destruct (String.eqb_spec k k'); [contradiction|reflexivity].
  - cbn. rewrite IH. reflexivity.
Qed.

Lemma dict_get_absent d k : k ∉ map fst d -> dict_get d k = None.
Proof.
  induction d as [|[k0 v0] d IH]; intros H; [reflexivity|]. cbn in *.
  rewrite not_elem_of_cons in H. destruct H as [H1 H2].
  destruct (String.eqb_spec k0 k); [congruence|]. apply IH, H2.
Qed.

Lemma dict_del_keys d k x : x ∈ map fst (dict_del d k) -> x ∈ map fst d.
Proof.
  induction d as [|[k0 v0] d IH]; [auto|]. cbn.
  destruct (String.eqb k0 k); cbn.
  - intros H. right. apply IH, H.
  - rewrite !elem_of_cons. intros [->|H]; [now left|right; apply IH, H].
Qed.

Lemma dict_ok_del d k : dict_ok d -> dict_ok (dict_del d k).
Proof.
  intros [Hn Hv]. induction d as [|[k0 v0] d IH]; [split; constructor|].
  cbn in Hn. apply NoDup_cons in Hn as [Hk Hn]. apply Forall_cons in Hv as [Hv0 Hv].
  destruct (IH Hn Hv) as [IH1 IH2]. cbn.
  destruct (String.eqb k0 k); [split; assumption|].
  split; cbn.
  - apply NoDup_cons. split; [|exact IH1].
    intros H. apply Hk. eapply dict_del_keys, H.
  - constructor; assumption.
Qed.

Lemma dict_put_keys d k v x : x ∈ map fst (dict_put d k v) -> x = k \/ x ∈ map fst d.
Proof.
  induction d as [|[k0 v0] d IH]; cbn.
  - rewrite elem_of_cons. intros [->|H]; [now left|now right].
  - destruct (String.eqb_spec k0 k) as [->|]; cbn; rewrite !elem_of_cons.
    + intros [->|H]; [now left|right; now right].
    + intros [->|H]; [right; now left|].
      destruct (IH H) as [->|H']; [now left|right; now right].
Qed.

Lemma dict_ok_put d k v : dict_ok d -> is_None v = false -> dict_ok (dict_put d k v).
Proof.
  intros [Hn Hv] Hnone. induction d as [|[k0 v0] d IH].
  - split; cbn; [apply NoDup_singleton|constructor; [exact Hnone|constructor]].
  - cbn in Hn. apply NoDup_cons in Hn as [Hk Hn]. apply Forall_cons in Hv as [Hv0 Hv].
    destruct (IH Hn Hv) as [IH1 IH2]. cbn.
    destruct (String.eqb_spec k0 k) as [->|Hne]; split; cbn.
    + apply NoDup_cons. split; assumption.
    + constructor; assumption.
    + apply NoDup_cons. split; [|exact IH1].
      intros H. apply dict_put_keys in H as [->|H]; [congruence|contradiction].
    + constructor; assumption.
Qed.

Lemma dict_ok_set d k v : dict_ok d -> dict_ok (dict_set d k v).
Proof.
  intros H. unfold dict_set. destruct (is_None v) eqn:E.
  - apply dict_ok_del, H.
  - apply dict_ok_put; assumption.
Qed.

(** [d.update(e)] for a dictionary [e] of the parser: a name of [e] has
    the value [e] gives it, any other name the value it had. *)
Lemma dict_update_get e : forall d k,
  dict_ok e ->
  dict_get (dict_update d e) k
  = match dict_get e k with Some v => Some v | None => dict_get d k end.
Proof.
  unfold dict_update.
  induction e as [|[k0 v0] e IH]; intros d k [Hn Hv]; [reflexivity|].
  cbn in Hn. apply NoDup_cons in Hn as [Hk Hn]. apply Forall_cons in Hv as [Hv0 Hv].
  cbn [fold_left fst snd dict_get]. rewrite IH by (split; assumption).
  cbn [snd] in Hv0. unfold dict_set. rewrite Hv0, dict_get_put.
  destruct (String.eqb_spec k0 k) as [->|Hne]; [|reflexivity].
  rewrite (dict_get_absent _ _ Hk). reflexivity.
Qed.

Section ParsedDicts.
Variable fdata : string.
Variable lexer : Z -> option (string * Z * Z).

Lemma readdict_loop_ok fuel : forall acc tok st v st',
  dict_ok acc ->
  readdict_loop lexer fuel acc tok st = (Ret v, st') ->
  exists d, v = PdfDict d None None /\ dict_ok d.
Proof.
  induction fuel as [|fuel IH]; intros acc tok st v st' Hok; cbn [readdict_loop];
    [discriminate|].
  destruct (String.eqb tok ">>"); [intros [= <- _]; eauto|].
  destruct (negb _); [discriminate|]. cbn [when].
  unfold bind at 1. unfold ret at 1.
  unfold bind at 1. destruct (next lexer st) as [[t| |] st1]; try discriminate.
  destruct (special t).
  - unfold bind at 1. destruct (call_special _ _ _ st1) as [[r| |] st2]; try discriminate.
    unfold bind at 1. destruct (next lexer st2) as [[t'| |] st3]; try discriminate.
    apply IH, dict_ok_set, Hok.
  - unfold bind at 1. destruct (next lexer st1) as [[t'| |] st2]; try discriminate.
    destruct (_ && _).
    + unfold bind at 1. destruct (next lexer st2) as [[r| |] st3]; try discriminate.
      destruct (negb _); [discriminate|]. cbn [when].
      unfold bind at 1. unfold ret at 1.
      unfold bind at 1. destruct (findindirect _ _ st3) as [[ref| |] st4]; try discriminate.
      unfold bind at 1. destruct (next lexer st4) as [[t''| |] st5]; try discriminate.
      apply IH, dict_ok_set, Hok.
    + apply IH, dict_ok_set, Hok.
Qed.

(** The trailer a section hands over is a dictionary of the parser. *)
Lemma read_section_ok pfuel first st d st' :
  read_section fdata lexer pfuel first st = (Ret d, st') ->
  exists items, d = PdfDict items None None /\ dict_ok items.
Proof.
  unfold read_section, readdict. mred0.
  destruct (parsexref fdata lexer pfuel _) as [[[]| |] s1]; try discriminate.
  destruct (next lexer s1) as [[tok| |] s2]; try discriminate.
  destruct (negb _); [discriminate|].
  destruct (next lexer s2) as [[tok0| |] s3]; try discriminate.
  destruct (readdict_loop lexer pfuel [] tok0 s3) as [[v| |] s4] eqn:E;
    try discriminate.
  destruct (next lexer s4) as [[token| |] s5]; try discriminate.
  assert (H0 : dict_ok []) by (split; constructor).
  destruct (readdict_loop_ok _ _ _ _ _ _ H0 E) as (items & -> & Hok).
  destruct (_ && _); intros [= <- _]; eauto.
Qed.

End ParsedDicts.

(** ** Incremental updates *)

Lemma merge_offsets_cons m xtl last :
  merge_offsets (m :: xtl) last = m ∪ merge_offsets xtl last.
Proof.
  unfold merge_offsets. cbn [rev]. rewrite fold_left_app. reflexivity.
Qed.

(** Merged oldest-last, a key has the offset of the first section that
    lists it. *)
Lemma merge_offsets_first_binding xtl last k :
  merge_offsets xtl last !! k = first_binding k (xtl ++ [last]).
Proof.
  induction xtl as [|m xtl IH]; cbn [app first_binding].
  - unfold merge_offsets. cbn. destruct (last !! k); reflexivity.
  - rewrite merge_offsets_cons, lookup_union, IH.
    destruct (m !! k), (first_binding k (xtl ++ [last])); reflexivity.
Qed.

Section ChainFacts.
Variable fdata : string.
Variable lexer : Z -> option (string * Z * Z).
Variable resolve : key -> M value.
Variable pfuel : nat.

Lemma visits_nonempty first st secs :
  visits fdata lexer resolve pfuel first st secs -> secs <> [].
Proof. intros H; inversion H; discriminate. Qed.

(** With fuel for every section, the loop hands over what
    [loop_result] says. *)
Lemma xref_loop_visits first st secs :
  visits fdata lexer resolve pfuel first st secs ->
  forall xtl orig fuel,
    first = is_nil xtl -> (length secs <= fuel)%nat ->
    exists r,
      loop_result xtl orig secs = Some r
      /\ xref_loop fdata lexer resolve pfuel fuel xtl orig st = (Ret (fst r), snd r).
Proof.
  induction 1 as [first st d st1 st2 Hs Hp
                 |first st d st1 prev st2 p rest Hs Hp Hn Hi Hv IH];
    intros xtl orig fuel -> Hf.
  - destruct fuel as [|fuel]; [cbn in Hf; lia|].
    eexists. split; [reflexivity|].
    cbn [xref_loop]. mred0. rewrite Hs, Hp. reflexivity.
  - destruct fuel as [|fuel]; [cbn in Hf; lia|].
    cbn [length] in Hf.
    destruct (IH (xtl ++ [obj_offsets st2])%list
                (if is_nil xtl then Some (indirect_objects st2, del_Prev d)
                 else orig) fuel) as (r & Hr & Hl); [|lia|].
    { destruct xtl; reflexivity. }
    exists r. split.
    + cbn [loop_result]. pose proof (visits_nonempty _ _ _ Hv) as Hne.
      destruct rest; [contradiction|exact Hr].
    + cbn [xref_loop]. mred0. rewrite Hs, Hp, Hn.
      destruct (is_nil xtl); mred0; rewrite Hi; exact Hl.
Qed.

Lemma visits_offsets first st secs :
  visits fdata lexer resolve pfuel first st secs ->
  Forall (fun x : section_read => fst (fst x) = obj_offsets (snd x)) secs.
Proof. induction 1; constructor; auto. Qed.

Lemma loop_result_tail rest :
  forall xtl orig m d s, xtl <> [] ->
    loop_result xtl orig (rest ++ [(m, d, s)])
    = Some ((d, (xtl ++ map (fun x : section_read => fst (fst x)) rest)%list, orig), s).
Proof.
  induction rest as [|[[m0 d0] s0] rest IH]; intros xtl orig m d s Hx.
  - cbn. rewrite app_nil_r. reflexivity.
  - cbn [app loop_result map fst].
    destruct (rest ++ [(m, d, s)])%list eqn:E; [destruct rest; discriminate|].
    rewrite <- E. destruct xtl; [contradiction|].
    cbn [is_nil]. rewrite IH by (destruct xtl; discriminate).
    rewrite <- app_assoc. reflexivity.
Qed.

Lemma dict_get_del d k : dict_get (dict_del d k) k = None.
Proof.
  induction d as [|[k' v] d IH]; [reflexivity|]. cbn.
  destruct (String.eqb k' k) eqn:E; [exact IH|]. cbn. rewrite E. exact IH.
Qed.

(** C1.  The loop has read a first section and, by its [/Prev] links,
    the older ones down to a section with no [/Prev].  Then the load
    completes; a key has the offset of the first section, in the order
    met, that lists it, so the newest section wins; the table of
    indirect objects is the one snapshotted after the first trailer; and
    the trailer adopted is the first one, without its [/Prev]: every
    name of the first trailer but [/Prev] reads in the reader's entries
    as the first trailer has it, and [/Prev] and the names the first
    trailer lacks read as they did before. *)
Theorem load_xrefs_merges
    (fuel : nat) (st : reader) (m1 : gmap key Z) (d1 : value) (s1 : reader)
    (rest : list section_read) (mn : gmap key Z) (dn : value) (sn : reader) :
  visits fdata lexer resolve pfuel true (set_all_offsets [] st)
    ((m1, d1, s1) :: rest ++ [(mn, dn, sn)]) ->
  (length rest + 2 <= fuel)%nat ->
  let older := map (fun x : section_read => fst (fst x)) rest in
  let st' :=
    set_entries (dict_update (entries sn) (items_of (del_Prev d1)))
      (set_indirect_objects (indirect_objects s1)
         (set_obj_offsets (merge_offsets (m1 :: older) (obj_offsets sn)) sn)) in
  load_xrefs fdata lexer resolve pfuel fuel st = (Ret tt, st')
  /\ (forall k, obj_offsets st' !! k = first_binding k (m1 :: older ++ [mn]))
  /\ (forall k v, m1 !! k = Some v -> obj_offsets st' !! k = Some v)
  /\ indirect_objects st' = indirect_objects s1
  /\ entries st' = dict_update (entries sn) (items_of (del_Prev d1))
  /\ dict_get (items_of (del_Prev d1)) "/Prev" = None
  /\ (forall k v, k <> "/Prev" -> dict_get (items_of d1) k = Some v ->
        dict_get (entries st') k = Some v)
  /\ (forall k, k = "/Prev" \/ dict_get (items_of d1) k = None ->
        dict_get (entries st') k = dict_get (entries sn) k).
Proof.
  intros Hv Hf older st'.
  assert (Hd1 : exists items, d1 = PdfDict items None None /\ dict_ok items).
  { inversion Hv as [? ? ? ? ? Hs|? ? ? ? ? ? ? ? Hs]; subst;
      eapply read_section_ok, Hs. }
  destruct Hd1 as (items & -> & Hok).
  assert (Hent : forall k, dict_get (entries st') k
            = match dict_get (dict_del items "/Prev") k with
              | Some v => Some v
              | None => dict_get (entries sn) k
              end).
  { intros k. subst st'. cbn [entries set_entries del_Prev items_of dict_set is_None].
    apply dict_update_get, dict_ok_del, Hok. }
  assert (Hmn : mn = obj_offsets sn).
  { apply visits_offsets in Hv. rewrite Forall_cons, Forall_app in Hv.
    destruct Hv as (_ & _ & H). rewrite Forall_singleton in H. exact H. }
  assert (Hfirst : forall k, obj_offsets st' !! k = first_binding k (m1 :: older ++ [mn])).
  { intros k. subst st' mn. cbn [obj_offsets set_entries set_indirect_objects
                                  set_obj_offsets].
    apply (merge_offsets_first_binding (m1 :: older)). }
  split; [|split; [exact Hfirst|split; [|split; [reflexivity|split;
    [reflexivity|split; [|split]]]]]].
  - destruct (xref_loop_visits _ _ _ Hv [] None fuel eq_refl) as (r & Hr & Hl).
    { cbn [length]. rewrite length_app. cbn. lia. }
    cbn [loop_result] in Hr.
    destruct (rest ++ [(mn, dn, sn)])%list eqn:E; [destruct rest; discriminate|].
    rewrite <- E in Hr. cbn [app is_nil] in Hr.
    rewrite loop_result_tail in Hr by discriminate.
    injection Hr as <-. cbn [fst snd] in Hl.
    unfold load_xrefs. mred0. rewrite Hl. reflexivity.
  - intros k v Hk. rewrite Hfirst. cbn [first_binding]. rewrite Hk. reflexivity.
  - cbn. apply dict_get_del.
  - intros k v Hk Hget. rewrite Hent, dict_get_del_ne by congruence.
    cbn [items_of] in Hget. rewrite Hget. reflexivity.
  - intros k [->|Hget]; rewrite Hent.
    + rewrite dict_get_del. reflexivity.
    + destruct (String.eqb_spec k "/Prev") as [->|Hne].
      * rewrite dict_get_del. reflexivity.
      * rewrite dict_get_del_ne by congruence. cbn [items_of] in Hget.
        rewrite Hget. reflexivity.
Qed.

End ChainFacts.

Lemma load_xrefs_merges_witness :
  let lexer := ws_lexer two_sections in
  exists st',
    load_xrefs two_sections lexer (loadindirect two_sections lexer 20) 20 20 (fresh 79)
    = (Ret tt, st')
    /\ obj_offsets st' !! (1, 0) = Some 300
    /\ obj_offsets st' !! (2, 0) = Some 200
    /\ indirect_objects st' = {[ (1, 0) := PdfIndirect (1, 0) ]}
    /\ dict_get (entries st') "/Prev" = None
    /\ dict_get (entries st') "/Size" = Some (PdfObject "3" None)
    /\ dict_get (entries st') "/Root" = Some (PdfIndirect (1, 0)).
Proof.
  intros lexer.
  eassert (V : visits two_sections lexer (loadindirect two_sections lexer 20) 20
                 true (set_all_offsets [] (fresh 79)) [(_, _, _); (_, _, _)]).
  { eapply visits_link; [vm_compute; reflexivity|vm_compute; reflexivity
                        |reflexivity|vm_compute; reflexivity|].
    eapply visits_last; [vm_compute; reflexivity|vm_compute; reflexivity]. }
  pose proof (load_xrefs_merges two_sections lexer _ 20 20 (fresh 79)
                _ _ _ [] _ _ _ V ltac:(cbn; lia)) as H.
  cbv zeta in H. destruct H as (H1 & _ & _ & H4 & H5 & _).
  eexists. split; [exact H1|]. vm_compute. repeat split.
Defined.

(** The merge restores the table and leaves the deferred set: after
    [older_reference] is loaded, key (5, 0), which the older trailer
    names, is deferred and has no entry. *)
Lemma merge_leaves_older_references_deferred :
  let lexer := ws_lexer older_reference in
  let r := load_xrefs older_reference lexer (loadindirect older_reference lexer 20)
             20 20 (fresh 72) in
  fst r = Ret tt
  /\ indirect_objects (snd r) = ∅
  /\ deferred_objects (snd r) = {[ (5, 0) ]}.
Proof. vm_compute. repeat split. Qed.

(** ** The page tree *)

Lemma in_generator_ret {A} (m : M A) k st a st' :
  m st = (Ret a, st') -> in_generator m k st = k a st'.
Proof. intros H. unfold in_generator. rewrite H. reflexivity. Qed.



Lemma in_generator_diverges {A} (m : M A) k st st' :
  in_generator m k st = (Diverge, st') ->
  m st = (Diverge, st')
  \/ exists a s1, m st = (Ret a, s1) /\ k a s1 = (Diverge, st').
Proof.
  unfold in_generator. destruct (m st) as [[a|e0|] s1] eqn:E.
  - intros H. right. eauto.
  - destruct e0; discriminate.
  - intros [= <-]. left. reflexivity.
Qed.

Section PageFacts.
Variable resolve : key -> M value.







End PageFacts.



(** ** Containers over a run of tokens *)

Lemma int_not_special t n : Py.int t = Some n -> special t = None.
Proof.
  intros H. unfold special. cbn [existsb].
  repeat match goal with
  | |- context [String.eqb t ?s] =>
      destruct (String.eqb_spec t s) as [->|_]; [vm_compute in H; discriminate|]
  end.
  cbn. reflexivity.
Qed.

Lemma int_not_close t n : Py.int t = Some n -> in_close_or_R t = false.
Proof.
  intros H. unfold in_close_or_R. cbn [existsb].
  repeat match goal with
  | |- context [String.eqb t ?s] =>
      destruct (String.eqb_spec t s) as [->|_]; [vm_compute in H; discriminate|]
  end.
  reflexivity.
Qed.

Lemma int_plain t n : Py.int t = Some n -> plain t = true.
Proof.
  intros H. unfold plain. rewrite (int_not_close _ _ H), (int_not_special _ _ H).
  reflexivity.
Qed.

Lemma plain_special t : plain t = true -> special t = None.
Proof.
  unfold plain. destruct (special t); [|reflexivity].
  rewrite andb_true_iff. intros [_ H]. exfalso.
  rewrite negb_true_iff, bool_decide_eq_false in H. apply H. eauto.
Qed.

Lemma plain_close t : plain t = true -> in_close_or_R t = false.
Proof.
  unfold plain. rewrite andb_true_iff, negb_true_iff. tauto.
Qed.

Lemma name_not_digit t : is_name t = true -> Py.isdigit t = false.
Proof.
  unfold is_name, Py.startswith. destruct t as [|c r]; [reflexivity|].
  cbn [String.prefix].
  match goal with |- context [Ascii.ascii_dec ?a ?b] => destruct (Ascii.ascii_dec a b) as [<-|] end;
    [|discriminate].
  intros _. reflexivity.
Qed.

Lemma name_not_close t : is_name t = true -> String.eqb t ">>" = false.
Proof.
  unfold is_name, Py.startswith. destruct (String.eqb_spec t ">>") as [->|]; [|reflexivity].
  vm_compute. discriminate.
Qed.


Section Containers.
Variable lexer : Z -> option (string * Z * Z).

(** Plain tokens are appended one by one. *)
Lemma readarray_loop_plain toks : forall p q st,
  Forall (fun t => plain t = true) toks ->
  lexes lexer p toks q -> floc st = p ->
  exists ts, forall fuel acc,
    readarray_loop lexer (length toks + fuel) acc st
    = readarray_loop lexer fuel (acc ++ map tok_value toks)%list
        (set_floc q (set_tokstart ts st)).
Proof.
  induction toks as [|t toks IH]; intros p q st Hp Hl Hf.
  - inversion Hl; subst. exists (tokstart st). intros fuel acc.
    cbn [length map Nat.add]. rewrite app_nil_r, set_floc_tokstart_id. reflexivity.
  - inversion Hl as [|p0 tok ts fl toks0 q0 Hlex Hrest]; subst.
    inversion Hp as [|? ? Ht Hp']; subst.
    destruct (IH fl q (set_floc fl (set_tokstart ts st)) Hp' Hrest eq_refl) as [ts' IH'].
    exists ts'. intros fuel acc.
    cbn [length Nat.add readarray_loop]. rewrite Hlex.
    rewrite (plain_close _ Ht), (plain_special _ Ht).
    rewrite IH'. cbn [map]. rewrite <- app_assoc. reflexivity.
Qed.


Lemma lexes_app a : forall b p q,
  lexes lexer p (a ++ b)%list q -> exists m, lexes lexer p a m /\ lexes lexer m b q.
Proof.
  induction a as [|t a IH]; intros b p q H; cbn in H.
  - exists p. split; [constructor|exact H].
  - inversion H as [|p0 tok ts fl toks0 q0 Hlex Hrest]; subst.
    destruct (IH _ _ _ Hrest) as (m & Ha & Hb).
    exists m. split; [econstructor; eauto|exact Hb].
Qed.

Lemma pop_snoc l x st : pop (l ++ [x])%list st = (Ret (x, l), st).
Proof. unfold pop. rewrite rev_unit, rev_involutive. reflexivity. Qed.

Lemma findindirect_known tn i1 tg i2 a b v st :
  Py.int tn = Some a -> Py.int tg = Some b ->
  indirect_objects st !! (a, b) = Some v -> is_None v = false ->
  findindirect (PdfObject tn i1) (PdfObject tg i2) st = (Ret v, st).
Proof.
  intros Ha Hb Hv Hn. unfold findindirect. mred. rewrite Ha, Hb. cbn.
  rewrite Hv, Hn. reflexivity.
Qed.

Lemma findindirect_new tn i1 tg i2 a b st :
  Py.int tn = Some a -> Py.int tg = Some b ->
  (indirect_objects st !! (a, b) = None \/ indirect_objects st !! (a, b) = Some PyNone) ->
  findindirect (PdfObject tn i1) (PdfObject tg i2) st
  = (Ret (PdfIndirect (a, b)),
     set_deferred_objects ({[ (a, b) ]} ∪ deferred_objects st)
       (set_indirect_objects (<[ (a, b) := PdfIndirect (a, b) ]> (indirect_objects st)) st)).
Proof.
  intros Ha Hb Hv. unfold findindirect. mred. rewrite Ha, Hb. cbn.
  destruct Hv as [-> | ->]; reflexivity.
Qed.

Lemma findindirect_runs tn i1 tg i2 a b st :
  Py.int tn = Some a -> Py.int tg = Some b ->
  exists v st',
    findindirect (PdfObject tn i1) (PdfObject tg i2) st = (Ret v, st')
    /\ indirect_objects st' !! (a, b) = Some v
    /\ is_None v = false
    /\ floc st' = floc st
    /\ (indirect_objects st !! (a, b) = Some v /\ st' = st
        \/ v = PdfIndirect (a, b) /\ (a, b) ∈ deferred_objects st')
    /\ (forall k, k <> (a, b) -> indirect_objects st' !! k = indirect_objects st !! k).
Proof.
  intros Ha Hb.
  destruct (indirect_objects st !! (a, b)) as [v|] eqn:E;
    [destruct (is_None v) eqn:En|].
  - destruct v; try discriminate.
    eexists _, _. split; [apply (findindirect_new _ _ _ _ _ _ _ Ha Hb); now right|].
    cbn. rewrite lookup_insert_eq. repeat (split; [reflexivity|]). split.
    + right. split; [reflexivity|]. apply elem_of_union_l, elem_of_singleton. reflexivity.
    + intros k Hk. rewrite lookup_insert_ne by congruence. reflexivity.
  - exists v, st. split; [apply (findindirect_known _ _ _ _ _ _ _ _ Ha Hb E En)|].
    split; [exact E|]. split; [exact En|]. split; [reflexivity|].
    split; [now left|reflexivity].
  - eexists _, _. split; [apply (findindirect_new _ _ _ _ _ _ _ Ha Hb); now left|].
    cbn. rewrite lookup_insert_eq. repeat (split; [reflexivity|]). split.
    + right. split; [reflexivity|]. apply elem_of_union_l, elem_of_singleton. reflexivity.
    + intros k Hk. rewrite lookup_insert_ne by congruence. reflexivity.
Qed.


(** X2: an array of plain tokens closed by its bracket is read as the
    tokens in order; the loader changes only in where the source
    stands. *)
Theorem readarray_items fuel toks p q st :
  Forall (fun t => plain t = true) toks ->
  lexes lexer p (toks ++ ["]"])%list q ->
  floc st = p -> (length toks < fuel)%nat ->
  exists ts, readarray lexer fuel st
    = (Ret (PdfArray (map tok_value toks) None), set_floc q (set_tokstart ts st)).
Proof.
  intros Hp Hl Hf Hfuel.
  destruct (lexes_app _ _ _ _ Hl) as (m & Ha & Hb).
  destruct (readarray_loop_plain _ _ _ _ Hp Ha Hf) as [ts IH].
  inversion Hb as [|p0 tok ts' fl toks0 q0 Hlex Hrest]; subst.
  inversion Hrest; subst.
  exists ts'. unfold readarray.
  replace fuel with (length toks + S (fuel - length toks - 1))%nat by lia.
  rewrite IH. cbn [readarray_loop app]. cbn [floc set_floc]. rewrite Hlex.
  reflexivity.
Qed.

(** X3: an array the input ends in is not an error: the items read so
    far are returned as the array. *)
Theorem readarray_unterminated fuel toks p q st :
  Forall (fun t => plain t = true) toks ->
  lexes lexer p toks q -> lexer q = None ->
  floc st = p -> (length toks < fuel)%nat ->
  exists ts, readarray lexer fuel st
    = (Ret (PdfArray (map tok_value toks) None), set_floc q (set_tokstart ts st)).
Proof.
  intros Hp Hl Hend Hf Hfuel.
  destruct (readarray_loop_plain _ _ _ _ Hp Hl Hf) as [ts IH].
  exists ts. unfold readarray.
  replace fuel with (length toks + S (fuel - length toks - 1))%nat by lia.
  rewrite IH. cbn [readarray_loop app]. cbn [floc set_floc]. rewrite Hend.
  reflexivity.
Qed.

(** X4: in an array, two integers followed by [R] are taken off the
    items and replaced by the table's value for that key: the value
    already registered, or a new placeholder whose key is deferred. *)
Theorem readarray_reference fuel pre tn tg a b p q st :
  Forall (fun t => plain t = true) pre ->
  Py.int tn = Some a -> Py.int tg = Some b ->
  lexes lexer p (pre ++ [tn; tg; "R"; "]"])%list q ->
  floc st = p -> (length pre + 3 < fuel)%nat ->
  exists v st',
    readarray lexer fuel st = (Ret (PdfArray (map tok_value pre ++ [v])%list None), st')
    /\ floc st' = q
    /\ indirect_objects st' !! (a, b) = Some v
    /\ (indirect_objects st !! (a, b) = Some v
        \/ v = PdfIndirect (a, b) /\ (a, b) ∈ deferred_objects st').
Proof.
  intros Hp Ha Hb Hl Hf Hfuel.
  assert (Hp2 : Forall (fun t => plain t = true) (pre ++ [tn; tg])%list).
  { apply Forall_app. split; [exact Hp|].
    repeat constructor; eapply int_plain; eauto. }
  replace (pre ++ [tn; tg; "R"; "]"])%list with ((pre ++ [tn; tg]) ++ ["R"; "]"])%list in Hl
    by (rewrite <- app_assoc; reflexivity).
  destruct (lexes_app _ _ _ _ Hl) as (m & Hl1 & Hl2).
  destruct (readarray_loop_plain _ _ _ _ Hp2 Hl1 Hf) as [ts IH].
  inversion Hl2 as [|p0 tok ts1 fl1 toks0 q0 Hlex1 Hrest]; subst.
  inversion Hrest as [|p0 tok ts2 fl2 toks0 q0 Hlex2 Hrest2]; subst.
  inversion Hrest2; subst.
  unfold readarray.
  replace fuel with (length (pre ++ [tn; tg])%list + S (S (fuel - length pre - 4)))%nat
    by (rewrite length_app; cbn [length]; lia).
  rewrite IH. cbn [app]. rewrite map_app. cbn [map].
  set (st1 := set_floc fl1 (set_tokstart ts1 (set_floc m (set_tokstart ts st)))).
  destruct (findindirect_runs tn None tg None a b st1 Ha Hb)
    as (v & st2 & Hfind & Hv & _ & Hfl & Hcase & _).
  exists v, (set_floc q (set_tokstart ts2 st2)).
  split; [|split; [reflexivity|split; [exact Hv|]]].
  - cbn [readarray_loop]. cbn [floc set_floc]. rewrite Hlex1.
    cbn [in_close_or_R existsb String.eqb Ascii.eqb Bool.eqb orb].
    change (map tok_value pre ++ [tok_value tn; tok_value tg])%list
      with (map tok_value pre ++ [tok_value tn] ++ [tok_value tg])%list.
    rewrite app_assoc. fold st1.
    unfold bind at 1. rewrite pop_snoc. cbn [snd fst].
    unfold bind at 1. rewrite pop_snoc. cbn [snd fst].
    unfold bind at 1. unfold tok_value. rewrite Hfind.
    cbn [readarray_loop]. cbn [floc set_floc]. rewrite Hfl. cbn [st1 floc set_floc].
    rewrite Hlex2. cbn [in_close_or_R existsb String.eqb Ascii.eqb Bool.eqb orb].
    reflexivity.
  - destruct Hcase as [[H ->]|[-> H]]; [left; exact H|right]. split; [reflexivity|].
    exact H.
Qed.

(** X5: an [R] with fewer than two items before it in the array is an
    IndexError, raised by the pop from the empty item list. *)
Theorem readarray_short_reference fuel toks p q st :
  Forall (fun t => plain t = true) toks ->
  (length toks < 2)%nat ->
  lexes lexer p (toks ++ ["R"])%list q ->
  floc st = p -> (2 < fuel)%nat ->
  exists ts, readarray lexer fuel st
    = (Raise IndexError, set_floc q (set_tokstart ts st)).
Proof.
  intros Hp Hlen Hl Hf Hfuel.
  destruct (lexes_app _ _ _ _ Hl) as (m & Ha & Hb).
  destruct (readarray_loop_plain _ _ _ _ Hp Ha Hf) as [ts IH].
  inversion Hb as [|p0 tok ts' fl toks0 q0 Hlex Hrest]; subst.
  inversion Hrest; subst.
  exists ts'. unfold readarray.
  replace fuel with (length toks + S (fuel - length toks - 1))%nat by lia.
  rewrite IH. cbn [readarray_loop app]. cbn [floc set_floc]. rewrite Hlex.
  cbn [in_close_or_R existsb String.eqb Ascii.eqb Bool.eqb orb].
  destruct toks as [|t1 [|t2 toks]]; [| |cbn in Hlen; lia]; reflexivity.
Qed.

End Containers.
Lemma isdigit_not_special t : Py.isdigit t = true -> special t = None.
Proof.
  intros H. unfold special. cbn [existsb].
  repeat match goal with
  | |- context [String.eqb t ?s] =>
      destruct (String.eqb_spec t s) as [->|_]; [vm_compute in H; discriminate|]
  end.
  cbn. reflexivity.
Qed.

Lemma pairs_dict_snoc pairs kv :
  pairs_dict (pairs ++ [kv]) = dict_put (pairs_dict pairs) (fst kv) (tok_value (snd kv)).
Proof. unfold pairs_dict. rewrite fold_left_app. reflexivity. Qed.

(** A name bound more than once keeps its last value. *)
Lemma pairs_dict_get pairs k :
  dict_get (pairs_dict pairs) k
  = (fun kv => tok_value (snd kv)) <$> List.find (fun kv => String.eqb (fst kv) k) (rev pairs).
Proof.
  induction pairs as [|kv pairs IH] using rev_ind; [reflexivity|].
  rewrite pairs_dict_snoc, dict_get_put, rev_unit. cbn [List.find].
  destruct (String.eqb (fst kv) k); [reflexivity|exact IH].
Qed.

Section Dicts.
Variable lexer : Z -> option (string * Z * Z).

Lemma next_eq st tok ts fl :
  lexer (floc st) = Some (tok, ts, fl) ->
  next lexer st = (Ret tok, set_floc fl (set_tokstart ts st)).
Proof. intros H. unfold next. rewrite H. reflexivity. Qed.

Lemma next_end st : lexer (floc st) = None -> next lexer st = (Raise StopIteration, st).
Proof. intros H. unfold next. rewrite H. reflexivity. Qed.

Lemma head_not_digit pairs t tok1 tl1 :
  Forall pair_ok pairs -> Py.isdigit t = false ->
  (flat_map pair_tokens pairs ++ [t])%list = tok1 :: tl1 ->
  Py.isdigit tok1 = false.
Proof.
  intros Hp Ht. destruct pairs as [|[k v] r]; cbn; intros [= <- _]; [exact Ht|].
  inversion Hp as [|? ? [Hk _] _]; subst. apply name_not_digit, Hk.
Qed.

(** Pairs of a name and a plain token are stored one by one. *)
Lemma readdict_loop_pairs pairs : forall t tok0 tl q st,
  Forall pair_ok pairs -> Py.isdigit t = false ->
  (flat_map pair_tokens pairs ++ [t])%list = tok0 :: tl ->
  lexes lexer (floc st) tl q ->
  exists ts, forall fuel acc,
    readdict_loop lexer (length pairs + fuel) acc tok0 st
    = readdict_loop lexer fuel
        (fold_left (fun d kv => dict_set d (fst kv) (tok_value (snd kv))) pairs acc) t
        (set_floc q (set_tokstart ts st)).
Proof.
  induction pairs as [|[k v] r IH]; intros t tok0 tl q st Hp Ht Heq Hl.
  - cbn in Heq. injection Heq as <- <-. inversion Hl; subst.
    exists (tokstart st). intros fuel acc. cbn [length Nat.add fold_left].
    rewrite set_floc_tokstart_id. reflexivity.
  - cbn in Heq. injection Heq as <- <-.
    inversion Hp as [|? ? [Hk Hv] Hp']; subst. cbn [fst snd] in Hk, Hv.
    destruct (flat_map pair_tokens r ++ [t])%list as [|tok1 tl1] eqn:Erest.
    { destruct (flat_map pair_tokens r); discriminate. }
    inversion Hl as [|p0 tok ts1 fl1 toks0 q0 Hlex1 Hrest]; subst.
    inversion Hrest as [|p0 tok ts2 fl2 toks0 q0 Hlex2 Hrest2]; subst.
    destruct (IH t tok1 tl1 q
                (set_floc fl2 (set_tokstart ts2 (set_floc fl1 (set_tokstart ts1 st))))
                Hp' Ht Erest Hrest2) as [ts IH'].
    exists ts. intros fuel acc.
    cbn [length Nat.add readdict_loop].
    rewrite (name_not_close _ Hk). unfold is_name in Hk. rewrite Hk.
    cbn [negb when]. unfold bind at 1. unfold ret at 1.
    unfold bind at 1. rewrite (next_eq _ _ _ _ Hlex1). rewrite Hv.
    unfold bind at 1.
    rewrite (next_eq (set_floc fl1 (set_tokstart ts1 st)) _ _ _ Hlex2).
    rewrite (head_not_digit _ _ _ _ Hp' Ht Erest), andb_false_r.
    rewrite IH'. reflexivity.
Qed.


(** X6: a dictionary of names and plain values is read as the pairs in
    order, a name that comes again taking the place of the earlier one,
    so that a name reads as its last value. *)
Theorem readdict_pairs fuel pairs p q st :
  Forall pair_ok pairs ->
  lexes lexer p (flat_map pair_tokens pairs ++ [">>"])%list q ->
  floc st = p -> (length pairs < fuel)%nat ->
  (exists ts, readdict lexer fuel st
     = (Ret (PdfDict (pairs_dict pairs) None None), set_floc q (set_tokstart ts st)))
  /\ (forall k, dict_get (pairs_dict pairs) k
        = (fun kv => tok_value (snd kv))
            <$> List.find (fun kv => String.eqb (fst kv) k) (rev pairs)).
Proof.
  intros Hp Hl Hf Hfuel. split; [|apply pairs_dict_get].
  destruct (flat_map pair_tokens pairs ++ [">>"])%list as [|tok0 tl] eqn:E.
  { destruct (flat_map pair_tokens pairs); discriminate. }
  inversion Hl as [|p0 tok ts0 fl0 toks0 q0 Hlex Hrest]; subst.
  destruct (readdict_loop_pairs pairs ">>" tok0 tl q
              (set_floc fl0 (set_tokstart ts0 st)) Hp eq_refl E Hrest) as [ts IH].
  exists ts. unfold readdict. unfold bind. rewrite (next_eq _ _ _ _ Hlex).
  replace fuel with (length pairs + S (fuel - length pairs - 1))%nat by lia.
  rewrite IH. reflexivity.
Qed.

(** X7: where a name is due in a dictionary, a token that is neither a
    name nor the closing one is the parse error "Expected PDF /name
    object", at the first key as after any number of pairs; the one
    exception is a run of digits that follows a value that is a run of
    digits, which is taken for the start of a reference. *)
Theorem readdict_bad_key fuel pairs t p q st :
  Forall pair_ok pairs ->
  is_name t = false -> t <> ">>" ->
  (forall kv, last pairs = Some kv -> Py.isdigit (snd kv) && Py.isdigit t = false) ->
  lexes lexer p (flat_map pair_tokens pairs ++ [t])%list q ->
  floc st = p -> (length pairs < fuel)%nat ->
  exists ts, readdict lexer fuel st
    = (Raise (PdfParseError "Expected PDF /name object"),
       set_floc q (set_tokstart ts st)).
Proof.
  intros Hp Hn Hc Ht Hl Hf Hfuel. subst p.
  unfold is_name in Hn.
  destruct pairs as [|[k v] init _] using rev_ind.
  - cbn in Hl. inversion Hl as [|p0 tok ts0 fl0 toks0 q0 Hlex Hrest]; subst.
    inversion Hrest; subst.
    exists ts0. unfold readdict. unfold bind. rewrite (next_eq _ _ _ _ Hlex).
    destruct fuel as [|fuel]; [lia|]. cbn [readdict_loop].
    destruct (String.eqb_spec t ">>"); [contradiction|]. rewrite Hn. reflexivity.
  - apply Forall_app in Hp as [Hp Hkv]. rewrite Forall_singleton in Hkv.
    destruct Hkv as [Hk Hv]. cbn [fst snd] in Hk, Hv.
    specialize (Ht (k, v) (last_snoc _ _)). cbn [snd] in Ht.
    rewrite length_app in Hfuel. cbn [length] in Hfuel.
    rewrite flat_map_app in Hl. cbn [flat_map pair_tokens fst snd app] in Hl.
    replace ((flat_map pair_tokens init ++ [k; v]) ++ [t])%list
      with ((flat_map pair_tokens init ++ [k]) ++ [v; t])%list in Hl
      by (rewrite <- !app_assoc; reflexivity).
    destruct (lexes_app _ _ _ _ _ Hl) as (m & Hl1 & Hl2).
    destruct (flat_map pair_tokens init ++ [k])%list as [|tok0 tl] eqn:E.
    { destruct (flat_map pair_tokens init); discriminate. }
    inversion Hl1 as [|p0 tok ts0 fl0 toks0 q0 Hlex Hrest]; subst.
    destruct (readdict_loop_pairs init k tok0 tl m
                (set_floc fl0 (set_tokstart ts0 st)) Hp (name_not_digit _ Hk) E Hrest)
      as [ts IH].
    inversion Hl2 as [|p0 tok ts1 fl1 toks0 q0 Hlex1 Hrest1]; subst.
    inversion Hrest1 as [|p0 tok ts2 fl2 toks0 q0 Hlex2 Hrest2]; subst.
    inversion Hrest2; subst.
    exists ts2. unfold readdict. unfold bind at 1. rewrite (next_eq _ _ _ _ Hlex).
    replace fuel with (length init + S (S (fuel - length init - 2)))%nat by lia.
    rewrite IH. cbn [readdict_loop].
    rewrite (name_not_close _ Hk). unfold is_name in Hk. rewrite Hk.
    cbn [negb when]. unfold bind at 1. unfold ret at 1.
    unfold bind at 1. unfold next at 1. cbn [floc set_floc]. rewrite Hlex1, Hv.
    unfold bind at 1. unfold next at 1. cbn [floc set_floc]. rewrite Hlex2, Ht.
    destruct (String.eqb_spec t ">>"); [contradiction|]. rewrite Hn. reflexivity.
Qed.

(** X8: in a dictionary, a value of two integers must be followed by
    [R]: anything else is the parse error "Expected R following two
    integers". *)
Theorem readdict_two_integers fuel pairs k ta tb r p q st :
  Forall pair_ok pairs -> is_name k = true ->
  Py.isdigit ta = true -> Py.isdigit tb = true -> r <> "R" ->
  lexes lexer p (flat_map pair_tokens pairs ++ [k; ta; tb; r])%list q ->
  floc st = p -> (length pairs + 1 < fuel)%nat ->
  exists st', readdict lexer fuel st
    = (Raise (PdfParseError "Expected R following two integers"), st')
    /\ floc st' = q /\ indirect_objects st' = indirect_objects st.
Proof.
  intros Hp Hk Ha Hb Hr Hl Hf Hfuel.
  replace (flat_map pair_tokens pairs ++ [k; ta; tb; r])%list
    with ((flat_map pair_tokens pairs ++ [k]) ++ [ta; tb; r])%list in Hl
    by (rewrite <- app_assoc; reflexivity).
  destruct (lexes_app _ _ _ _ _ Hl) as (m & Hl1 & Hl2).
  destruct (flat_map pair_tokens pairs ++ [k])%list as [|tok0 tl] eqn:E.
  { destruct (flat_map pair_tokens pairs); discriminate. }
  inversion Hl1 as [|p0 tok ts0 fl0 toks0 q0 Hlex Hrest]; subst.
  destruct (readdict_loop_pairs pairs k tok0 tl m
              (set_floc fl0 (set_tokstart ts0 st)) Hp (name_not_digit _ Hk) E Hrest)
    as [ts IH].
  inversion Hl2 as [|p0 tok ts1 fl1 toks0 q0 Hlex1 Hrest1]; subst.
  inversion Hrest1 as [|p0 tok ts2 fl2 toks0 q0 Hlex2 Hrest2]; subst.
  inversion Hrest2 as [|p0 tok ts3 fl3 toks0 q0 Hlex3 Hrest3]; subst.
  inversion Hrest3; subst.
  eexists. split.
  - unfold readdict. unfold bind at 1. rewrite (next_eq _ _ _ _ Hlex).
    replace fuel with (length pairs + S (fuel - length pairs - 1))%nat by lia.
    rewrite IH. cbn [readdict_loop].
    rewrite (name_not_close _ Hk). unfold is_name in Hk. rewrite Hk.
    cbn [negb when]. unfold bind at 1. unfold ret at 1.
    unfold bind at 1. unfold next at 1. cbn [floc set_floc]. rewrite Hlex1.
    rewrite (isdigit_not_special _ Ha).
    unfold bind at 1. unfold next at 1. cbn [floc set_floc]. rewrite Hlex2.
    rewrite Ha, Hb. cbn [andb].
    unfold bind at 1. unfold next at 1. cbn [floc set_floc]. rewrite Hlex3.
    destruct (String.eqb_spec r "R"); [contradiction|]. reflexivity.
  - split; reflexivity.
Qed.

(** A token that [next] hands over ends where the source stands. *)
Lemma next_just_read st tok st' :
  next lexer st = (Ret tok, st') -> exists p ts, lexer p = Some (tok, ts, floc st').
Proof.
  unfold next. destruct (lexer (floc st)) as [[[t ts] fl]|] eqn:E; [|discriminate].
  intros [= <- <-]. exists (floc st), ts. exact E.
Qed.

Lemma readdict_loop_closes fuel : forall acc tok st v st',
  (exists p ts, lexer p = Some (tok, ts, floc st)) ->
  readdict_loop lexer fuel acc tok st = (Ret v, st') ->
  exists p ts, lexer p = Some (">>", ts, floc st').
Proof.
  induction fuel as [|fuel IH]; intros acc tok st v st' Hj; cbn [readdict_loop];
    [discriminate|].
  destruct (String.eqb_spec tok ">>") as [->|_]; [intros [= _ <-]; exact Hj|].
  destruct (negb _); [discriminate|]. cbn [when].
  unfold bind at 1. unfold ret at 1.
  unfold bind at 1. destruct (next lexer st) as [[t| |] st1] eqn:E1; try discriminate.
  destruct (special t).
  - unfold bind at 1. destruct (call_special _ _ _ st1) as [[r| |] st2]; try discriminate.
    unfold bind at 1. destruct (next lexer st2) as [[t'| |] st3] eqn:E3; try discriminate.
    apply IH. eapply next_just_read, E3.
  - unfold bind at 1. destruct (next lexer st1) as [[t'| |] st2] eqn:E2; try discriminate.
    destruct (_ && _).
    + unfold bind at 1. destruct (next lexer st2) as [[r| |] st3]; try discriminate.
      destruct (negb _); [discriminate|]. cbn [when].
      unfold bind at 1. unfold ret at 1.
      unfold bind at 1. destruct (findindirect _ _ st3) as [[ref| |] st4]; try discriminate.
      unfold bind at 1. destruct (next lexer st4) as [[t''| |] st5] eqn:E5; try discriminate.
      apply IH. eapply next_just_read, E5.
    + apply IH. eapply next_just_read, E2.
Qed.

(** X9: [readdict] returns only once it has read the closing token of
    the dictionary: when it returns, the source stands just after a
    [>>], and the value is a dictionary with no tag and no stream.  A
    dictionary the input ends in is never handed over. *)
Theorem readdict_returns_closed fuel st v st' :
  readdict lexer fuel st = (Ret v, st') ->
  (exists p ts, lexer p = Some (">>", ts, floc st'))
  /\ exists d, v = PdfDict d None None.
Proof.
  unfold readdict. unfold bind.
  destruct (next lexer st) as [[t| |] st1] eqn:E1; try discriminate.
  intros H. split.
  - eapply readdict_loop_closes; [eapply next_just_read, E1|exact H].
  - eapply (proj2 (containers_shape lexer fuel)), H.
Qed.

End Dicts.

(** One token of a run, with the offsets worked out. *)
Ltac lex_step :=
  lazymatch goal with
  | |- lexes _ _ [] _ => apply lexes_nil
  | |- lexes ?lx ?p (?t :: _) _ =>
      let r := eval vm_compute in (lx p) in
      lazymatch r with
      | Some (_, ?ts, ?fl) =>
          apply (lexes_cons lx p t ts fl); [vm_compute; reflexivity|]
      end
  end.
Ltac lex_run := cbn [app flat_map pair_tokens fst snd]; repeat lex_step.


Lemma readarray_items_witness :
  exists ts, readarray (ws_lexer "/A 12 ]") 3 (fresh 0)
    = (Ret (PdfArray [tok_value "/A"; tok_value "12"] None),
       set_floc 7 (set_tokstart ts (fresh 0))).
Proof.
  apply (readarray_items (ws_lexer "/A 12 ]") 3 ["/A"; "12"] 0 7 (fresh 0)).
  - repeat constructor.
  - lex_run.
  - reflexivity.
  - cbn; lia.
Defined.

Lemma readarray_unterminated_witness :
  exists ts, readarray (ws_lexer "/A 12") 3 (fresh 0)
    = (Ret (PdfArray [tok_value "/A"; tok_value "12"] None),
       set_floc 5 (set_tokstart ts (fresh 0))).
Proof.
  apply (readarray_unterminated (ws_lexer "/A 12") 3 ["/A"; "12"] 0 5 (fresh 0)).
  - repeat constructor.
  - lex_run.
  - reflexivity.
  - reflexivity.
  - cbn; lia.
Defined.

Lemma readarray_reference_witness :
  exists v st',
    readarray (ws_lexer "/A 5 0 R ]") 5 (fresh 0)
    = (Ret (PdfArray [tok_value "/A"; v] None), st')
    /\ floc st' = 10
    /\ indirect_objects st' !! (5, 0) = Some v.
Proof.
  destruct (readarray_reference (ws_lexer "/A 5 0 R ]") 5 ["/A"] "5" "0" 5 0 0 10 (fresh 0))
    as (v & st' & H1 & H2 & H3 & _).
  - repeat constructor.
  - reflexivity.
  - reflexivity.
  - lex_run.
  - reflexivity.
  - cbn; lia.
  - exists v, st'. split; [exact H1|]. split; [exact H2|exact H3].
Defined.

Lemma readarray_short_reference_witness :
  exists ts, readarray (ws_lexer "7 R ]") 3 (fresh 0)
    = (Raise IndexError, set_floc 3 (set_tokstart ts (fresh 0))).
Proof.
  apply (readarray_short_reference (ws_lexer "7 R ]") 3 ["7"] 0 3 (fresh 0)).
  - repeat constructor.
  - cbn; lia.
  - lex_run.
  - reflexivity.
  - lia.
Defined.

Lemma readdict_pairs_witness :
  (exists ts, readdict (ws_lexer "/A 1 /B x /A 2 >>") 4 (fresh 0)
     = (Ret (PdfDict [("/A", tok_value "2"); ("/B", tok_value "x")] None None),
        set_floc 17 (set_tokstart ts (fresh 0))))
  /\ dict_get (pairs_dict [("/A", "1"); ("/B", "x"); ("/A", "2")]) "/A"
     = Some (tok_value "2").
Proof.
  destruct (readdict_pairs (ws_lexer "/A 1 /B x /A 2 >>") 4
              [("/A", "1"); ("/B", "x"); ("/A", "2")] 0 17 (fresh 0)) as [H1 H2].
  - repeat constructor.
  - lex_run.
  - reflexivity.
  - cbn; lia.
  - split; [exact H1|]. rewrite H2. reflexivity.
Defined.

Lemma readdict_bad_key_witness :
  (exists ts, readdict (ws_lexer "/A 1 B") 2 (fresh 0)
     = (Raise (PdfParseError "Expected PDF /name object"),
        set_floc 6 (set_tokstart ts (fresh 0))))
  /\ (exists ts, readdict (ws_lexer "/A x 7") 2 (fresh 0)
        = (Raise (PdfParseError "Expected PDF /name object"),
           set_floc 6 (set_tokstart ts (fresh 0)))).
Proof.
  split.
  - apply (readdict_bad_key (ws_lexer "/A 1 B") 2 [("/A", "1")] "B" 0 6 (fresh 0)).
    + repeat constructor.
    + reflexivity.
    + discriminate.
    + intros kv [= <-]. reflexivity.
    + lex_run.
    + reflexivity.
    + cbn; lia.
  - apply (readdict_bad_key (ws_lexer "/A x 7") 2 [("/A", "x")] "7" 0 6 (fresh 0)).
    + repeat constructor.
    + reflexivity.
    + discriminate.
    + intros kv [= <-]. reflexivity.
    + lex_run.
    + reflexivity.
    + cbn; lia.
Defined.

Lemma readdict_two_integers_witness :
  exists st', readdict (ws_lexer "/A 1 2 /B") 2 (fresh 0)
    = (Raise (PdfParseError "Expected R following two integers"), st')
    /\ floc st' = 9.
Proof.
  destruct (readdict_two_integers (ws_lexer "/A 1 2 /B") 2 [] "/A" "1" "2" "/B" 0 9 (fresh 0))
    as (st' & H1 & H2 & _).
  - constructor.
  - reflexivity.
  - reflexivity.
  - reflexivity.
  - discriminate.
  - lex_run.
  - reflexivity.
  - cbn; lia.
  - exists st'. split; [exact H1|exact H2].
Defined.

Lemma readdict_returns_closed_witness :
  (exists p ts, ws_lexer "/A [ 1 ] >> x" p = Some (">>", ts, 11))
  /\ exists d, PdfDict [("/A", PdfArray [tok_value "1"] None)] None None = PdfDict d None None.
Proof.
  apply (readdict_returns_closed (ws_lexer "/A [ 1 ] >> x") 3 (fresh 0) _
           (set_floc 11 (set_tokstart 9 (fresh 0)))).
  vm_compute. reflexivity.
Defined.

Section DictReferences.
Variable lexer : Z -> option (string * Z * Z).

(** X26: in a dictionary, a value of two integers followed by [R] is
    the table's value for that key - the value already registered, or a
    new placeholder whose key is deferred - and the pairs before it are
    kept. *)
Theorem readdict_reference fuel pairs k tn tg a b p q st :
  Forall pair_ok pairs -> is_name k = true ->
  Py.isdigit tn = true -> Py.isdigit tg = true ->
  Py.int tn = Some a -> Py.int tg = Some b ->
  lexes lexer p (flat_map pair_tokens pairs ++ [k; tn; tg; "R"; ">>"])%list q ->
  floc st = p -> (length pairs + 1 < fuel)%nat ->
  exists v st',
    readdict lexer fuel st
    = (Ret (PdfDict (dict_set (pairs_dict pairs) k v) None None), st')
    /\ floc st' = q
    /\ indirect_objects st' !! (a, b) = Some v
    /\ (indirect_objects st !! (a, b) = Some v
        \/ v = PdfIndirect (a, b) /\ (a, b) ∈ deferred_objects st').
Proof.
  intros Hp Hk Hda Hdb Ha Hb Hl Hf Hfuel.
  replace (flat_map pair_tokens pairs ++ [k; tn; tg; "R"; ">>"])%list
    with ((flat_map pair_tokens pairs ++ [k]) ++ [tn; tg; "R"; ">>"])%list in Hl
    by (rewrite <- app_assoc; reflexivity).
  destruct (lexes_app _ _ _ _ _ Hl) as (m & Hl1 & Hl2).
  destruct (flat_map pair_tokens pairs ++ [k])%list as [|tok0 tl] eqn:E.
  { destruct (flat_map pair_tokens pairs); discriminate. }
  inversion Hl1 as [|p0 tok ts0 fl0 toks0 q0 Hlex Hrest]; subst.
  destruct (readdict_loop_pairs lexer pairs k tok0 tl m
              (set_floc fl0 (set_tokstart ts0 st)) Hp (name_not_digit _ Hk) E Hrest)
    as [ts IH].
  inversion Hl2 as [|p0 tok ts1 fl1 toks0 q0 Hlex1 Hrest1]; subst.
  inversion Hrest1 as [|p0 tok ts2 fl2 toks0 q0 Hlex2 Hrest2]; subst.
  inversion Hrest2 as [|p0 tok ts3 fl3 toks0 q0 Hlex3 Hrest3]; subst.
  inversion Hrest3 as [|p0 tok ts4 fl4 toks0 q0 Hlex4 Hrest4]; subst.
  inversion Hrest4; subst.
  set (st1 := set_floc fl3 (set_tokstart ts3
                (set_floc fl2 (set_tokstart ts2
                   (set_floc fl1 (set_tokstart ts1
                      (set_floc m (set_tokstart ts
                         (set_floc fl0 (set_tokstart ts0 st)))))))))).
  destruct (findindirect_runs tn None tg None a b st1 Ha Hb)
    as (v & st2 & Hfind & Hv & _ & Hfl & Hcase & _).
  exists v, (set_floc q (set_tokstart ts4 st2)).
  split; [|split; [reflexivity|split; [exact Hv|]]].
  - unfold readdict. unfold bind at 1. rewrite (next_eq _ _ _ _ _ Hlex).
    replace fuel with (length pairs + S (S (fuel - length pairs - 2)))%nat by lia.
    rewrite IH. cbn [readdict_loop].
    rewrite (name_not_close _ Hk). unfold is_name in Hk. rewrite Hk.
    cbn [negb when]. unfold bind at 1. unfold ret at 1.
    unfold bind at 1. unfold next at 1. cbn [floc set_floc]. rewrite Hlex1.
    rewrite (isdigit_not_special _ Hda).
    unfold bind at 1. unfold next at 1. cbn [floc set_floc]. rewrite Hlex2.
    rewrite Hda, Hdb. cbn [andb].
    unfold bind at 1. unfold next at 1. cbn [floc set_floc]. rewrite Hlex3.
    cbn [String.eqb Ascii.eqb Bool.eqb negb when].
    unfold bind at 1. unfold ret at 1.
    unfold bind at 1. fold st1. rewrite Hfind.
    unfold bind at 1. unfold next at 1. rewrite Hfl. cbn [st1 floc set_floc].
    rewrite Hlex4. cbn [String.eqb Ascii.eqb Bool.eqb]. reflexivity.
  - destruct Hcase as [[H ->]|[-> H]]; [left; exact H|right]. split; [reflexivity|].
    exact H.
Qed.

End DictReferences.

Lemma readdict_reference_witness :
  exists v st',
    readdict (ws_lexer "/Size 3 /Root 1 0 R >>") 3 (fresh 0)
    = (Ret (PdfDict [("/Size", tok_value "3"); ("/Root", v)] None None), st')
    /\ floc st' = 22
    /\ indirect_objects st' !! (1, 0) = Some v.
Proof.
  destruct (readdict_reference (ws_lexer "/Size 3 /Root 1 0 R >>") 3
              [("/Size", "3")] "/Root" "1" "0" 1 0 0 22 (fresh 0))
    as (v & st' & H1 & H2 & H3 & Hc).
  - repeat constructor.
  - reflexivity.
  - reflexivity.
  - reflexivity.
  - reflexivity.
  - reflexivity.
  - lex_run.
  - reflexivity.
  - cbn; lia.
  - exists v, st'. split; [|split; [exact H2|exact H3]].
    rewrite H1. f_equal. f_equal.
    destruct Hc as [Hc|[-> _]]; [discriminate Hc|reflexivity].
Defined.

(** ** Parsing only registers placeholders *)

Lemma parses_refl st : parses st st.
Proof. repeat split; auto. Qed.

Lemma parses_trans a b c : parses a b -> parses b c -> parses a c.
Proof.
  intros (H1 & H2 & H3 & H4) (H1' & H2' & H3' & H4'). repeat split.
  - congruence.
  - etrans; eauto.
  - auto.
  - congruence.
Qed.

Lemma parses_frame st st' :
  log st' = log st ->
  indirect_objects st' = indirect_objects st ->
  deferred_objects st' = deferred_objects st ->
  obj_offsets st' = obj_offsets st ->
  parses st st'.
Proof.
  intros Hl Ht Hd Ho. repeat split; auto.
  - rewrite Hd. reflexivity.
  - rewrite Ht. auto.
Qed.

Ltac pstep := respects_with parses_refl parses_trans.

Section Parses.
Variable lexer : Z -> option (string * Z * Z).

Lemma parses_next : respects parses (next lexer).
Proof.
  intros st o st'. unfold next.
  destruct (lexer (floc st)) as [[[tok ts] fl]|]; intros [= _ <-].
  - apply parses_frame; reflexivity.
  - apply parses_refl.
Qed.

Lemma parses_pop l : respects parses (pop l).
Proof. unfold pop. destruct (rev l); pstep. Qed.

Lemma parses_findindirect a b : respects parses (findindirect a b).
Proof.
  assert (Hnew : forall st k,
    (indirect_objects st !! k = None \/ indirect_objects st !! k = Some PyNone) ->
    parses st
      (set_deferred_objects ({[ k ]} ∪ deferred_objects st)
         (set_indirect_objects (<[ k := PdfIndirect k ]> (indirect_objects st)) st))).
  { intros st k Hk. repeat split; cbn.
    - apply union_subseteq_r.
    - intros k0 v Hv Hn. rewrite lookup_insert_ne; [exact Hv|].
      intros <-. destruct Hk as [Hk|Hk]; rewrite Hk in Hv; [discriminate|].
      injection Hv as Hv. subst v. discriminate. }
  unfold findindirect.
  pstep; [destruct a; pstep|rename a0 into n].
  pstep; [destruct b; pstep|rename a0 into g].
  intros st o st'. mred.
  destruct (indirect_objects st !! (n, g)) as [v|] eqn:E.
  - destruct v; cbn [is_None]; intros [= _ <-]; try apply parses_refl.
    apply Hnew. now right.
  - intros [= _ <-]. apply Hnew. now left.
Qed.

Lemma parses_call_special rd ra f :
  respects parses rd -> respects parses ra ->
  respects parses (call_special rd ra f).
Proof.
  intros Hd Ha. destruct f; cbn [call_special]; auto.
  - unfold empty_obj. pstep; [pstep|]. pstep; [|pstep].
    apply respects_modify. intros st. apply parses_frame; reflexivity.
  - unfold badtoken, exception. pstep.
Qed.

Lemma parses_containers fuel :
  (forall result, respects parses (readarray_loop lexer fuel result))
  /\ (forall result tok, respects parses (readdict_loop lexer fuel result tok)).
Proof.
  induction fuel as [|fuel [IHa IHd]]; split; intros; cbn [readarray_loop readdict_loop];
    try pstep.
  - intros st o st'.
    destruct (lexer (floc st)) as [[[v ts] fl]|]; [|intros [= _ <-]; apply parses_refl].
    intros H. eapply parses_trans; [apply parses_frame; reflexivity|].
    cut (respects parses
      (if in_close_or_R v
       then if String.eqb v "]" then ret (PdfArray result None)
            else p1 <- pop result;; p2 <- pop (snd p1);;
                 r <- findindirect (fst p2) (fst p1);;
                 readarray_loop lexer fuel (snd p2 ++ [r])
       else match special v with
            | Some f =>
                r <- call_special
                       (tok <- next lexer;; readdict_loop lexer fuel [] tok)
                       (readarray_loop lexer fuel []) f;;
                readarray_loop lexer fuel (result ++ [r])
            | None => readarray_loop lexer fuel (result ++ [PdfObject v None])
            end)); [intros Hbody; exact (Hbody _ _ _ H)|].
    clear H.
    destruct (in_close_or_R v).
    + destruct (String.eqb v "]"); [pstep|].
      pstep; [apply parses_pop|]. pstep; [apply parses_pop|].
      pstep; [apply parses_findindirect|]. apply IHa.
    + destruct (special v); [|apply IHa].
      pstep; [|apply IHa].
      apply parses_call_special; [|apply IHa].
      pstep; [apply parses_next|apply IHd].
  - destruct (String.eqb tok ">>"); [pstep|].
    pstep; [pstep; unfold exception; pstep|].
    pstep; [apply parses_next|].
    destruct (special a0).
    + pstep.
      * apply parses_call_special; [|apply IHa].
        pstep; [apply parses_next|apply IHd].
      * pstep; [apply parses_next|apply IHd].
    + pstep; [apply parses_next|].
      destruct (Py.isdigit a0 && Py.isdigit a1); [|apply IHd].
      pstep; [apply parses_next|].
      pstep; [pstep; unfold exception; pstep|].
      pstep; [apply parses_findindirect|].
      pstep; [apply parses_next|apply IHd].
Qed.

(** X10: parsing a value never loads an object and never logs.
    Whatever [readarray], [readdict] or the object reader of
    [loadindirect] do - return, raise or run on - the log and the offsets
    are as before, every entry of the table other than [None] is as
    before, and no key has left the deferred set: references are only
    given placeholders. *)
Theorem parsing_only_registers fuel :
  respects parses (readarray lexer fuel)
  /\ respects parses (readdict lexer fuel)
  /\ respects parses (read_object lexer fuel).
Proof.
  assert (Hd : respects parses (readdict lexer fuel)).
  { unfold readdict. pstep; [apply parses_next|]. apply parses_containers. }
  split; [apply parses_containers|]. split; [exact Hd|].
  unfold read_object. pstep; [apply parses_next|].
  destruct (special a); [|pstep].
  unfold run_special. apply parses_call_special; [exact Hd|].
  apply parses_containers.
Qed.

End Parses.

(** ** More on streams *)

Section MoreStreams.
Variable fdata : string.
Variable lexer : Z -> option (string * Z * Z).

(** X11: where [findstream] puts the start of the payload.  After the
    [stream] keyword of a dictionary, a line feed or a carriage return
    and a line feed are skipped and nothing is logged; a carriage return
    alone is skipped with a warning, given once per loader; any other
    byte is a parse error; and a keyword on which the buffer ends is an
    IndexError. *)
Theorem findstream_start d i s st :
  let obj := PdfDict d i s in
  let p := tokstart st + 6 in
  let lf := String Py.LF EmptyString in
  let cr := String Py.CR EmptyString in
  (Py.index fdata p = Some lf ->
     findstream fdata obj "stream" st = (Ret (p + 1), st))
  /\ (Py.index fdata p = Some cr -> Py.index fdata (p + 1) = Some lf ->
     findstream fdata obj "stream" st = (Ret (p + 2), st))
  /\ (forall c, Py.index fdata p = Some cr -> Py.index fdata (p + 1) = Some c ->
        c <> lf ->
        findstream fdata obj "stream" st
        = (Ret (p + 1),
           if warned_bad_stream_start st then st
           else set_warned_bad_stream_start true
                  (set_log (log st ++ [(Warning, "stream keyword terminated by CR without LF")]) st)))
  /\ (forall c, Py.index fdata p = Some c -> c <> cr -> c <> lf ->
        findstream fdata obj "stream" st
        = (Raise (PdfParseError "stream keyword not followed by LF"), st))
  /\ (Py.index fdata p = None \/
      Py.index fdata p = Some cr /\ Py.index fdata (p + 1) = None ->
        findstream fdata obj "stream" st = (Raise IndexError, st)).
Proof.
  intros obj p lf cr. subst obj p lf cr.
  unfold findstream. cbn [is_PdfDict negb orb String.eqb Ascii.eqb Bool.eqb].
  change (Py.len "stream") with 6. mred.
  split; [|split; [|split; [|split]]].
  - intros H. rewrite H.
    change (String.eqb (String Py.LF "") (String Py.CR "")) with false. cbv beta iota.
    rewrite Z.add_0_r, H.
    change (String.eqb (String Py.LF "") (String Py.LF "")) with true.
    reflexivity.
  - intros H1 H2. rewrite H1.
    change (String.eqb (String Py.CR "") (String Py.CR "")) with true. cbv beta iota.
    rewrite H2.
    change (String.eqb (String Py.LF "") (String Py.LF "")) with true.
    cbn [negb]. f_equal. f_equal. lia.
  - intros c H1 H2 Hc. rewrite H1.
    change (String.eqb (String Py.CR "") (String Py.CR "")) with true. cbv beta iota.
    rewrite H2.
    destruct (String.eqb_spec c (String Py.LF "")); [contradiction|].
    cbn [negb]. destruct (warned_bad_stream_start st); cbn [negb];
      rewrite Z.add_0_r; reflexivity.
  - intros c H Hcr Hlf. rewrite H.
    destruct (String.eqb_spec c (String Py.CR "")); [contradiction|].
    rewrite Z.add_0_r, H.
    destruct (String.eqb_spec c (String Py.LF "")); [contradiction|].
    reflexivity.
  - intros [H|[H1 H2]].
    + rewrite H. reflexivity.
    + rewrite H1.
      change (String.eqb (String Py.CR "") (String Py.CR "")) with true. cbv beta iota.
      rewrite H2. reflexivity.
Qed.


(** X12: with a [/Length] that is an integer token, [readstream] never
    raises, whatever the bytes of the buffer: it returns the dictionary
    with a payload that is a slice of the buffer, it writes at most one
    line to the log, and it leaves the table, the deferred set and the
    offsets alone. *)
Theorem readstream_returns
    (resolve : key -> M value) (d : dict) (i : option key) (s : option string)
    (ltok : string) (li : option key) (n startstream : Z) (st : reader) :
  dict_get d "/Length" = Some (PdfObject ltok li) ->
  Py.int ltok = Some n ->
  exists a b st',
    readstream fdata lexer resolve (PdfDict d i s) startstream st
    = (Ret (PdfDict d i (Some (Py.slice fdata a b))), st')
    /\ (log st' = log st \/ exists e, log st' = (log st ++ [e])%list)
    /\ indirect_objects st' = indirect_objects st
    /\ deferred_objects st' = deferred_objects st
    /\ obj_offsets st' = obj_offsets st.
Proof.
  intros HL Hint.
  unfold readstream. mred. rewrite HL. mred. rewrite Hint. mred.
  destruct (multiple_returns lexer 2 (set_floc (startstream + n) st)) as (l & st1 & Hm).
  destruct (multiple_moves lexer _ _ _ _ Hm) as (fl & ts & ->).
  rewrite Hm. cbn [set_stream].
  repeat match goal with
  | |- context [if ?b then _ else _] => destruct b
  end;
  (eexists _, _, _; split; [reflexivity|]; cbn;
   split; [first [left; reflexivity | right; eexists; reflexivity]|];
   repeat split).
Qed.

End MoreStreams.

Lemma readstream_returns_witness :
  exists a b st',
    readstream stream_too_big (ws_lexer stream_too_big) no_resolve
      (PdfDict [("/Length", PdfObject "50" None)] None None) 33 (fresh 0)
    = (Ret (PdfDict [("/Length", PdfObject "50" None)] None
              (Some (Py.slice stream_too_big a b))), st')
    /\ (log st' = log (fresh 0) \/ exists e, log st' = (log (fresh 0) ++ [e])%list).
Proof.
  destruct (readstream_returns stream_too_big (ws_lexer stream_too_big) no_resolve
              [("/Length", PdfObject "50" None)] None None "50" None 50 33 (fresh 0)
              eq_refl eq_refl) as (a & b & st' & H1 & H2 & _).
  exists a, b, st'. split; [exact H1|exact H2].
Defined.

Lemma findstream_start_witness :
  findstream stream_ok (PdfDict [] None None) "stream" (set_tokstart 25 (fresh 0))
  = (Ret 32, set_tokstart 25 (fresh 0))
  /\ findstream stream_crlf (PdfDict [] None None) "stream" (fresh 0)
     = (Ret 8, fresh 0).
Proof.
  split.
  - apply (proj1 (findstream_start stream_ok [] None None (set_tokstart 25 (fresh 0)))).
    reflexivity.
  - apply (proj1 (proj2 (findstream_start stream_crlf [] None None (fresh 0))));
      reflexivity.
Defined.

(** ** Well-formed sections, and what a section can do *)

Lemma section_added_refl st : section_added [] (floc st) st st.
Proof. repeat split. cbn. rewrite app_nil_r. reflexivity. Qed.

Lemma section_added_trans es1 es2 m q a b c :
  section_added es1 m a b -> section_added es2 q b c ->
  section_added (es1 ++ es2) q a c.
Proof.
  intros (H1 & H2 & H3 & H4 & H5 & H6 & H7) (H1' & H2' & H3' & H4' & H5' & H6' & H7').
  repeat split; try congruence.
  - rewrite H1', H1. unfold add_all. rewrite fold_left_app. reflexivity.
  - rewrite H2', H2, map_app, app_assoc. reflexivity.
Qed.

Section Sections.
Variable fdata : string.
Variable lexer : Z -> option (string * Z * Z).

Lemma xref_entries_lines ls : forall n es q st,
  line_entries n ls = Some es ->
  lexes lexer (floc st) (flat_map line_tokens ls) q ->
  exists st', xref_entries lexer (length ls) n st = (Ret tt, st')
    /\ section_added es q st st'.
Proof.
  induction ls as [|[[o g] f] ls IH]; intros n es q st He Hl.
  - injection He as <-. inversion Hl; subst. exists st.
    split; [reflexivity|apply section_added_refl].
  - cbn [line_entries] in He.
    destruct (Py.int o) as [off|] eqn:Eo; [|discriminate].
    destruct (Py.int g) as [gen|] eqn:Eg; [|discriminate].
    destruct (line_entries (n + 1) ls) as [es'|] eqn:Ees; [|discriminate].
    cbn [flat_map line_tokens fst snd app] in Hl.
    inversion Hl as [|p0 tok ts1 fl1 toks0 q0 Hlex1 Hrest1]; subst.
    inversion Hrest1 as [|p0 tok ts2 fl2 toks0 q0 Hlex2 Hrest2]; subst.
    inversion Hrest2 as [|p0 tok ts3 fl3 toks0 q0 Hlex3 Hrest3]; subst.
    cbn [length xref_entries]. unfold next, add_entry. mred.
    cbn [floc set_floc set_objnum set_tokstart]. rewrite Hlex1, Eo.
    cbn [floc set_floc set_objnum set_tokstart]. rewrite Hlex2, Eg.
    cbn [floc set_floc set_objnum set_tokstart]. rewrite Hlex3.
    destruct (String.eqb f "n") eqn:En.
    + injection He as <-. destruct (off =? 0) eqn:Ez; cbn [negb].
      * match goal with |- context [xref_entries lexer (length ls) (n + 1) ?s] =>
          destruct (IH (n + 1) es' q s Ees Hrest3) as (st' & Hrun & Hadd);
          exists st'; rewrite Hrun; split; [reflexivity|];
          apply (section_added_trans [] es' fl3 q st s st'); [|exact Hadd]
        end.
        repeat split. cbn. rewrite app_nil_r. reflexivity.
      * match goal with |- context [xref_entries lexer (length ls) (n + 1) ?s] =>
          destruct (IH (n + 1) es' q s Ees Hrest3) as (st' & Hrun & Hadd);
          exists st'; rewrite Hrun; split; [reflexivity|];
          apply (section_added_trans [((n, gen), off)] es' fl3 q st s st'); [|exact Hadd]
        end.
        repeat split.
    + destruct (String.eqb f "f") eqn:Ef; [|discriminate]. injection He as <-.
      cbn [negb].
      match goal with |- context [xref_entries lexer (length ls) (n + 1) ?s] =>
        destruct (IH (n + 1) es' q s Ees Hrest3) as (st' & Hrun & Hadd);
        exists st'; rewrite Hrun; split; [reflexivity|];
        apply (section_added_trans [] es' fl3 q st s st'); [|exact Hadd]
      end.
      repeat split. cbn. rewrite app_nil_r. reflexivity.
Qed.


Lemma xref_strict_section subs : forall es q st fuel,
  section_entries subs = Some es ->
  lexes lexer (floc st) (section_tokens subs) q ->
  (length subs < fuel)%nat ->
  exists st', xref_strict lexer fuel st = (Ret tt, st')
    /\ section_added es q st st'.
Proof.
  induction subs as [|[[first count] ls] r IH]; intros es q st fuel He Hl Hfuel.
  - injection He as <-. cbn in Hl.
    inversion Hl as [|p0 tok ts1 fl1 toks0 q0 Hlex1 Hrest1]; subst.
    inversion Hrest1; subst.
    destruct fuel as [|fuel]; [cbn in Hfuel; lia|].
    cbn [xref_strict]. unfold next. mred. rewrite Hlex1. cbn [String.eqb Ascii.eqb Bool.eqb].
    eexists. split; [reflexivity|]. repeat split. cbn. rewrite app_nil_r. reflexivity.
  - cbn [section_entries] in He.
    destruct (String.eqb first "trailer") eqn:Et; [discriminate|].
    destruct (Py.int first) as [n|] eqn:En; [|discriminate].
    destruct (Py.int count) as [c|] eqn:Ec; [|discriminate].
    destruct (c =? Z.of_nat (length ls)) eqn:Elen; [|discriminate].
    apply Z.eqb_eq in Elen.
    destruct (line_entries n ls) as [es1|] eqn:E1; [|discriminate].
    destruct (section_entries r) as [es2|] eqn:E2; [|discriminate].
    injection He as <-.
    unfold section_tokens in Hl. cbn [flat_map subsection_tokens fst snd] in Hl.
    rewrite <- app_assoc in Hl. cbn [app] in Hl.
    inversion Hl as [|p0 tok ts1 fl1 toks0 q0 Hlex1 Hrest1]; subst.
    inversion Hrest1 as [|p0 tok ts2 fl2 toks0 q0 Hlex2 Hrest2]; subst.
    destruct (lexes_app _ _ _ _ _ Hrest2) as (m & Hlines & Hrest3).
    destruct fuel as [|fuel]; [cbn in Hfuel; lia|].
    cbn [xref_strict]. unfold next. mred. rewrite Hlex1, Et, En.
    cbn [floc set_floc]. rewrite Hlex2, Ec.
    replace (Z.to_nat (Z.of_nat (length ls))) with (length ls) by lia.
    match goal with |- context [xref_entries lexer (length ls) n ?s] =>
      destruct (xref_entries_lines ls n es1 m s E1 Hlines) as (st1 & Hrun & Hadd1)
    end.
    rewrite Hrun.
    assert (Hm : floc st1 = m) by apply Hadd1.
    rewrite <- Hm in Hrest3.
    destruct (IH es2 q st1 fuel eq_refl Hrest3) as (st' & Hrun' & Hadd2);
      [cbn in Hfuel; lia|].
    exists st'. split; [exact Hrun'|].
    eapply section_added_trans; [|exact Hadd2].
    destruct Hadd1 as (H1 & H2 & H3 & H4 & H5 & H6 & H7). repeat split; assumption.
Qed.

(** X13: a section in the strict format - [xref], subsections whose
    lines are as many as they declare, [trailer] - is read without a
    warning: the entries in use that have an offset are added under the
    numbers their subsection gives them, where the key had no offset
    yet, and the source stands just after [trailer]. *)
Theorem parsexref_well_formed fuel subs es p q st :
  section_entries subs = Some es ->
  lexes lexer p ("xref" :: section_tokens subs) q ->
  floc st = p -> (length subs < fuel)%nat ->
  exists st', parsexref fdata lexer fuel st = (Ret tt, st')
    /\ section_added es q st st'.
Proof.
  intros He Hl Hf Hfuel. subst p.
  inversion Hl as [|p0 tok ts1 fl1 toks0 q0 Hlex1 Hrest1]; subst.
  unfold parsexref. unfold next at 1. mred. rewrite Hlex1.
  cbn [String.eqb Ascii.eqb Bool.eqb negb].
  match goal with |- context [xref_strict lexer fuel ?s] =>
    destruct (xref_strict_section subs es q s fuel He Hrest1 Hfuel) as (st' & Hrun & Hadd)
  end.
  rewrite Hrun. exists st'. split; [reflexivity|].
  destruct Hadd as (H1 & H2 & H3 & H4 & H5 & H6 & H7). repeat split; assumption.
Qed.

End Sections.

Lemma parsexref_well_formed_witness :
  exists st', parsexref one_section (ws_lexer one_section) 2 (fresh 0) = (Ret tt, st')
    /\ obj_offsets st' = {[ (1, 0) := 10; (2, 0) := 20 ]}
    /\ log st' = [].
Proof.
  destruct (parsexref_well_formed one_section (ws_lexer one_section) 2
              [("0", "3", [("0000000000", "65535", "f");
                           ("0000000010", "00000", "n");
                           ("0000000020", "00000", "n")])]
              [((1, 0), 10); ((2, 0), 20)] 0 73 (fresh 0))
    as (st' & Hrun & H1 & _ & _ & H4 & _).
  - reflexivity.
  - unfold section_tokens. cbn [flat_map subsection_tokens line_tokens fst snd app].
    lex_run.
  - reflexivity.
  - cbn; lia.
  - exists st'. split; [exact Hrun|]. split; [|exact H4].
    rewrite H1. vm_compute. reflexivity.
Defined.

Lemma adds_offsets_refl st : adds_offsets st st.
Proof. repeat split; auto. exists []. rewrite app_nil_r. reflexivity. Qed.

Lemma adds_offsets_trans a b c : adds_offsets a b -> adds_offsets b c -> adds_offsets a c.
Proof.
  intros (H1 & [l H2] & H3 & H4) (H1' & [l' H2'] & H3' & H4'). repeat split.
  - auto.
  - exists (l ++ l')%list. rewrite H2', H2, app_assoc. reflexivity.
  - congruence.
  - congruence.
Qed.

Lemma adds_offsets_frame st st' :
  obj_offsets st' = obj_offsets st -> all_offsets st' = all_offsets st ->
  indirect_objects st' = indirect_objects st ->
  deferred_objects st' = deferred_objects st ->
  adds_offsets st st'.
Proof.
  intros Ho Ha Ht Hd. repeat split; auto.
  - rewrite Ho. auto.
  - exists []. rewrite app_nil_r. exact Ha.
Qed.

Ltac ostep := respects_with adds_offsets_refl adds_offsets_trans.

Section Offsets.
Variable fdata : string.
Variable lexer : Z -> option (string * Z * Z).

Lemma adds_next : respects adds_offsets (next lexer).
Proof.
  intros st o st'. unfold next.
  destruct (lexer (floc st)) as [[[tok ts] fl]|]; intros [= _ <-].
  - apply adds_offsets_frame; reflexivity.
  - apply adds_offsets_refl.
Qed.

Lemma adds_modify f :
  (forall st, obj_offsets (f st) = obj_offsets st) ->
  (forall st, all_offsets (f st) = all_offsets st) ->
  (forall st, indirect_objects (f st) = indirect_objects st) ->
  (forall st, deferred_objects (f st) = deferred_objects st) ->
  respects adds_offsets (modify f).
Proof.
  intros. apply respects_modify. intros st. apply adds_offsets_frame; auto.
Qed.

Lemma adds_add_entry n g offset : respects adds_offsets (add_entry n g offset).
Proof.
  apply respects_modify. intros st. repeat split; cbn.
  - intros k v Hk. destruct (obj_offsets st !! (n, g)) eqn:E; [exact Hk|].
    rewrite lookup_insert_ne; [exact Hk|]. intros <-. congruence.
  - eauto.
Qed.

Lemma adds_xref_entries n : forall cur, respects adds_offsets (xref_entries lexer n cur).
Proof.
  induction n as [|n IH]; intros cur; cbn [xref_entries]; [ostep|].
  ostep; [apply adds_modify; reflexivity|].
  ostep; [apply adds_next|]. ostep; [unfold int_tok; ostep|].
  ostep; [apply adds_next|]. ostep; [unfold int_tok; ostep|].
  ostep; [apply adds_next|]. ostep; [|apply IH].
  destruct (String.eqb a4 "n"); ostep; [apply adds_add_entry|ostep].
Qed.

Lemma adds_xref_strict fuel : respects adds_offsets (xref_strict lexer fuel).
Proof.
  induction fuel as [|fuel IH]; cbn [xref_strict]; [ostep|].
  ostep; [apply adds_next|].
  destruct (String.eqb a "trailer"); [ostep|].
  ostep; [unfold int_tok; ostep|]. ostep; [apply adds_next|].
  ostep; [unfold int_tok; ostep|]. ostep; [apply adds_xref_entries|apply IH].
Qed.

Lemma adds_xref_recover_lines table : respects adds_offsets (xref_recover_lines table).
Proof.
  induction table as [|line r IH]; cbn [xref_recover_lines]; [ostep|].
  ostep; [|apply IH].
  unfold xref_recover_line.
  destruct (Py.split line) as [|a [|b [|c [|d l]]]].
  - ostep.
  - ostep; [apply adds_modify; reflexivity|]. ostep.
  - ostep; [unfold int_tok; ostep|]. apply adds_modify; reflexivity.
  - ostep; [unfold int_tok; ostep|]. ostep; [unfold int_tok; ostep|].
    ostep.
    + ostep. ostep; [unfold bound_objnum; ostep; [ostep|ostep]|].
      apply adds_add_entry.
    + ostep; [unfold bound_objnum; ostep; [ostep|ostep]|].
      apply adds_modify; reflexivity.
  - ostep; [apply adds_modify; reflexivity|]. ostep.
Qed.

(** X14: a section never replaces an offset.  Whatever [parsexref]
    does - return, raise or run on, by the strict pass, the second pass
    or both - every offset bound before is bound to the same value
    after, the list of all offsets only grows at its end, and the table
    and the deferred set are as before. *)
Theorem parsexref_adds_offsets fuel : respects adds_offsets (parsexref fdata lexer fuel).
Proof.
  unfold parsexref.
  ostep; [apply adds_next|].
  ostep; [ostep; unfold exception; ostep|].
  ostep; [ostep|]. ostep; [apply adds_modify; reflexivity|].
  ostep.
  - ostep; [|ostep]. ostep; [apply adds_xref_strict|ostep].
  - destruct a3; [ostep|].
    unfold xref_recover. cbv zeta. ostep.
    + ostep; [ostep; ostep|].
      ostep; [apply adds_xref_recover_lines|].
      ostep; [apply adds_modify; reflexivity|].
      ostep; [apply adds_modify; reflexivity|].
      ostep; [apply adds_next|ostep].
    + ostep; [apply adds_modify; reflexivity|]. unfold exception. ostep.
Qed.

(** X15: the only exceptions [parsexref] lets through are the end of
    input or the parse error for a missing [xref] keyword, and the
    parse error "Invalid table format" once both passes have failed,
    with the source back just after the [xref] keyword.  What the
    passes themselves raise never reaches the caller. *)
Theorem parsexref_raises fuel st e st' :
  parsexref fdata lexer fuel st = (Raise e, st') ->
  (e = StopIteration /\ lexer (floc st) = None /\ st' = st)
  \/ (e = PdfParseError "Expected xref keyword"
      /\ exists tok ts, tok <> "xref" /\ lexer (floc st) = Some (tok, ts, floc st'))
  \/ (e = PdfParseError "Invalid table format"
      /\ exists ts, lexer (floc st) = Some ("xref", ts, floc st')).
Proof.
  unfold parsexref. unfold next at 1. unfold bind at 1.
  destruct (lexer (floc st)) as [[[tok ts] fl]|] eqn:E.
  2:{ intros [= <- <-]. left. auto. }
  destruct (String.eqb_spec tok "xref") as [->|Hne]; cbn [negb when].
  2:{ unfold exception, raise, bind. intros [= <- <-]. right. left.
      split; [reflexivity|]. exists tok, ts. split; [exact Hne|reflexivity]. }
  intros H. right. right.
  revert H. mred.
  match goal with |- context [xref_strict lexer fuel ?s] =>
    destruct (xref_strict lexer fuel s) as [[[]|e0|] s1] end; try discriminate.
  unfold xref_recover, try_except. mred.
  match goal with |- context [if ?b then _ else _] => destruct b end.
  - intros [= <- <-]. split; [reflexivity|]. exists ts. reflexivity.
  - match goal with |- context [xref_recover_lines ?t ?s] =>
      destruct (xref_recover_lines t s) as [[[]|e1|] s2] end.
    + unfold next.
      match goal with |- context [lexer ?p] => destruct (lexer p) as [[[t2 ts2] fl2]|] end.
      * discriminate.
      * intros [= <- <-]. split; [reflexivity|]. exists ts. reflexivity.
    + intros [= <- <-]. split; [reflexivity|]. exists ts. reflexivity.
    + discriminate.
Qed.

End Offsets.

Lemma parsexref_raises_witness :
  exists ts, ws_lexer xref_two_trailers 0 = Some ("xref", ts, 4).
Proof.
  destruct (parsexref_raises xref_two_trailers (ws_lexer xref_two_trailers) 20
              (fresh 0) (PdfParseError "Invalid table format")
              (snd (parsexref xref_two_trailers (ws_lexer xref_two_trailers) 20 (fresh 0))))
    as [(H & _)|[(H & _)|(_ & H)]].
  - vm_compute. reflexivity.
  - discriminate H.
  - discriminate H.
  - exact H.
Defined.

(** ** What a load leaves behind *)

Lemma set_indirect_tag obj k obj' :
  set_indirect obj k = Some obj' -> is_PdfIndirect obj = false ->
  tag_of obj' = Some k.
Proof. destruct obj; intros [= <-]; try reflexivity. discriminate. Qed.

Lemma set_stream_tag obj d : tag_of (set_stream obj d) = tag_of obj.
Proof. destruct obj; reflexivity. Qed.

Section Loaded.
Variable fdata : string.
Variable lexer : Z -> option (string * Z * Z).

Lemma register_object_tag resolve k obj st v st' :
  is_PdfIndirect obj = false ->
  register_object fdata lexer resolve k obj st = (Ret v, st') ->
  tag_of v = Some k.
Proof.
  intros Hobj. unfold register_object, store, deferred_remove. mred.
  destruct (bool_decide _); [|discriminate].
  destruct (set_indirect obj k) as [obj'|] eqn:Etag; [|discriminate].
  pose proof (set_indirect_tag _ _ _ Etag Hobj) as Ht.
  match goal with |- context [next lexer ?s] =>
    destruct (next lexer s) as [[tok| |] s4] end; try discriminate.
  destruct (negb _); [|intros [= <- _]; exact Ht].
  destruct (findstream fdata obj' tok s4) as [[ss| |] s5]; try discriminate.
  destruct (readstream fdata lexer resolve obj' ss s5) as [[obj2| |] s6] eqn:Er;
    try discriminate.
  destruct (readstream_shape _ _ _ _ _ _ _ _ Er) as [d ->].
  intros [= <- _]. rewrite set_stream_tag. exact Ht.
Qed.

(** X16: what a successful load leaves behind.  When [loadindirect] on
    a deferred key hands back an object rather than [None], the object
    carries the key as its tag, it is the entry of the key in the table,
    the key has left the deferred set, and the deferred keys are again
    the keys whose entry is a placeholder. *)
Theorem loadindirect_loaded fuel k st v st1 :
  consistent st -> unresolved st k ->
  loadindirect fdata lexer fuel k st = (Ret v, st1) ->
  is_None v = false ->
  tag_of v = Some k
  /\ indirect_objects st1 !! k = Some v
  /\ is_PdfIndirect v = false
  /\ (k ∉ deferred_objects st1)
  /\ consistent st1.
Proof.
  intros Hc Hu Hrun Hv.
  pose proof (loadindirect_loads fdata lexer _ _ _ _ _ Hrun) as (Hc1 & _ & _).
  specialize (Hc1 Hc).
  revert Hrun. rewrite loadindirect_unfold.
  set (resolve := fun k' => match fuel with
                            | O => diverge
                            | S f => loadindirect fdata lexer f k'
                            end).
  assert (Hres : forall k', respects loads (resolve k')).
  { intros k'. subst resolve. destruct fuel; [lstep|apply loadindirect_loads]. }
  destruct (Z.eq_dec (default 0 (obj_offsets st !! k)) 0) as [Hoff|Hoff].
  { rewrite loadindirect_with_absent by assumption.
    intros [= <- _]. discriminate. }
  rewrite loadindirect_with_present by assumption. mred.
  destruct (read_header fdata lexer k _ st) as [[found| |] s1] eqn:Eh;
    try discriminate.
  pose proof (keeps_read_header fdata lexer _ _ _ _ _ Eh) as K1.
  destruct found; cbn [negb]; [|intros [= <- _]; discriminate].
  destruct (read_object lexer fuel s1) as [[obj| |] s2] eqn:Eo; try discriminate.
  pose proof (keeps_read_object lexer _ _ _ _ Eo) as K2.
  pose proof (read_object_shape lexer _ _ _ _ Eo) as Hshape.
  intros Hreg.
  pose proof (register_object_tag _ _ _ _ _ _ Hshape Hreg) as Htag.
  eapply register_object_loads in Hreg as [_ Hres2];
    [|exact Hres|exact Hshape
     |eapply keeps_unresolved; [exact K2|];
      eapply keeps_unresolved; [exact K1|]; exact Hu].
  destruct (Hres2 v eq_refl) as [Hv1 Hv2].
  split; [exact Htag|]. split; [exact Hv1|]. split; [exact Hv2|].
  split; [|exact Hc1].
  intros Hin. apply Hc1 in Hin. destruct Hin as [k' Hk'].
  rewrite Hv1 in Hk'. injection Hk' as ->. discriminate.
Qed.


(** X17: an object whose header is neither at its offset nor anywhere
    after a line break is not loaded: [loadindirect] hands back [None]
    with the one warning "Expected indirect object", and the entry stays
    the placeholder and the key stays deferred. *)
Theorem loadindirect_header_missing fuel k o st objid s1 :
  unresolved st k -> obj_offsets st !! k = Some o -> o <> 0 ->
  multiple lexer 3 (set_floc o st) = (Ret objid, s1) ->
  header_ok k objid = false ->
  is_Some (lexer o) ->
  Py.find fdata (String Py.LF (objheader k)) 0 (Py.len fdata) = -1 ->
  Py.find fdata (String Py.CR (objheader k)) 0 (Py.len fdata) = -1 ->
  exists st',
    loadindirect fdata lexer fuel k st = (Ret PyNone, st')
    /\ log st' = (log st ++ [(Warning, "Expected indirect object")])%list
    /\ indirect_objects st' = indirect_objects st
    /\ deferred_objects st' = deferred_objects st.
Proof.
  intros Hu Ho Hne Hm Hok [[[t ts] fl] Hlex] Hlf Hcr.
  rewrite loadindirect_unfold.
  rewrite loadindirect_with_present by (try exact Hu; rewrite Ho; exact Hne).
  rewrite Ho. unfold default, id, read_header, resync. mred. rewrite Hm, Hok.
  destruct (multiple_moves lexer _ _ _ _ Hm) as (fl1 & ts1 & ->).
  unfold next. cbn [floc set_floc]. rewrite Hlex, Hlf, Hcr.
  cbn [Z.add Z.eqb Z.opp Z.pos_sub negb].
  eexists. split; [reflexivity|]. repeat split.
Qed.

(** X18: an object that is not at its offset but whose header stands
    once in the buffer, after a line feed, is found there: the header
    check succeeds with the one warning "Indirect object found at
    incorrect offset" and the source is put just after that header. *)
Theorem read_header_resync k o st objid s1 o2 c :
  multiple lexer 3 (set_floc o st) = (Ret objid, s1) ->
  header_ok k objid = false ->
  is_Some (lexer o) ->
  Py.find fdata (String Py.LF (objheader k)) 0 (Py.len fdata) = o2 - 1 ->
  0 < o2 ->
  Py.index fdata (o2 - 1) = Some c ->
  Py.find fdata (String.append c (objheader k)) o2 (Py.len fdata) <= 0 ->
  exists st',
    read_header fdata lexer k o st = (Ret true, st')
    /\ floc st' = o2 + Py.len (objheader k)
    /\ log st' = (log st ++ [(Warning, "Indirect object found at incorrect offset")])%list
    /\ indirect_objects st' = indirect_objects st
    /\ deferred_objects st' = deferred_objects st.
Proof.
  intros Hm Hok [[[t ts] fl] Hlex] Hlf Hpos Hc Hdup.
  unfold read_header, resync. mred. rewrite Hm, Hok.
  destruct (multiple_moves lexer _ _ _ _ Hm) as (fl1 & ts1 & ->).
  unfold next. cbn [floc set_floc]. rewrite Hlex, Hlf.
  replace (o2 - 1 + 1) with o2 by lia.
  assert (E0 : (o2 =? 0) = false) by lia.
  rewrite E0. cbv beta iota. rewrite ?E0, Hc.
  assert (E1 : (Py.find fdata (String.append c (objheader k)) o2 (Py.len fdata) >? 0) = false)
    by lia.
  cbv beta iota. rewrite ?E0, E1. cbv beta iota. rewrite ?E0.
  eexists. split; [reflexivity|]. repeat split.
Qed.

End Loaded.

Lemma one_deferred_consistent : consistent one_deferred.
Proof.
  intros k. unfold unresolved. cbn.
  rewrite elem_of_singleton. split.
  - intros ->. eexists. apply lookup_singleton_eq.
  - intros [k' Hk]. apply lookup_singleton_Some in Hk as [Hk _]. congruence.
Qed.

Lemma loadindirect_loaded_witness :
  exists v st1,
    loadindirect stream_ok (ws_lexer stream_ok) 20 (1, 0) one_deferred = (Ret v, st1)
    /\ tag_of v = Some (1, 0)
    /\ indirect_objects st1 !! (1, 0) = Some v.
Proof.
  destruct (loadindirect stream_ok (ws_lexer stream_ok) 20 (1, 0) one_deferred)
    as [o st1] eqn:E.
  assert (Ho : o = Ret (PdfDict [("/Length", PdfObject "5" None)] (Some (1, 0))
                          (Some "hello"))).
  { pose proof (f_equal fst E) as E1. vm_compute in E1. symmetry. exact E1. }
  subst o.
  destruct (loadindirect_loaded stream_ok (ws_lexer stream_ok) 20 (1, 0) one_deferred
              (PdfDict [("/Length", PdfObject "5" None)] (Some (1, 0)) (Some "hello"))
              st1 one_deferred_consistent) as (H1 & H2 & _).
  - eexists. apply lookup_singleton_eq.
  - exact E.
  - reflexivity.
  - eexists _, st1. split; [reflexivity|]. split; [exact H1|exact H2].
Defined.

(** Object 1 is entered at offset 1, where object 2 stands, and stands
    nowhere. *)
Lemma loadindirect_header_missing_witness :
  exists st',
    loadindirect " 2 0 obj 7 endobj" (ws_lexer " 2 0 obj 7 endobj") 5 (1, 0) one_deferred
    = (Ret PyNone, st')
    /\ log st' = [(Warning, "Expected indirect object")].
Proof.
  destruct (loadindirect_header_missing " 2 0 obj 7 endobj"
              (ws_lexer " 2 0 obj 7 endobj") 5 (1, 0) 1 one_deferred
              ["2"; "0"; "obj"]
              (set_floc 8 (set_tokstart 5 one_deferred)))
    as (st' & H1 & H2 & _).
  - eexists. apply lookup_singleton_eq.
  - apply lookup_singleton_eq.
  - lia.
  - vm_compute. reflexivity.
  - reflexivity.
  - eexists. vm_compute. reflexivity.
  - vm_compute. reflexivity.
  - vm_compute. reflexivity.
  - exists st'. split; [exact H1|exact H2].
Defined.

Lemma read_header_resync_witness :
  exists st',
    read_header moved_object (ws_lexer moved_object) (1, 0) 1 one_deferred = (Ret true, st')
    /\ floc st' = 20
    /\ log st' = [(Warning, "Indirect object found at incorrect offset")].
Proof.
  destruct (read_header_resync moved_object (ws_lexer moved_object) (1, 0) 1 one_deferred
              ["2"; "0"; "obj"]
              (set_floc 8 (set_tokstart 5 one_deferred)) 13 (String Py.LF ""))
    as (st' & H1 & H2 & H3 & _).
  - vm_compute. reflexivity.
  - reflexivity.
  - eexists. vm_compute. reflexivity.
  - vm_compute. reflexivity.
  - lia.
  - vm_compute. reflexivity.
  - vm_compute. discriminate.
  - exists st'. split; [exact H1|]. split; [exact H2|exact H3].
Defined.

(** ** Page trees of loaded objects *)

Section LoadedPages.
Variable fdata : string.
Variable lexer : Z -> option (string * Z * Z).
Variable lfuel : nat.

Lemma loadindirect_known k v st :
  indirect_objects st !! k = Some v -> is_PdfIndirect v = false ->
  loadindirect fdata lexer lfuel k st = (Ret v, st).
Proof.
  intros Hv Hp. rewrite loadindirect_unfold. unfold loadindirect_with.
  mred. rewrite Hv. destruct v; try reflexivity. discriminate.
Qed.

Lemma stands_for_resolved v v' st :
  stands_for (indirect_objects st) v v' ->
  resolved (loadindirect fdata lexer lfuel) v st = (Ret v', st).
Proof.
  destruct v; cbn [stands_for resolved]; try (intros ->; reflexivity).
  intros [Hk Hp]. apply loadindirect_known; assumption.
Qed.

Lemma stands_for_getitem d i s name v v' st :
  dict_get d name = Some v ->
  stands_for (indirect_objects st) v v' ->
  getitem (loadindirect fdata lexer lfuel) (PdfDict d i s) name st = (Ret v', st).
Proof.
  intros Hd Hs. cbn [getitem]. rewrite Hd.
  destruct v; cbn [stands_for] in Hs; try (subst v'; reflexivity).
  destruct Hs as [Hk Hp]. apply loadindirect_known; assumption.
Qed.

Lemma readnode_flattens st h :
  (forall node ps, page_tree (indirect_objects st) h node ps ->
     readnode (loadindirect fdata lexer lfuel) h node st = (Ret ps, st))
  /\ (forall kids ps, page_forest (indirect_objects st) h kids ps ->
        each_kid (loadindirect fdata lexer lfuel)
          (readnode (loadindirect fdata lexer lfuel) h) kids st = (Ret ps, st)).
Proof.
  induction h as [|h [IHt IHf]].
  - split; [intros node ps H; inversion H|].
    intros kids ps H. inversion H as [|? ? ? ? ? ? ? Ht]; subst; [reflexivity|].
    inversion Ht.
  - assert (Ht : forall node ps, page_tree (indirect_objects st) (S h) node ps ->
        readnode (loadindirect fdata lexer lfuel) (S h) node st = (Ret ps, st)).
    { intros node ps H.
      inversion H as [? d i s ty ti Hty Hs|? d i s ty ti kv kids ki ? Hty Hs Hkv Hks Hf];
        subst; cbn [readnode];
        rewrite (in_generator_ret _ _ _ _ _ (stands_for_getitem _ _ _ _ _ _ _ Hty Hs)).
      - reflexivity.
      - cbn [name_is String.eqb Ascii.eqb Bool.eqb].
        rewrite (in_generator_ret _ _ _ _ _ (stands_for_getitem _ _ _ _ _ _ _ Hkv Hks)).
        cbn [iterate]. unfold bind at 1, ret at 1. apply IHf, Hf. }
    split; [exact Ht|].
    intros kids ps H. remember (S h) as h' eqn:Eh.
    induction H as [|? kid node ps kids qs Hs Hn Hrest IH]; [reflexivity|].
    specialize (IH Eh). subst h0.
    cbn [each_kid]. rewrite (in_generator_ret _ _ _ _ _ (stands_for_resolved _ _ _ Hs)).
    unfold bind at 1. rewrite (Ht _ _ Hn).
    unfold bind at 1. rewrite IH by exact Ht. reflexivity.
Qed.

(** X19: on a page tree whose nodes are loaded, [readpages] hands back
    the pages from left to right, depth first, and changes nothing: no
    object is loaded again and nothing is logged.  The tree may be
    handed over as its root or as the catalog that names it, and its
    nodes directly or by reference. *)
Theorem readpages_loaded_tree st h node ps :
  page_tree (indirect_objects st) h node ps ->
  readpages (loadindirect fdata lexer lfuel) h node st = (Ret ps, st)
  /\ (forall d i s ty ti pv,
        dict_get d "/Type" = Some ty ->
        stands_for (indirect_objects st) ty (PdfObject "/Catalog" ti) ->
        dict_get d "/Pages" = Some pv ->
        stands_for (indirect_objects st) pv node ->
        readpages (loadindirect fdata lexer lfuel) (S h) (PdfDict d i s) st
        = (Ret ps, st)).
Proof.
  intros H. pose proof (proj1 (readnode_flattens st h) _ _ H) as Hr. split.
  - unfold readpages, try_except. rewrite Hr. reflexivity.
  - intros d i s ty ti pv Hty Hs Hpv Hps.
    unfold readpages, try_except. cbn [readnode].
    rewrite (in_generator_ret _ _ _ _ _ (stands_for_getitem _ _ _ _ _ _ _ Hty Hs)).
    cbn [name_is String.eqb Ascii.eqb Bool.eqb].
    rewrite (in_generator_ret _ _ _ _ _ (stands_for_getitem _ _ _ _ _ _ _ Hpv Hps)).
    rewrite Hr. reflexivity.
Qed.

End LoadedPages.

Lemma readpages_loaded_tree_witness :
  readpages (loadindirect "" (ws_lexer "") 0) 2 pages_root two_pages_loader
  = (Ret [page_a; page_b], two_pages_loader).
Proof.
  refine (proj1 (readpages_loaded_tree "" (ws_lexer "") 0 two_pages_loader 2
                   pages_root [page_a; page_b] _)).
  unfold pages_root.
  apply (page_node _ 1 _ None None (PdfObject "/Pages" None) None
           (PdfArray [page_a; PdfIndirect (2, 0)] None)
           [page_a; PdfIndirect (2, 0)] None [page_a; page_b]);
    try reflexivity.
  apply (forest_cons _ 1 page_a page_a [page_a] [PdfIndirect (2, 0)] [page_b]).
  - reflexivity.
  - apply (page_leaf _ 0 _ None None (PdfObject "/Page" None) None); reflexivity.
  - apply (forest_cons _ 1 (PdfIndirect (2, 0)) page_b [page_b] [] []).
    + split; reflexivity.
    + apply (page_leaf _ 0 _ (Some (2, 0)) None (PdfObject "/Page" None) None);
        reflexivity.
    + apply forest_nil.
Defined.

(** ** A file with one section *)

Section SingleSection.
Variable fdata : string.
Variable lexer : Z -> option (string * Z * Z).
Variable resolve : key -> M value.

(** X20: loading a file with one well-formed section and a trailer of
    names and plain values that has no [/Prev].  The offsets are the
    entries of the section and nothing else, the trailer's pairs become
    the reader's own entries, the table is as it was, and the only
    thing that can be logged is the warning for a trailer that is not
    followed by [startxref]. *)
Theorem load_xrefs_single_section pfuel fuel subs es pairs tail p q st :
  section_entries subs = Some es ->
  Forall pair_ok pairs ->
  dict_get (pairs_dict pairs) "/Prev" = None ->
  lexes lexer p
    ("xref" :: section_tokens subs
       ++ "<<" :: flat_map pair_tokens pairs ++ [">>"; tail])%list q ->
  floc st = p ->
  (length subs < pfuel)%nat -> (length pairs < pfuel)%nat -> (0 < fuel)%nat ->
  exists st',
    load_xrefs fdata lexer resolve pfuel fuel st = (Ret tt, st')
    /\ obj_offsets st' = add_all es ∅
    /\ all_offsets st' = map snd es
    /\ entries st' = dict_update (entries st) (pairs_dict pairs)
    /\ indirect_objects st' = indirect_objects st
    /\ deferred_objects st' = deferred_objects st
    /\ floc st' = q
    /\ log st'
       = (log st ++ if String.eqb tail "startxref" then []
                    else [(Warning, "Expected startxref at end of xref table")])%list.
Proof.
  intros He Hp Hprev Hl Hf Hpf1 Hpf2 Hfuel. subst p.
  inversion Hl as [|p0 tok ts0 fl0 toks0 q0 Hlex0 Hl1]; subst.
  destruct (lexes_app _ _ _ _ _ Hl1) as (m & Hsec & Hl2).
  inversion Hl2 as [|p0 tok ts1 fl1 toks0 q0 Hlex1 Hl3]; subst.
  replace (flat_map pair_tokens pairs ++ [">>"; tail])%list
    with ((flat_map pair_tokens pairs ++ [">>"]) ++ [tail])%list in Hl3
    by (rewrite <- app_assoc; reflexivity).
  destruct (lexes_app _ _ _ _ _ Hl3) as (m2 & Hdict & Hl4).
  inversion Hl4 as [|p0 tok ts3 fl3 toks0 q0 Hlex3 Hl5]; subst.
  inversion Hl5; subst.
  destruct (flat_map pair_tokens pairs ++ [">>"])%list as [|tok0 tl] eqn:E.
  { destruct (flat_map pair_tokens pairs); discriminate. }
  inversion Hdict as [|p0 tok ts2 fl2 toks0 q0 Hlex2 Hrest]; subst.
  destruct fuel as [|fuel]; [lia|].
  unfold load_xrefs. cbn [xref_loop]. unfold read_section, parsexref.
  unfold next at 1. mred0. cbn [floc set_floc set_all_offsets set_obj_offsets].
  rewrite Hlex0. cbn [String.eqb Ascii.eqb Bool.eqb negb].
  match goal with |- context [xref_strict lexer pfuel ?s] =>
    destruct (xref_strict_section lexer subs es m s pfuel He Hsec Hpf1)
      as (s2 & Hrun & Hadd)
  end.
  rewrite Hrun. destruct Hadd as (A1 & A2 & A3 & A4 & A5 & A6 & A7).
  unfold next at 1. rewrite A3, Hlex1.
  cbn [String.eqb Ascii.eqb Bool.eqb negb].
  unfold readdict. unfold bind at 1. unfold next at 1.
  cbn [floc set_floc]. rewrite Hlex2.
  match goal with |- context [readdict_loop lexer pfuel [] tok0 ?s] =>
    destruct (readdict_loop_pairs lexer pairs ">>" tok0 tl m2 s Hp eq_refl E Hrest)
      as [ts IH]
  end.
  replace pfuel with (length pairs + S (pfuel - length pairs - 1))%nat by lia.
  rewrite IH. cbn [readdict_loop String.eqb Ascii.eqb Bool.eqb].
  unfold ret at 1. unfold next at 1. cbn [floc set_floc]. rewrite Hlex3.
  cbn [is_nil andb]. rewrite andb_true_r.
  fold (pairs_dict pairs).
  destruct (String.eqb tail "startxref"); cbn [negb]; mred; rewrite Hprev;
    cbn [is_None items_of];
    (eexists; split; [reflexivity|]);
    cbn; rewrite ?A1, ?A2, ?A4, ?A5, ?A6, ?A7; cbn; rewrite ?app_nil_r;
    repeat split.
Qed.

End SingleSection.

Lemma load_xrefs_single_section_witness :
  exists st',
    load_xrefs one_section (ws_lexer one_section) no_resolve 2 1 (fresh 0) = (Ret tt, st')
    /\ obj_offsets st' = {[ (1, 0) := 10; (2, 0) := 20 ]}
    /\ entries st' = [("/Size", PdfObject "3" None)]
    /\ log st' = [].
Proof.
  destruct (load_xrefs_single_section one_section (ws_lexer one_section) no_resolve 2 1
              [("0", "3", [("0000000000", "65535", "f");
                           ("0000000010", "00000", "n");
                           ("0000000020", "00000", "n")])]
              [((1, 0), 10); ((2, 0), 20)] [("/Size", "3")] "startxref" 0 97 (fresh 0))
    as (st' & Hrun & H1 & _ & H3 & _ & _ & _ & H7).
  - reflexivity.
  - repeat constructor.
  - reflexivity.
  - unfold section_tokens. cbn [flat_map subsection_tokens line_tokens fst snd app].
    lex_run.
  - reflexivity.
  - cbn; lia.
  - cbn; lia.
  - lia.
  - exists st'. split; [exact Hrun|]. split; [|split; [exact H3|exact H7]].
    rewrite H1. vm_compute. reflexivity.
Defined.

(** ** read_all: what it keeps, and when it comes back *)

Section ReadAllMore.
Variable fdata : string.
Variable lexer : Z -> option (string * Z * Z).

(** X21: [read_all] only loads.  Whatever it does - return, raise or
    run on - every loaded entry of the table is as before, the offsets
    are as before, and the deferred keys are still the keys whose entry
    is a placeholder; so when it leaves no key deferred, no placeholder
    is left in the table. *)
Theorem read_all_only_loads fuel st o st' :
  read_all fdata lexer fuel st = (o, st') ->
  consistent st ->
  consistent st'
  /\ obj_offsets st' = obj_offsets st
  /\ (forall k v, indirect_objects st !! k = Some v ->
        is_None v = false -> is_PdfIndirect v = false ->
        indirect_objects st' !! k = Some v)
  /\ (deferred_objects st' = ∅ ->
        forall k v, indirect_objects st' !! k = Some v -> is_PdfIndirect v = false).
Proof.
  intros Hrun Hc.
  destruct (read_all_loads fdata lexer fuel _ _ _ Hrun) as (H1 & H2 & H3).
  specialize (H1 Hc).
  split; [exact H1|]. split; [exact H3|]. split; [exact H2|].
  intros He k v Hk. destruct v; try reflexivity.
  assert (Hin : k ∈ deferred_objects st') by (apply H1; eexists; exact Hk).
  rewrite He in Hin. apply not_elem_of_empty in Hin. destruct Hin.
Qed.

(** X22: [read_all] comes back when every single load does.  If the
    loads never run on, and the deferred keys stay within a finite set
    of keys, then with more fuel than that set has keys [read_all]
    returns or raises: each sweep that loads anything uses up a key,
    also when keys fail to load and stay deferred. *)
Theorem read_all_comes_back (fuel : nat) (universe : gset key) (st : reader) :
  (forall k s o s', loadindirect fdata lexer fuel k s = (o, s') ->
     deferred_objects s ⊆ universe -> deferred_objects s' ⊆ universe) ->
  (forall k s, fst (loadindirect fdata lexer fuel k s) <> Diverge) ->
  deferred_objects st ⊆ universe ->
  (size universe < fuel)%nat ->
  exists o st', read_all fdata lexer fuel st = (o, st')
    /\ (o = Ret tt \/ exists e, o = Raise e).
Proof.
  intros Hin Hback Hu Hf.
  pose proof (read_all_loop_comes_back fdata lexer fuel universe Hin Hback fuel ∅ st Hu)
    as H.
  unfold read_all.
  destruct (read_all_loop fdata lexer fuel fuel ∅ st) as [[[]|e|] st'].
  - eexists _, _. split; [reflexivity|left; reflexivity].
  - eexists _, _. split; [reflexivity|right; eexists; reflexivity].
  - destruct H; [|reflexivity].
    rewrite difference_empty_L. exact Hf.
Qed.

End ReadAllMore.

Lemma ws_lexer_empty p : ws_lexer "" p = None.
Proof.
  unfold ws_lexer. destruct (p <? 0); [reflexivity|].
  destruct (Z.to_nat p); reflexivity.
Qed.

(** On the empty buffer a load reads nothing. *)
Lemma loadindirect_empty_buffer fuel k st :
  exists o st', loadindirect "" (ws_lexer "") fuel k st = (o, st')
    /\ o <> Diverge /\ deferred_objects st' = deferred_objects st.
Proof.
  rewrite loadindirect_unfold. unfold loadindirect_with, read_header, resync.
  mred. destruct (indirect_objects st !! k) as [v|]; [|eexists _, _; repeat split; discriminate].
  destruct v; try (eexists _, _; repeat split; discriminate).
  destruct (_ =? 0); [eexists _, _; repeat split; discriminate|].
  cbn [multiple]. cbn [floc set_floc]. rewrite ws_lexer_empty.
  cbn [header_ok]. unfold next. cbn [floc set_floc]. rewrite ws_lexer_empty.
  eexists _, _; repeat split; discriminate.
Qed.

Lemma read_all_comes_back_witness :
  exists o st', read_all "" (ws_lexer "") 2 one_missing = (o, st')
    /\ (o = Ret tt \/ exists e, o = Raise e).
Proof.
  apply (read_all_comes_back "" (ws_lexer "") 2 {[ (1, 0) ]} one_missing).
  - intros k s o s' H Hs.
    destruct (loadindirect_empty_buffer 2 k s) as (o' & s2 & H2 & _ & Hd).
    rewrite H in H2. injection H2 as _ <-. rewrite Hd. exact Hs.
  - intros k s.
    destruct (loadindirect_empty_buffer 2 k s) as (o' & s2 & H2 & Hne & _).
    rewrite H2. exact Hne.
  - reflexivity.
  - rewrite size_singleton. lia.
Defined.

Lemma read_all_only_loads_witness :
  exists st',
    read_all stream_ok (ws_lexer stream_ok) 20 one_deferred = (Ret tt, st')
    /\ consistent st'
    /\ obj_offsets st' = obj_offsets one_deferred.
Proof.
  destruct (read_all stream_ok (ws_lexer stream_ok) 20 one_deferred) as [o st'] eqn:E.
  assert (Ho : o = Ret tt).
  { pose proof (f_equal fst E) as E1. vm_compute in E1. symmetry. exact E1. }
  subst o.
  destruct (read_all_only_loads stream_ok (ws_lexer stream_ok) 20 one_deferred
              (Ret tt) st' E one_deferred_consistent) as (H1 & H2 & _).
  exists st'. split; [reflexivity|]. split; [exact H1|exact H2].
Defined.

(** ** The frame of the file *)

Lemma prefix_length p : forall s, String.prefix p s = true ->
  (String.length p <= String.length s)%nat.
Proof.
  induction p as [|c p IH]; intros s H; [cbn; lia|].
  destruct s as [|d s]; [discriminate|]. cbn in H.
  destruct (Ascii.ascii_dec c d); [|discriminate].
  apply IH in H. cbn. lia.
Qed.

(** A buffer that starts with [sub] has it at offset 0. *)
Lemma startswith_find s sub :
  Py.startswith s sub = true -> Py.find s sub 0 (Py.len s) = 0.
Proof.
  intros H. pose proof (prefix_length _ _ H) as Hl.
  unfold Py.find, Py.adjust, Py.len.
  destruct (Z.ltb_spec (Z.of_nat (String.length s)) 0); [lia|].
  change (0 <? 0) with false. cbv iota.
  rewrite Z.min_l by lia. rewrite Z.min_id.
  destruct (Z.to_nat _) as [|k] eqn:E; [lia|].
  cbn [Py.find_up]. change (Py.drop (Z.to_nat 0) s) with s.
  unfold Py.startswith in H. rewrite H.
  reflexivity.
Qed.

(** What [rfind] finds is an occurrence. *)
Lemma find_down_spec sub s a k : forall e,
  0 <= a -> Py.find_down sub s a k = e -> 0 <= e ->
  String.prefix sub (Py.drop (Z.to_nat e) s) = true /\ a <= e < a + Z.of_nat k.
Proof.
  induction k as [|k IH]; intros e Ha H He; cbn [Py.find_down] in H; [lia|].
  destruct (String.prefix sub (Py.drop (Z.to_nat (a + Z.of_nat k)) s)) eqn:E.
  - subst e. split; [exact E|lia].
  - destruct (IH e Ha H He) as [H1 H2]. split; [exact H1|lia].
Qed.

(** ... and the last one. *)
Lemma find_down_last sub s a k : forall e j,
  Py.find_down sub s a k = e -> e < j < a + Z.of_nat k -> a <= j ->
  String.prefix sub (Py.drop (Z.to_nat j) s) = false.
Proof.
  induction k as [|k IH]; intros e j H Hj Ha; cbn [Py.find_down] in H; [lia|].
  destruct (String.prefix sub (Py.drop (Z.to_nat (a + Z.of_nat k)) s)) eqn:E.
  - subst e. lia.
  - destruct (Z.eq_dec j (a + Z.of_nat k)) as [->|Hne]; [exact E|].
    apply (IH e j H); lia.
Qed.

Lemma prefix_drop_take p : forall n k s,
  String.prefix p (Py.drop n s) = true -> (String.length p <= k)%nat ->
  String.prefix p (Py.drop n (Py.take (n + k) s)) = true.
Proof.
  assert (H0 : forall p k s, String.prefix p s = true -> (String.length p <= k)%nat ->
                String.prefix p (Py.take k s) = true).
  { clear p. induction p as [|c p IH]; intros k s H Hk;
      [destruct (Py.take k s); reflexivity|].
    destruct s as [|d s]; [discriminate|]. cbn in H.
    destruct (Ascii.ascii_dec c d) as [<-|]; [|discriminate].
    destruct k as [|k]; [cbn in Hk; lia|]. cbn.
    destruct (Ascii.ascii_dec c c); [|contradiction].
    apply IH; [exact H|cbn in Hk; lia]. }
  intros n. induction n as [|n IH]; intros k s H Hk.
  - cbn. apply H0; assumption.
  - destruct s as [|d s].
    + cbn in *. destruct p; [reflexivity|discriminate].
    + cbn. apply IH; assumption.
Qed.

Lemma take_length_le n : forall s, (String.length (Py.take n s) <= String.length s)%nat.
Proof.
  induction n as [|n IH]; intros s; [cbn; lia|].
  destruct s as [|c s]; cbn; [lia|]. specialize (IH s). lia.
Qed.

Lemma take_min n : forall s, Py.take (Nat.min n (String.length s)) s = Py.take n s.
Proof.
  induction n as [|n IH]; intros s; [reflexivity|].
  destruct s as [|c s]; [reflexivity|]. cbn. rewrite IH. reflexivity.
Qed.

(** [fdata[:n]] for a non-negative [n]. *)
Lemma slice_to s n : 0 <= n -> Py.slice s 0 n = Py.take (Z.to_nat n) s.
Proof.
  intros Hn. unfold Py.slice, Py.adjust, Py.len.
  change (0 <? 0) with false. cbv iota.
  destruct (Z.ltb_spec n 0); [lia|].
  rewrite (Z.min_l 0) by lia. cbn [Z.to_nat Py.drop]. rewrite Z.sub_0_r.
  rewrite <- (take_min (Z.to_nat n)). f_equal. lia.
Qed.

(** X23: a buffer in which [%PDF-] stands nowhere, or [%EOF] stands
    nowhere, is rejected with a parse error before anything is read. *)
Theorem check_framing_rejects fdata st :
  Py.find fdata "%PDF-" 0 (Py.len fdata) < 0
  \/ Py.rfind fdata "%EOF" 0 (Py.len fdata) < 0 ->
  exists msg st',
    check_framing fdata st = (Raise (PdfParseError msg), st')
    /\ indirect_objects st' = indirect_objects st
    /\ obj_offsets st' = obj_offsets st.
Proof.
  intros H. unfold check_framing. mred.
  destruct (Py.startswith fdata "%PDF-") eqn:Es; cbn [negb].
  - destruct H as [H|H]; [rewrite (startswith_find _ _ Es) in H; lia|].
    destruct (Z.ltb_spec (Py.rfind fdata "%EOF" 0 (Py.len fdata)) 0); [|lia].
    eexists _, _. repeat split.
  - destruct (Z.geb_spec (Py.find fdata "%PDF-" 0 (Py.len fdata)) 0) as [Hge|Hlt].
    + destruct H as [H|H]; [lia|].
      destruct (Z.ltb_spec (Py.rfind fdata "%EOF" 0 (Py.len fdata)) 0); [|lia].
      eexists _, _. repeat split.
    + destruct (Py.splitlines (Py.lstrip fdata)); eexists _, _; repeat split.
Qed.

(** X24: a buffer that has a header and an end-of-file mark is cut six
    bytes after the start of its last [%EOF]: what is handed on is that
    prefix of the buffer, it still holds the mark where it was, and no
    [%EOF] starts later in the buffer.  The log gets a warning when the
    header is not at the start, and one when what was cut off, without
    its trailing NUL bytes and then without the whitespace around it, is
    not empty; nothing else is touched. *)
Theorem check_framing_cuts fdata e st :
  0 <= Py.find fdata "%PDF-" 0 (Py.len fdata) ->
  Py.rfind fdata "%EOF" 0 (Py.len fdata) = e -> 0 <= e ->
  let kept := Py.take (Z.to_nat (e + 6)) fdata in
  let junk := Py.slice fdata (e + 6) (Py.len fdata) in
  exists st',
    check_framing fdata st = (Ret kept, st')
    /\ String.prefix "%EOF" (Py.drop (Z.to_nat e) kept) = true
    /\ Py.len kept <= Py.len fdata
    /\ (forall j, e < j -> String.prefix "%EOF" (Py.drop (Z.to_nat j) fdata) = false)
    /\ log st'
       = (log st
          ++ (if Py.startswith fdata "%PDF-" then []
              else [(Warning, "PDF header not at beginning of file")])
          ++ (if Py.is_empty (strip (rstrip_byte NUL junk)) then []
              else [(Warning, "Extra data at end of file")]))%list
    /\ indirect_objects st' = indirect_objects st
    /\ obj_offsets st' = obj_offsets st.
Proof.
  intros Hh He Hpos kept junk.
  pose proof He as Hspec. unfold Py.rfind, Py.adjust in Hspec.
  assert (Hlen : 0 <= Py.len fdata) by (unfold Py.len; lia).
  change (0 <? 0) with false in Hspec. cbv iota in Hspec.
  destruct (Z.ltb_spec (Py.len fdata) 0); [lia|].
  rewrite (Z.min_l 0) in Hspec by lia. rewrite Z.min_id in Hspec.
  pose proof (find_down_spec _ _ _ _ _ (Z.le_refl 0) Hspec Hpos) as [Hocc Hrange].
  assert (Hmark : String.prefix "%EOF" (Py.drop (Z.to_nat e) kept) = true).
  { subst kept. replace (Z.to_nat (e + 6)) with (Z.to_nat e + 6)%nat by lia.
    apply prefix_drop_take; [exact Hocc|cbn; lia]. }
  assert (Hlast : forall j, e < j ->
            String.prefix "%EOF" (Py.drop (Z.to_nat j) fdata) = false).
  { intros j Hj.
    destruct (Z.lt_ge_cases j (0 + Z.of_nat (Z.to_nat (Py.len fdata - Py.len "%EOF" - 0 + 1))))
      as [Hin|Hout].
    - apply (find_down_last _ _ _ _ _ j Hspec); lia.
    - destruct (String.prefix "%EOF" (Py.drop (Z.to_nat j) fdata)) eqn:E; [|reflexivity].
      apply prefix_length in E. rewrite length_drop in E.
      change (String.length "%EOF") with 4%nat in E.
      change (Py.len "%EOF") with 4 in Hout. unfold Py.len in *. lia. }
  assert (Hkl : Py.len kept <= Py.len fdata).
  { subst kept. unfold Py.len. pose proof (take_length_le (Z.to_nat (e + 6)) fdata). lia. }
  unfold check_framing. mred. rewrite He.
  destruct (Z.ltb_spec e 0); [lia|].
  rewrite slice_to by lia. fold kept. fold junk.
  destruct (Py.startswith fdata "%PDF-") eqn:Es; cbn [negb].
  - destruct (Py.is_empty (strip (rstrip_byte NUL junk))); cbn [negb];
      eexists; (split; [reflexivity|]); cbn; rewrite ?app_nil_r; repeat split; auto.
  - destruct (Z.geb_spec (Py.find fdata "%PDF-" 0 (Py.len fdata)) 0); [|lia].
    destruct (Py.is_empty (strip (rstrip_byte NUL junk))); cbn [negb];
      eexists; (split; [reflexivity|]); cbn; rewrite <- ?app_assoc, ?app_nil_r;
      repeat split; auto.
Qed.

Lemma check_framing_rejects_witness :
  exists msg st',
    check_framing "no header, no mark" (fresh 0) = (Raise (PdfParseError msg), st')
    /\ indirect_objects st' = indirect_objects (fresh 0).
Proof.
  destruct (check_framing_rejects "no header, no mark" (fresh 0))
    as (msg & st' & H1 & H2 & _).
  - left. vm_compute. reflexivity.
  - exists msg, st'. split; [exact H1|exact H2].
Defined.

Lemma check_framing_cuts_witness :
  exists st',
    check_framing " %PDF-1.4 %EOF 12345" (fresh 0) = (Ret " %PDF-1.4 %EOF 1", st')
    /\ log st' = [(Warning, "PDF header not at beginning of file");
                  (Warning, "Extra data at end of file")].
Proof.
  destruct (check_framing_cuts " %PDF-1.4 %EOF 12345" 10 (fresh 0))
    as (st' & H1 & _ & _ & _ & H5 & _).
  - vm_compute. discriminate.
  - vm_compute. reflexivity.
  - lia.
  - exists st'. split; [exact H1|exact H5].
Defined.

(** ** findxref *)

Lemma digits_value_nonneg s : forall acc,
  0 <= acc -> Py.all_digits s = true -> 0 <= Py.digits_value acc s.
Proof.
  induction s as [|c s IH]; intros acc Ha H; [exact Ha|].
  cbn in H. apply andb_true_iff in H as [Hc Hs]. cbn [Py.digits_value].
  apply IH; [|exact Hs].
  unfold Py.is_digit in Hc. apply andb_true_iff in Hc as [Hc _].
  apply Nat.leb_le in Hc. lia.
Qed.

Lemma digit_not_space c : Py.is_digit c = true -> Py.isspace c = false.
Proof.
  unfold Py.is_digit, Py.isspace. intros H.
  apply andb_true_iff in H as [H1 H2]. apply Nat.leb_le in H1, H2.
  destruct (Nat.eqb_spec (nat_of_ascii c) 32); [lia|].
  destruct (Nat.leb_spec 9 (nat_of_ascii c)); [|reflexivity].
  destruct (Nat.leb_spec (nat_of_ascii c) 13); [lia|reflexivity].
Qed.

Lemma rstrip_digits s : Py.all_digits s = true -> Py.rstrip s = s.
Proof.
  induction s as [|c s IH]; intros H; [reflexivity|].
  cbn in H. apply andb_true_iff in H as [Hc Hs]. cbn [Py.rstrip].
  rewrite (IH Hs), (digit_not_space _ Hc), andb_false_r. reflexivity.
Qed.

(** A run of digits is the decimal numeral of a number that is not
    negative. *)
Lemma isdigit_int t :
  Py.isdigit t = true -> Py.int t = Some (Py.digits_value 0 t) /\ 0 <= Py.digits_value 0 t.
Proof.
  intros H. pose proof H as H'. unfold Py.isdigit in H'.
  apply andb_true_iff in H' as [Hne Hd].
  split; [|apply digits_value_nonneg; [lia|exact Hd]].
  destruct t as [|c r]; [discriminate|].
  pose proof Hd as Hd'. cbn in Hd'. apply andb_true_iff in Hd' as [Hc Hr].
  unfold Py.int. cbn [Py.lstrip]. rewrite (digit_not_space _ Hc).
  rewrite (rstrip_digits _ Hd).
  destruct c as [[] [] [] [] [] [] [] []]; try discriminate Hc; rewrite H; reflexivity.
Qed.

Section FindXrefFacts.
Variable fdata : string.
Variable lexer_raw : Z -> option (string * Z * Z).
Variable nope : string.

(** X25: what [findxref] hands over.  It raises the parse error "Did
    not find startxref" when the keyword is nowhere in the buffer; and
    when it returns, the first offset is that of the last [startxref],
    the token the source yields there is a run of digits whose value,
    which is not negative, is the second offset, and the token after it
    is an end-of-file mark.  A source that yields the keyword itself at
    its offset therefore never gets past the check of the table
    location. *)
Theorem findxref_result :
  (Py.rfind fdata "startxref" 0 (Py.len fdata) < 0 ->
     findxref fdata lexer_raw nope
     = Raise (PdfParseError "Did not find startxref at end of file"))
  /\ (forall startloc tableloc,
        findxref fdata lexer_raw nope = Ret (startloc, tableloc) ->
        startloc = Py.rfind fdata "startxref" 0 (Py.len fdata)
        /\ String.prefix "startxref" (Py.drop (Z.to_nat startloc) fdata) = true
        /\ 0 <= tableloc
        /\ exists tok p,
             next_default lexer_raw nope startloc = (tok, p)
             /\ Py.isdigit tok = true /\ Py.int tok = Some tableloc
             /\ lstrip_byte "%" (Py.rstrip (fst (next_default lexer_raw nope p))) = "EOF")
  /\ (forall ts fl,
        0 <= Py.rfind fdata "startxref" 0 (Py.len fdata) ->
        lexer_raw (Py.rfind fdata "startxref" 0 (Py.len fdata)) = Some ("startxref", ts, fl) ->
        findxref fdata lexer_raw nope = Raise (PdfParseError "Expected table location")).
Proof.
  unfold findxref. split; [|split].
  - intros H. destruct (Z.ltb_spec (Py.rfind fdata "startxref" 0 (Py.len fdata)) 0);
      [reflexivity|lia].
  - intros startloc tableloc.
    destruct (Z.ltb_spec (Py.rfind fdata "startxref" 0 (Py.len fdata)) 0) as [|Hpos];
      [discriminate|].
    destruct (next_default lexer_raw nope _) as [tok p] eqn:E1.
    destruct (Py.isdigit tok) eqn:Ed; cbn [negb]; [|discriminate].
    destruct (next_default lexer_raw nope p) as [t p'] eqn:E2.
    destruct (String.eqb_spec (lstrip_byte "%" (Py.rstrip t)) "EOF") as [He|];
      cbn [negb]; [|discriminate].
    destruct (isdigit_int _ Ed) as [Hi Hn]. rewrite Hi.
    intros [= <- <-]. split; [reflexivity|]. split; [|split; [exact Hn|]].
    + pose proof (eq_refl (Py.rfind fdata "startxref" 0 (Py.len fdata))) as Hspec.
      unfold Py.rfind at 1, Py.adjust in Hspec.
      change (0 <? 0) with false in Hspec. cbv iota in Hspec.
      assert (Hlen : 0 <= Py.len fdata) by (unfold Py.len; lia).
      destruct (Z.ltb_spec (Py.len fdata) 0); [lia|].
      rewrite (Z.min_l 0) in Hspec by lia.
      apply (find_down_spec _ _ _ _ _ (Z.le_refl 0) Hspec Hpos).
    + exists tok, p. rewrite E1, E2. repeat split; assumption.
  - intros ts fl Hpos Hlex.
    destruct (Z.ltb_spec (Py.rfind fdata "startxref" 0 (Py.len fdata)) 0); [lia|].
    unfold next_default. rewrite Hlex. reflexivity.
Qed.

End FindXrefFacts.

(** A source that starts at the offset it is given yields the keyword
    first. *)
Lemma findxref_result_witness :
  findxref "xref trailer startxref 5 %EOF" (ws_lexer "xref trailer startxref 5 %EOF") ""
  = Raise (PdfParseError "Expected table location").
Proof.
  apply (proj2 (proj2 (findxref_result "xref trailer startxref 5 %EOF"
                         (ws_lexer "xref trailer startxref 5 %EOF") "")) 13 22).
  - vm_compute. discriminate.
  - vm_compute. reflexivity.
Defined.
